(** * iPvtPpr: the hashlink decode cascade

    A shallow embedding of [src/iPvtPpr/iPvtPpr.py]: the composer
    [generate_hashlink] and the decode cascade [decode_hashlink], with the
    parts of the Python library they lean on ([re], [base64], [str]
    methods, the UTF-8 codec, [quote], the template) written out, and
    what they only call ([lzma], [execjs], [requests]) taken as
    parameters. *)

From Stdlib Require Import String Ascii NArith ZArith Lia Bool Arith
  DecimalString Sorted List.
Import ListNotations.

(** ** Strings and bytes *)

(** A Python [str] is a sequence of code points; a [bytes] object a
    sequence of octets. *)
Definition char := N.
Definition str := list char.
Definition bytes := list Byte.byte.

Definition lit (s : string) : str := map N_of_ascii (list_ascii_of_string s).

(** The double quote, which the literals below splice in by code. *)
Definition dq : char := 34%N.
Definition ch (a : ascii) : char := N_of_ascii a.

Definition char_eqb (a b : char) : bool := N.eqb a b.

Fixpoint str_eqb (a b : str) : bool :=
  match a, b with
  | [], [] => true
  | x :: a', y :: b' => char_eqb x y && str_eqb a' b'
  | _, _ => false
  end.

(** [s.startswith(p)], returning what follows the prefix. *)
Fixpoint strip_prefix (p s : str) : option str :=
  match p with
  | [] => Some s
  | c :: p' =>
      match s with
      | [] => None
      | d :: s' => if char_eqb c d then strip_prefix p' s' else None
      end
  end.

Definition startswith (s p : str) : bool :=
  match strip_prefix p s with Some _ => true | None => false end.

(** [p in s] *)
Fixpoint contains (p s : str) : bool :=
  startswith s p ||
  match s with
  | [] => false
  | _ :: s' => contains p s'
  end.

(** ASCII case folding of one letter, as [re.IGNORECASE] compares the
    letters of [body] (none of them has a non-ASCII case variant). *)
Definition lower (c : char) : char :=
  if (N.leb 65 c && N.leb c 90)%N then (c + 32)%N else c.

(** The longest prefix of [s] inside a class, and what follows it. *)
Fixpoint take_while (p : char -> bool) (s : str) : str :=
  match s with
  | c :: s' => if p c then c :: take_while p s' else []
  | [] => []
  end.

Fixpoint drop_while (p : char -> bool) (s : str) : str :=
  match s with
  | c :: s' => if p c then drop_while p s' else s
  | [] => []
  end.

(** ** Regular expressions

    The fragment of [re] the program uses, with [re]'s backtracking order:
    alternatives left to right, greedy repetition longest first, lazy
    repetition shortest first.  Repetition is only ever applied to a
    character class in the program's patterns. *)

Inductive regex :=
| Eps
| Str (s : str)                    (* a literal *)
| StrI (s : str)                   (* a literal under IGNORECASE *)
| Cls (p : char -> bool)           (* one character of a class *)
| Star (p : char -> bool)          (* class*  *)
| Lazy (p : char -> bool)          (* class*? *)
| Opt (r : regex)                  (* (?:r)?  *)
| Alt (r1 r2 : regex)              (* r1|r2   *)
| Cat (r1 r2 : regex)
| Grp (n : nat) (r : regex)        (* capture group n *)
| Eos.                             (* $ *)

Definition Plus (p : char -> bool) : regex := Cat (Cls p) (Star p).

(** Character classes. *)
Definition dot : char -> bool := fun c => negb (char_eqb c 10%N).   (* . *)
Definition anychar : char -> bool := fun _ => true.       (* . under DOTALL *)
Definition isnot (a : ascii) : char -> bool :=            (* [^a] *)
  fun c => negb (char_eqb c (ch a)).

Definition captures := nat -> option str.
Definition no_captures : captures := fun _ => None.
Definition set_capture (n : nat) (s : str) (g : captures) : captures :=
  fun m => if Nat.eqb m n then Some s else g m.

Section Matcher.
Variable A : Type.

Fixpoint strip_prefix_ci (p s : str) : option str :=
  match p with
  | [] => Some s
  | c :: p' =>
      match s with
      | [] => None
      | d :: s' =>
          if char_eqb (lower c) (lower d) then strip_prefix_ci p' s' else None
      end
  end.

Fixpoint star_greedy (p : char -> bool) (s : str)
    (k : str -> option A) : option A :=
  match s with
  | c :: s' =>
      if p c then
        match star_greedy p s' k with
        | Some v => Some v
        | None => k s
        end
      else k s
  | [] => k []
  end.

Fixpoint star_lazy (p : char -> bool) (s : str)
    (k : str -> option A) : option A :=
  match k s with
  | Some v => Some v
  | None =>
      match s with
      | c :: s' => if p c then star_lazy p s' k else None
      | [] => None
      end
  end.

(** [rx r s g k]: match [r] at the head of [s] with captures [g], handing
    what is left to the continuation [k]; [None] makes the matcher
    backtrack. *)
Fixpoint rx (r : regex) (s : str) (g : captures)
    (k : str -> captures -> option A) : option A :=
  match r with
  | Eps => k s g
  | Str l =>
      match strip_prefix l s with Some s' => k s' g | None => None end
  | StrI l =>
      match strip_prefix_ci l s with Some s' => k s' g | None => None end
  | Cls p =>
      match s with
      | c :: s' => if p c then k s' g else None
      | [] => None
      end
  | Star p => star_greedy p s (fun s' => k s' g)
  | Lazy p => star_lazy p s (fun s' => k s' g)
  | Opt r1 =>
      match rx r1 s g k with
      | Some v => Some v
      | None => k s g
      end
  | Alt r1 r2 =>
      match rx r1 s g k with
      | Some v => Some v
      | None => rx r2 s g k
      end
  | Cat r1 r2 => rx r1 s g (fun s' g' => rx r2 s' g' k)
  | Grp n r1 =>
      rx r1 s g (fun s' g' =>
        k s' (set_capture n (firstn (length s - length s') s) g'))
  | Eos =>
      match s with
      | [] => k s g
      | [c] => if char_eqb c 10%N then k s g else None
      | _ => None
      end
  end.
End Matcher.
Arguments star_greedy {A} p s k.
Arguments star_lazy {A} p s k.
Arguments rx {A} r s g k.

(** What the matcher searches for, declaratively: [matches r s g s' g']
    when [r] can consume a prefix of [s], leaving [s'] and turning the
    captures [g] into [g']. *)
Fixpoint ci_eq (a b : str) : bool :=
  match a, b with
  | [], [] => true
  | x :: a', y :: b' => char_eqb (lower x) (lower y) && ci_eq a' b'
  | _, _ => false
  end.

Inductive matches : regex -> str -> captures -> str -> captures -> Prop :=
| m_eps s g : matches Eps s g s g
| m_str l s g : matches (Str l) (l ++ s) g s g
| m_stri l l' s g : ci_eq l l' = true -> matches (StrI l) (l' ++ s) g s g
| m_cls p c s g : p c = true -> matches (Cls p) (c :: s) g s g
| m_star p w s g : forallb p w = true -> matches (Star p) (w ++ s) g s g
| m_lazy p w s g : forallb p w = true -> matches (Lazy p) (w ++ s) g s g
| m_opt_some r s g s' g' : matches r s g s' g' -> matches (Opt r) s g s' g'
| m_opt_none r s g : matches (Opt r) s g s g
| m_alt_l r1 r2 s g s' g' :
    matches r1 s g s' g' -> matches (Alt r1 r2) s g s' g'
| m_alt_r r1 r2 s g s' g' :
    matches r2 s g s' g' -> matches (Alt r1 r2) s g s' g'
| m_cat r1 r2 s g s1 g1 s2 g2 :
    matches r1 s g s1 g1 -> matches r2 s1 g1 s2 g2 ->
    matches (Cat r1 r2) s g s2 g2
| m_grp n r s g s' g' :
    matches r s g s' g' ->
    matches (Grp n r) s g s'
      (set_capture n (firstn (length s - length s') s) g')
| m_eos_end g : matches Eos [] g [] g
| m_eos_newline g : matches Eos [10%N] g [10%N] g.

(** A match object: the captures and what follows the match. *)
Record rmatch := { groups : captures; m_rest : str }.

(** [re.match(r, s)] *)
Definition re_match (r : regex) (s : str) : option rmatch :=
  rx r s no_captures (fun s' g => Some {| groups := g; m_rest := s' |}).

(** [re.search(r, s)]: the match at the leftmost position that has one,
    with the text before it. *)
Fixpoint re_search (r : regex) (s : str) : option (str * rmatch) :=
  match re_match r s with
  | Some m => Some ([], m)
  | None =>
      match s with
      | [] => None
      | c :: s' =>
          match re_search r s' with
          | Some (pre, m) => Some (c :: pre, m)
          | None => None
          end
      end
  end.

Definition group (m : rmatch) (n : nat) : str :=
  match groups m n with Some s => s | None => [] end.

(** ** The hashlink grammar (lines 142 and 156) *)

Definition site : str := lit "https://itty.bitty.site/".
Definition marker : str := lit "data:text/html;charset=utf-8;base64,".

(** The reroute pattern of line 142, piece by piece. *)
Definition reroute_re : regex :=
  Cat (Str site)                                   (* https://itty\.bitty\.site/ *)
  (Cat (Star (isnot "#"))                          (* [^#]* *)
  (Cat (Str (lit "#"))                             (* # *)
  (Cat (Star (isnot "/"))                          (* (?:[^/]* ) *)
  (Cat (Opt (Str (lit "/")))                       (* /? *)
  (Cat (Opt (Alt (Str (lit "#")) (Str (lit "/")))) (* (?:#|/)? *)
  (Cat (Str marker)              (* data:text/html;charset=utf-8;base64, *)
       (Grp 1 (Plus dot)))))))).                   (* (.+) *)

(** The standard pattern of line 156. *)
Definition standard_re : regex :=
  Cat (Str (site ++ lit "#"))                      (* https://itty\.bitty\.site/# *)
  (Cat (Grp 1 (Lazy dot))                          (* (.*? ) *)
  (Cat (Str (lit "/?"))                            (* /\? *)
       (Grp 2 (Star dot)))).                       (* (.* ) *)

Definition reroute_match (hashlink : str) : option rmatch :=
  re_match reroute_re hashlink.
Definition standard_match (hashlink : str) : option rmatch :=
  re_match standard_re hashlink.

(** ** Exceptions and outcomes *)

(** The classes the handlers of [decode_hashlink] tell apart. *)
Inductive exn_class :=
| BinasciiError        (* base64.binascii.Error *)
| ValueError           (* a ValueError that is no binascii.Error *)
| LZMAError            (* lzma.LZMAError *)
| UnicodeDecodeError
| UnicodeEncodeError
| ExecjsError          (* execjs.Error and its subclasses *)
| ConnectionError      (* requests.exceptions.ConnectionError, which
                          ConnectTimeout inherits from *)
| ReadTimeout          (* requests.exceptions.ReadTimeout *)
| IndexError
| OtherException.      (* any other subclass of Exception *)

(** An exception: its class and [str(e)]. *)
Record exn := Exn { exn_class_of : exn_class; exn_str : str }.

Inductive outcome (A : Type) :=
| Val (a : A)
| Exc (e : exn).
Arguments Val {A} a.
Arguments Exc {A} e.

Definition class_eqb (a b : exn_class) : bool :=
  match a, b with
  | BinasciiError, BinasciiError | ValueError, ValueError
  | LZMAError, LZMAError | UnicodeDecodeError, UnicodeDecodeError
  | UnicodeEncodeError, UnicodeEncodeError | ExecjsError, ExecjsError
  | ConnectionError, ConnectionError | ReadTimeout, ReadTimeout
  | IndexError, IndexError | OtherException, OtherException => true
  | _, _ => false
  end.

(** [isinstance(e, cls)] for the classes named in an [except] clause. *)
Definition is_a (c : exn_class) (e : exn) : bool := class_eqb (exn_class_of e) c.

Definition str_of_nat (n : nat) : str :=
  lit (NilEmpty.string_of_uint (Nat.to_uint n)).

Definition str_of_Z (z : Z) : str :=
  lit (NilZero.string_of_int (Z.to_int z)).

(** ** base64 *)

Definition byte_of_N (n : N) : Byte.byte :=
  match Byte.of_N (n mod 256) with
  | Some b => b
  | None => Byte.x00
  end.

(** The alphabet: the character of a sextet. *)
Definition b64char (v : N) : char :=
  (if v <? 26 then v + 65
   else if v <? 52 then v - 26 + 97
   else if v <? 62 then v - 52 + 48
   else if v =? 62 then 43
   else 47)%N.

(** [table_a2b_base64]: the sextet of a character, if it is in the
    alphabet. *)
Definition b64val (c : char) : option N :=
  (if (65 <=? c) && (c <=? 90) then Some (c - 65)
   else if (97 <=? c) && (c <=? 122) then Some (c - 97 + 26)
   else if (48 <=? c) && (c <=? 57) then Some (c - 48 + 52)
   else if c =? 43 then Some 62
   else if c =? 47 then Some 63
   else None)%N.

Definition pad : char := 61%N.   (* '=' *)

(** [base64.b64encode(data).decode()] *)
Fixpoint b64encode (data : bytes) : str :=
  match data with
  | [] => []
  | [a] =>
      let a := Byte.to_N a in
      [b64char (N.shiftr a 2); b64char (N.shiftl (N.land a 3) 4); pad; pad]
  | [a; b] =>
      let a := Byte.to_N a in
      let b := Byte.to_N b in
      [b64char (N.shiftr a 2);
       b64char (N.lor (N.shiftl (N.land a 3) 4) (N.shiftr b 4));
       b64char (N.shiftl (N.land b 15) 2); pad]
  | a :: b :: c :: rest =>
      let a := Byte.to_N a in
      let b := Byte.to_N b in
      let c := Byte.to_N c in
      b64char (N.shiftr a 2)
      :: b64char (N.lor (N.shiftl (N.land a 3) 4) (N.shiftr b 4))
      :: b64char (N.lor (N.shiftl (N.land b 15) 2) (N.shiftr c 6))
      :: b64char (N.land c 63)
      :: b64encode rest
  end.

Definition incorrect_padding : exn :=
  Exn BinasciiError (lit "Incorrect padding").

(** [nout] is the number of octets written so far, which the message
    counts the data characters from. *)
Definition one_more_than_multiple (nout : nat) : exn :=
  Exn BinasciiError
    (lit "Invalid base64-encoded string: number of data characters ("
     ++ str_of_nat (nout / 3 * 4 + 1)
     ++ lit ") cannot be 1 more than a multiple of 4").

Definition emit (n : N) (r : outcome bytes) : outcome bytes :=
  match r with
  | Val bs => Val (byte_of_N n :: bs)
  | Exc e => Exc e
  end.

(** [binascii.a2b_base64] in its default, non-strict mode: characters
    outside the alphabet are skipped; a pad counts only once two characters
    of a quad are in, and the pad that completes the quad ends the input. *)
Fixpoint a2b_base64 (s : str) (quad_pos : nat) (leftchar : N) (pads : nat)
    (nout : nat) : outcome bytes :=
  match s with
  | [] =>
      match quad_pos with
      | 0 => Val []
      | 1 => Exc (one_more_than_multiple nout)
      | _ => Exc incorrect_padding
      end
  | this_ch :: s' =>
      if char_eqb this_ch pad then
        if (2 <=? quad_pos) && (4 <=? quad_pos + S pads) then Val []
        else a2b_base64 s' quad_pos leftchar
               (if 2 <=? quad_pos then S pads else pads) nout
      else
        match b64val this_ch with
        | None => a2b_base64 s' quad_pos leftchar pads nout
        | Some v =>
            match quad_pos with
            | 0 => a2b_base64 s' 1 v 0 nout
            | 1 => emit (N.lor (N.shiftl leftchar 2) (N.shiftr v 4))
                     (a2b_base64 s' 2 (N.land v 15) 0 (S nout))
            | 2 => emit (N.lor (N.shiftl leftchar 4) (N.shiftr v 2))
                     (a2b_base64 s' 3 (N.land v 3) 0 (S nout))
            | _ => emit (N.lor (N.shiftl leftchar 6) v)
                     (a2b_base64 s' 0 0 0 (S nout))
            end
        end
  end.

Definition is_ascii (c : char) : bool := (c <? 128)%N.

(** [base64.b64decode(s)] on a [str]: the text is first encoded as ASCII,
    which raises a plain [ValueError] on any other character. *)
Definition b64decode (s : str) : outcome bytes :=
  if forallb is_ascii s then a2b_base64 s 0 0 0 0
  else Exc (Exn ValueError
              (lit "string argument should contain only ASCII characters")).

Definition bytes_of (s : string) : bytes := list_byte_of_string s.

(** ** str methods *)

(** [s.replace(old, new)] for a non-empty [old]: every occurrence, left to
    right, none overlapping.  The fuel is the length of [s] plus one. *)
Fixpoint replace_from (fuel : nat) (old new s : str) : str :=
  match fuel with
  | 0 => s
  | S fuel' =>
      match s with
      | [] => []
      | c :: s' =>
          match strip_prefix old s with
          | Some rest => new ++ replace_from fuel' old new rest
          | None => c :: replace_from fuel' old new s'
          end
      end
  end.

Definition replace (old new s : str) : str :=
  replace_from (S (length s)) old new s.

(** [s.split(sep)] for a non-empty [sep]; [cur] is the piece being read,
    reversed. *)
Fixpoint split_from (fuel : nat) (sep s cur : str) : list str :=
  match fuel with
  | 0 => [rev cur ++ s]
  | S fuel' =>
      match s with
      | [] => [rev cur]
      | c :: s' =>
          match strip_prefix sep s with
          | Some rest => rev cur :: split_from fuel' sep rest []
          | None => split_from fuel' sep s' (c :: cur)
          end
      end
  end.

Definition split (sep s : str) : list str :=
  split_from (S (length s)) sep s [].

(** [s.rstrip(c)] for a single character [c]. *)
Fixpoint rstrip_char (a : char) (s : str) : str :=
  match s with
  | [] => []
  | c :: s' =>
      match rstrip_char a s' with
      | [] => if char_eqb c a then [] else [c]
      | r => c :: r
      end
  end.

(** [Py_UNICODE_ISSPACE] *)
Definition isspace (c : char) : bool :=
  ((9 <=? c) && (c <=? 13) || (28 <=? c) && (c <=? 32)
   || (c =? 133) || (c =? 160) || (c =? 5760)
   || (8192 <=? c) && (c <=? 8202)
   || (c =? 8232) || (c =? 8233) || (c =? 8239) || (c =? 8287)
   || (c =? 12288))%N.

Fixpoint lstrip (s : str) : str :=
  match s with
  | c :: s' => if isspace c then lstrip s' else s
  | [] => []
  end.

(** [s.strip()] *)
Definition strip (s : str) : str := rev (lstrip (rev (lstrip s))).

(** [re.sub(r, '', s)] for a pattern that never matches the empty
    string. *)
Fixpoint re_delete_from (fuel : nat) (r : regex) (s : str) : str :=
  match fuel with
  | 0 => s
  | S fuel' =>
      match s with
      | [] => []
      | c :: s' =>
          match re_match r s with
          | Some m => re_delete_from fuel' r (m_rest m)
          | None => c :: re_delete_from fuel' r s'
          end
      end
  end.

Definition re_delete (r : regex) (s : str) : str :=
  re_delete_from (S (length s)) r s.

(** ** UTF-8 *)

Definition is_cont (x : N) : bool := ((128 <=? x) && (x <=? 191))%N.

(** The well-formed byte sequences of UTF-8 (no overlong forms, no
    surrogates, nothing above U+10FFFF), as [bytes.decode('utf-8')]
    accepts them; [None] stands for its UnicodeDecodeError. *)
Fixpoint utf8_decode (data : bytes) : option str :=
  match data with
  | [] => Some []
  | b0 :: r0 =>
      let x0 := Byte.to_N b0 in
      if (x0 <? 128)%N then option_map (cons x0) (utf8_decode r0)
      else if (x0 <? 194)%N then None
      else if (x0 <? 224)%N then
        match r0 with
        | b1 :: r1 =>
            let x1 := Byte.to_N b1 in
            if is_cont x1
            then option_map (cons ((x0 - 192) * 64 + (x1 - 128))%N)
                   (utf8_decode r1)
            else None
        | _ => None
        end
      else if (x0 <? 240)%N then
        match r0 with
        | b1 :: b2 :: r2 =>
            let x1 := Byte.to_N b1 in
            let x2 := Byte.to_N b2 in
            if is_cont x1 && is_cont x2
               && (negb (x0 =? 224) || (160 <=? x1))%N
               && (negb (x0 =? 237) || (x1 <=? 159))%N
            then option_map
                   (cons ((x0 - 224) * 4096 + (x1 - 128) * 64 + (x2 - 128))%N)
                   (utf8_decode r2)
            else None
        | _ => None
        end
      else if (x0 <? 245)%N then
        match r0 with
        | b1 :: b2 :: b3 :: r3 =>
            let x1 := Byte.to_N b1 in
            let x2 := Byte.to_N b2 in
            let x3 := Byte.to_N b3 in
            if is_cont x1 && is_cont x2 && is_cont x3
               && (negb (x0 =? 240) || (144 <=? x1))%N
               && (negb (x0 =? 244) || (x1 <=? 143))%N
            then option_map
                   (cons ((x0 - 240) * 262144 + (x1 - 128) * 4096
                          + (x2 - 128) * 64 + (x3 - 128))%N)
                   (utf8_decode r3)
            else None
        | _ => None
        end
      else None
  end.

(** The UTF-8 form of one code point; a surrogate has none. *)
Definition utf8_encode_char (c : char) : option (list N) :=
  (if c <? 128 then Some [c]
   else if c <? 2048 then Some [192 + c / 64; 128 + c mod 64]
   else if c <? 65536 then
     if (55296 <=? c) && (c <=? 57343) then None
     else Some [224 + c / 4096; 128 + (c / 64) mod 64; 128 + c mod 64]
   else if c <? 1114112 then
     Some [240 + c / 262144; 128 + (c / 4096) mod 64;
           128 + (c / 64) mod 64; 128 + c mod 64]
   else None)%N.

(** [s.encode()]; [None] stands for its UnicodeEncodeError. *)
Fixpoint utf8_encode (s : str) : option bytes :=
  match s with
  | [] => Some []
  | c :: s' =>
      match utf8_encode_char c, utf8_encode s' with
      | Some bs, Some rest => Some (map byte_of_N bs ++ rest)
      | _, _ => None
      end
  end.

(** ** The effects of the cascade *)

(** One constructor per [logging] call of [decode_hashlink], in source
    order; every record but [Starting] leaves the abbreviated hashlink
    out. *)
Inductive log_record :=
| Starting (short_hashlink : str)            (* line 140, info *)
| RerouteCheck                               (* 145, info *)
| RerouteSuccess                             (* 149, info *)
| RerouteInvalid (e : exn)                   (* 152, error *)
| StandardCheck                              (* 159, info *)
| PaddingAttempt (padding : nat)             (* 165, info *)
| PaddingSuccess                             (* 171, info *)
| LzmaFailed (skip : nat) (e : exn)          (* 174, error *)
| PaddingFailed (padding : nat) (e : exn)    (* 177, error *)
| JsAttempt                                  (* 181, info *)
| JsSuccess                                  (* 195 and 198, info *)
| JsFailed (e : exn)                         (* 201, error *)
| FetchAttempt                               (* 205, info *)
| FetchReceived (status : Z)                 (* 211, info *)
| ToastAccepted                              (* 216, info *)
| RedirectDetected (retry_short : str)       (* 222, info *)
| ToastAcceptedRetry                         (* 229, info *)
| FetchSuccessRetry                          (* 232, info *)
| NoBodyRetry (head : str)                   (* 235, error *)
| RetryStatus (status : Z)                   (* 237, error *)
| FetchSuccess                               (* 241, info *)
| NoBodyInitial (head : str)                 (* 244, error *)
| InitialStatus (status : Z)                 (* 247, error *)
| NoNetwork                                  (* 250, error *)
| FetchFailed (e : exn)                      (* 253, error *)
| Unexpected (e : exn).                      (* 258, error *)

(** The calls into the libraries that do the decoding work. *)
Inductive call :=
| B64Decode (s : str)                        (* base64.b64decode(s) *)
| LzmaDecompress (data : bytes)              (* lzma.decompress(data, ...) *)
| JsCompile                                  (* execjs.compile(...) *)
| JsEval (data : bytes)                      (* ctx.eval(...) *)
| HttpGet (url : str) (timeout : N).         (* requests.get(url, timeout) *)

Inductive event :=
| Log (r : log_record)
| Call (c : call).

Definition trace := list event.

(** What a stretch of the function leaves behind: a value or a raised
    exception, the local variable [version], and the events in order. *)
Record run (A : Type) := Run { res : outcome A; ver : str; evs : trace }.
Arguments Run {A} res ver evs.
Arguments res {A} r.
Arguments ver {A} r.
Arguments evs {A} r.

Definition M (A : Type) := str -> run A.

Definition ret {A} (a : A) : M A := fun v => Run (Val a) v [].

Definition bind {A B} (m : M A) (f : A -> M B) : M B :=
  fun v =>
    match m v with
    | Run (Val a) v' t =>
        match f a v' with
        | Run o v'' t' => Run o v'' (t ++ t')
        end
    | Run (Exc e) v' t => Run (Exc e) v' t
    end.

Notation "x <- m ;; k" := (bind m (fun x => k))
  (at level 61, m at next level, right associativity).
Notation "m ;; k" := (bind m (fun _ => k))
  (at level 61, right associativity).

Definition lift {A} (o : outcome A) : M A := fun v => Run o v [].
Definition raise {A} (e : exn) : M A := lift (Exc e).
Definition tell (ev : event) : M unit := fun v => Run (Val tt) v [ev].
Definition log (r : log_record) : M unit := tell (Log r).
Definition get_version : M str := fun v => Run (Val v) v [].
Definition set_version (v' : str) : M unit := fun _ => Run (Val tt) v' [].

(** [try: m  except ...: handler]: [handler e] is [None] when no clause
    of the statement names the class of [e]. *)
Definition try_except {A} (m : M A) (handler : exn -> option (M A)) : M A :=
  fun v =>
    match m v with
    | Run (Val a) v' t => Run (Val a) v' t
    | Run (Exc e) v' t =>
        match handler e with
        | Some h =>
            match h v' with
            | Run o v'' t' => Run o v'' (t ++ t')
            end
        | None => Run (Exc e) v' t
        end
    end.

(** A [for] loop whose body may [return]: [Some x] is a [return x], [None]
    the end of the body or a [continue]. *)
Fixpoint for_each {X R} (xs : list X) (body : X -> M (option R))
    : M (option R) :=
  match xs with
  | [] => ret None
  | x :: xs' =>
      r <- body x ;;
      match r with
      | Some y => ret (Some y)
      | None => for_each xs' body
      end
  end.

(** A loop body that, at [x], ends without returning and leaves [version]
    as it was. *)
Definition quiet {X R} (body : X -> M (option R)) (v : str) (x : X) : Prop :=
  res (body x v) = Val None /\ ver (body x v) = v.

(** Statements that may [return], in sequence: [k] runs when [m] ended
    without a [return]. *)
Definition or_else {R} (m k : M (option R)) : M (option R) :=
  r <- m ;;
  match r with
  | Some y => ret (Some y)
  | None => k
  end.

(** The strategy an event belongs to, where the event alone tells: 1 the
    reroute decode, 2 the standard decode, 3 the JS worker, 4 the fetch
    from the official site.  [base64.b64decode] is called by the first
    three. *)
Definition strategy_of (ev : event) : option nat :=
  match ev with
  | Log (Starting _) | Log (Unexpected _) | Call (B64Decode _) => None
  | Log RerouteCheck | Log RerouteSuccess | Log (RerouteInvalid _) => Some 1
  | Log StandardCheck | Log (PaddingAttempt _) | Log PaddingSuccess
  | Log (LzmaFailed _ _) | Log (PaddingFailed _ _)
  | Call (LzmaDecompress _) => Some 2
  | Log JsAttempt | Log JsSuccess | Log (JsFailed _)
  | Call JsCompile | Call (JsEval _) => Some 3
  | Log FetchAttempt | Log (FetchReceived _) | Log ToastAccepted
  | Log (RedirectDetected _) | Log ToastAcceptedRetry | Log FetchSuccessRetry
  | Log (NoBodyRetry _) | Log (RetryStatus _) | Log FetchSuccess
  | Log (NoBodyInitial _) | Log (InitialStatus _) | Log NoNetwork
  | Log (FetchFailed _) | Call (HttpGet _ _) => Some 4
  end.

(** An event that strategy [k] may leave. *)
Definition in_strategy (k : nat) (ev : event) : Prop :=
  strategy_of ev = None \/ strategy_of ev = Some k.

(** The records that announce a decoded document. *)
Definition is_success (ev : event) : bool :=
  match ev with
  | Log RerouteSuccess | Log PaddingSuccess | Log JsSuccess
  | Log FetchSuccessRetry | Log FetchSuccess => true
  | _ => false
  end.

Definition is_call (ev : event) : bool :=
  match ev with Call _ => true | Log _ => false end.

(** Events put in front of a run. *)
Definition after {A} (t : trace) (r : run A) : run A :=
  Run (res r) (ver r) (t ++ evs r).

(** ** What the cascade calls *)

Record response := { status_code : Z; text : str }.

(** What [ctx.eval] hands back. *)
Inductive js_value :=
| JsStr (s : str)
| JsBytes (b : bytes)
| JsOther.                     (* None, a number, a list, ... *)

(** The capabilities the program only calls.  [requests_get n url timeout]
    is the [n]-th GET of one run of [decode_hashlink], counted from 0. *)
Record capabilities := {
  lzma_decompress : bytes -> outcome bytes;
      (* lzma.decompress(data, format=lzma.FORMAT_ALONE) *)
  lzma_compress : bytes -> bytes;
      (* lzma.compress(data, format=lzma.FORMAT_ALONE, preset=9) *)
  execjs_compile : outcome unit;
      (* execjs.compile(JS_LZMA_WORKER) *)
  js_decompress : bytes -> outcome js_value;
      (* ctx.eval("LZMA.decompress(new Uint8Array([...]))") *)
  requests_get : nat -> str -> N -> outcome response;
  decode_error_text : bytes -> str;
      (* str(e) of the UnicodeDecodeError of data.decode('utf-8') *)
  encode_error_text : str -> str
      (* str(e) of the UnicodeEncodeError of s.encode() *)
}.

(** The value returned: the pair [(text, version)], tagged with the kind
    of [return] statement that built it. *)
Inductive result :=
| Decoded (document : str) (version : str)
| Failed (message : str) (version : str).

Definition as_tuple (r : result) : str * str :=
  match r with
  | Decoded d v => (d, v)
  | Failed m v => (m, v)
  end.

Definition failed_to_decode : str := lit "Failed to decode hashlink: ".

Definition v_unknown : str := lit "Unknown".
Definition v_reroute : str := lit "PvtPpr v0 (reroute)".
Definition v_standard : str := lit "IBS v1 / PvtPpr v1".
Definition v_js : str := lit "PvtPpr v0 (JS worker)".
Definition v_fetch : str := lit "Fail-safe (official site)".
Definition via_v1_retry : str := lit " (via v1 retry)".

(** [f"{hashlink[:6]}...{hashlink[-6:]}"] *)
Definition short (hashlink : str) : str :=
  firstn 6 hashlink ++ lit "..." ++ skipn (length hashlink - 6) hashlink.

Definition toast_marker : str :=
  lit "<div id=" ++ [dq] ++ lit "toast" ++ [dq] ++ lit ">".
Definition dismiss_button : str :=
  lit "<button onclick=" ++ [dq] ++ lit "dismiss()" ++ [dq]
  ++ lit ">I understand</button>".
Definition dismiss_script : str := lit "<script>dismiss();</script>".

(** The toast pattern of lines 215 and 228, under DOTALL. *)
Definition toast_re : regex :=
  Cat (Str (lit "<div id=" ++ [dq] ++ lit "toast" ++ [dq]))
  (Cat (Lazy anychar)                                        (* .*? *)
       (Str (lit "</div>"))).

(** The redirect pattern of line 218: a literal once unescaped. *)
Definition redirect_re : regex :=
  Str (lit "<script nomodule> location.href = " ++ [dq] ++ lit "/v1/"
       ++ [dq] ++ lit " + location.hash </script>").

(** The body pattern of lines 230 and 239, under IGNORECASE and DOTALL. *)
Definition body_re : regex :=
  Cat (StrI (lit "<body"))
  (Cat (Star (isnot ">"))                                    (* [^>]* *)
  (Cat (Str (lit ">"))
  (Cat (Grp 1 (Lazy anychar))                                (* (.*? ) *)
       (StrI (lit "</body>"))))).

(** Lines 213-216 and 226-229 without the log line: the consent overlay
    rewritten away. *)
Definition accept_toast (html : str) : str :=
  if contains toast_marker html
  then re_delete toast_re (replace dismiss_button dismiss_script html)
  else html.

(** [body_match.group(1).strip()] of lines 230-233 and 239-242. *)
Definition body_content (html : str) : option str :=
  match re_search body_re html with
  | Some (_, m) => Some (strip (group m 1))
  | None => None
  end.

(** ** decode_hashlink (lines 136-259) *)

Section Cascade.
Variable io : capabilities.

Definition b64decode_call (s : str) : M bytes :=
  tell (Call (B64Decode s)) ;; lift (b64decode s).

Definition lzma_decompress_call (data : bytes) : M bytes :=
  tell (Call (LzmaDecompress data)) ;; lift (lzma_decompress io data).

Definition requests_get_call (n : nat) (url : str) (timeout : N)
    : M response :=
  tell (Call (HttpGet url timeout)) ;; lift (requests_get io n url timeout).

(** [data.decode('utf-8')] *)
Definition decode_utf8 (data : bytes) : M str :=
  match utf8_decode data with
  | Some s => ret s
  | None => raise (Exn UnicodeDecodeError (decode_error_text io data))
  end.

Definition returning (mk : str -> result) : M (option result) :=
  version <- get_version ;; ret (Some (mk version)).

(** Lines 142-153. *)
Definition reroute_strategy (hashlink : str) : M (option result) :=
  match reroute_match hashlink with
  | Some m =>
      set_version v_reroute ;;
      log RerouteCheck ;;
      let b64_data := group m 1 in
      try_except
        (data <- b64decode_call b64_data ;;
         decoded_html <- decode_utf8 data ;;
         log RerouteSuccess ;;
         returning (Decoded decoded_html))
        (fun e => Some
           (log (RerouteInvalid e) ;;
            returning
              (Failed (failed_to_decode
                       ++ lit "Invalid base64 data in reroute"))))
  | None => ret None
  end.

Definition header_lengths : list nat := [0; 5; 9; 13].

(** Lines 169-175: one skip offset tried on one decoded candidate. *)
Definition skip_attempt (compressed : bytes) (skip : nat)
    : M (option result) :=
try_except
  (decompressed <- lzma_decompress_call (skipn skip compressed) ;;
   log PaddingSuccess ;;
   document <- decode_utf8 decompressed ;;
   returning (Decoded document))
  (fun e =>
     if is_a LZMAError e
     then Some (log (LzmaFailed skip e) ;; ret None)
     else None).

(** Lines 167-175: a decoded candidate against every skip offset. *)
Definition skip_loop (compressed : bytes) : M (option result) :=
for_each header_lengths (skip_attempt compressed).

(** Lines 163-178: one padding count tried. *)
Definition padding_attempt (b64_part : str) (padding : nat)
    : M (option result) :=
try_except
  (let padded_b64 := b64_part ++ repeat pad padding in
   log (PaddingAttempt padding) ;;
   compressed <- b64decode_call padded_b64 ;;
   skip_loop compressed)
  (fun e =>
     if is_a BinasciiError e
     then Some (log (PaddingFailed padding e) ;; ret None)
     else None).

(** Lines 162-178. *)
Definition padding_loop (b64_part : str) : M (option result) :=
for_each (seq 0 4) (padding_attempt b64_part).

(** Lines 156-178. *)
Definition standard_strategy (hashlink : str) : M (option result) :=
  match standard_match hashlink with
  | Some m =>
      set_version v_standard ;;
      log StandardCheck ;;
      padding_loop (group m 2)
  | None => ret None
  end.

(** Lines 185-190: the payload the JS worker is given. *)
Definition js_payload (hashlink : str) : str :=
  match standard_match hashlink with
  | Some m => group m 2
  | None => last (split (lit "/?") hashlink) []
  end.

(** [b64_part + '=' * ((4 - len(b64_part) % 4) % 4)] *)
Definition pad_to_quad (b64_part : str) : str :=
  b64_part ++ repeat pad ((4 - length b64_part mod 4) mod 4).

(** Lines 181-202. *)
Definition js_strategy (hashlink : str) : M (option result) :=
  log JsAttempt ;;
  try_except
    (set_version v_js ;;
     tell (Call JsCompile) ;;
     lift (execjs_compile io) ;;
     let b64_part := js_payload hashlink in
     let padded_b64 := pad_to_quad b64_part in
     compressed <- b64decode_call padded_b64 ;;
     tell (Call (JsEval compressed)) ;;
     decompressed <- lift (js_decompress io compressed) ;;
     match decompressed with
     | JsStr s => log JsSuccess ;; returning (Decoded s)
     | JsBytes b =>
         log JsSuccess ;;
         document <- decode_utf8 b ;;
         returning (Decoded document)
     | JsOther => ret None
     end)
    (fun js_err =>
       if is_a ExecjsError js_err || is_a BinasciiError js_err
       then Some (log (JsFailed js_err) ;; ret None)
       else None).

(** [hashlink.split('#')[1]] *)
Definition hash_part (hashlink : str) : M str :=
  match nth_error (split (lit "#") hashlink) 1 with
  | Some s => ret s
  | None => raise (Exn IndexError (lit "list index out of range"))
  end.

(** Lines 219-237: the v1 retry. *)
Definition v1_retry (hashlink : str) : M (option result) :=
  part <- hash_part hashlink ;;
  let retry_hashlink := lit "https://itty.bitty.site/v1/#" ++ part in
  log (RedirectDetected (short retry_hashlink)) ;;
  retry_response <- requests_get_call 1 retry_hashlink 10 ;;
  if Z.eqb (status_code retry_response) 200 then
    let retry_html := text retry_response in
    (if contains toast_marker retry_html then log ToastAcceptedRetry
     else ret tt) ;;
    let retry_html := accept_toast retry_html in
    match body_content retry_html with
    | Some content =>
        log FetchSuccessRetry ;;
        returning (fun version => Decoded content (version ++ via_v1_retry))
    | None => log (NoBodyRetry (firstn 500 retry_html)) ;; ret None
    end
  else log (RetryStatus (status_code retry_response)) ;; ret None.

(** Lines 205-254. *)
Definition fetch_strategy (hashlink : str) : M (option result) :=
  log FetchAttempt ;;
  try_except
    (set_version v_fetch ;;
     response <- requests_get_call 0 hashlink 10 ;;
     if Z.eqb (status_code response) 200 then
       let html_content := text response in
       log (FetchReceived (status_code response)) ;;
       (if contains toast_marker html_content then log ToastAccepted
        else ret tt) ;;
       let html_content := accept_toast html_content in
       or_else
         (match re_search redirect_re html_content with
          | Some _ => v1_retry hashlink
          | None => ret None
          end)
         (match body_content html_content with
          | Some content =>
              log FetchSuccess ;; returning (Decoded content)
          | None =>
              log (NoBodyInitial (firstn 500 html_content)) ;;
              returning
                (Failed (failed_to_decode
                   ++ lit "Unable to extract content from official site response"))
          end)
     else
       log (InitialStatus (status_code response)) ;;
       returning
         (Failed (failed_to_decode ++ lit "Official site returned status "
                  ++ str_of_Z (status_code response))))
    (fun e =>
       if is_a ConnectionError e
       then Some
         (log NoNetwork ;;
          returning
            (Failed (failed_to_decode
               ++ lit "No network connection available for official site fetch")))
       else Some
         (log (FetchFailed e) ;;
          returning
            (Failed (failed_to_decode ++ lit "Official site fetch failed - "
                     ++ exn_str e)))).

(** The body of the outer [try] (lines 140-256). *)
Definition cascade (hashlink : str) : M (option result) :=
  log (Starting (short hashlink)) ;;
  or_else (reroute_strategy hashlink)
    (or_else (standard_strategy hashlink)
       (or_else (js_strategy hashlink)
          (or_else (fetch_strategy hashlink)
             (returning
                (Failed (failed_to_decode ++ lit "Unknown format")))))).

(** The function: [version] starts as "Unknown", and the outer handler
    (lines 257-259) turns whatever escapes the body into a returned
    pair.  [Val None] would be the function running off its end. *)
Definition decode_hashlink (hashlink : str) : run (option result) :=
  try_except (cascade hashlink)
    (fun e => Some
       (log (Unexpected e) ;;
        returning (Failed (failed_to_decode ++ exn_str e))))
    v_unknown.

End Cascade.

(** The strategies of the events of a trace, in order. *)
Definition stages (t : trace) : list nat :=
  flat_map (fun ev => match strategy_of ev with
                      | Some k => [k]
                      | None => []
                      end) t.

Definition no_success (t : trace) : bool :=
  forallb (fun ev => negb (is_success ev)) t.

(** The last event of the trace announces a document, and none before it
    does. *)
Definition success_last (t : trace) : bool :=
  match rev t with
  | ev :: earlier => is_success ev && no_success earlier
  | [] => false
  end.

Definition calls (t : trace) : nat := length (filter is_call t).

(** What every strategy keeps to: its events are its own, it makes at most
    [bound] calls, a document comes right after the one record that
    announces it, and nothing announces a document when the strategy gives
    up; an exception of class [binascii.Error] is raised before any such
    record. *)
Definition tidy (k bound : nat) (r : run (option result)) : Prop :=
  Forall (in_strategy k) (evs r)
  /\ calls (evs r) <= bound
  /\ match res r with
     | Val (Some (Decoded _ _)) => success_last (evs r) = true
     | Val (Some (Failed _ _)) => True
     | Val None => no_success (evs r) = true
     | Exc e => is_a BinasciiError e = true -> no_success (evs r) = true
     end.

(** The same for a run of several strategies from strategy [lo] on: the
    strategies of its events never go back. *)
Definition orderly (lo bound : nat) (r : run (option result)) : Prop :=
  StronglySorted le (stages (evs r))
  /\ Forall (fun k => lo <= k) (stages (evs r))
  /\ calls (evs r) <= bound
  /\ match res r with
     | Val (Some (Decoded _ _)) => success_last (evs r) = true
     | Val (Some (Failed _ _)) => True
     | Val None => no_success (evs r) = true
     | Exc _ => True
     end.

(** The sixteen combinations of a padding count (line 162) with a skip
    offset (line 167), padding outermost. *)
Definition combinations : list (nat * nat) :=
  list_prod (seq 0 4) header_lengths.

(** One combination tried on its own: transport-decode the payload with
    [fst c] pads appended, then compression-decode what follows the first
    [snd c] bytes. *)
Definition try_combination (io : capabilities) (b64_part : str)
    (c : nat * nat) : outcome bytes :=
  match b64decode (b64_part ++ repeat pad (fst c)) with
  | Val compressed => lzma_decompress io (skipn (snd c) compressed)
  | Exc e => Exc e
  end.

(** A combination fails the way the loops expect when base64 raises
    [binascii.Error] or, base64 done, LZMA raises [LZMAError]. *)
Definition combination_fails (io : capabilities) (b64_part : str)
    (c : nat * nat) : Prop :=
  match b64decode (b64_part ++ repeat pad (fst c)) with
  | Val compressed =>
      exists e, lzma_decompress io (skipn (snd c) compressed) = Exc e
                /\ is_a LZMAError e = true
  | Exc e => is_a BinasciiError e = true
  end.

(** The inputs of the LZMA calls of a trace, and of the base64 calls. *)
Definition lzma_calls (t : trace) : list bytes :=
  flat_map (fun ev => match ev with
                      | Call (LzmaDecompress data) => [data]
                      | _ => []
                      end) t.

Definition b64_calls (t : trace) : list str :=
  flat_map (fun ev => match ev with
                      | Call (B64Decode s) => [s]
                      | _ => []
                      end) t.

(** The number of pads that brings a text to a multiple of four
    characters. *)
Definition pads_needed (t : str) : nat := (4 - length t mod 4) mod 4.

(** The LZMA inputs that trying the combinations [cs] in turn asks for:
    one per combination whose base64 step works. *)
Definition lzma_inputs (io : capabilities) (b64_part : str)
    (cs : list (nat * nat)) : list bytes :=
  flat_map (fun c =>
              match b64decode (b64_part ++ repeat pad (fst c)) with
              | Val compressed => [skipn (snd c) compressed]
              | Exc _ => []
              end) cs.

(** The texts of the fetch's failures (lines 245-254). *)
Definition no_body_message : str :=
  failed_to_decode
  ++ lit "Unable to extract content from official site response".
Definition bad_status_message (status : Z) : str :=
  failed_to_decode ++ lit "Official site returned status " ++ str_of_Z status.
Definition no_network_message : str :=
  failed_to_decode
  ++ lit "No network connection available for official site fetch".
Definition fetch_failed_message (e : exn) : str :=
  failed_to_decode ++ lit "Official site fetch failed - " ++ exn_str e.

Definition is_get (ev : event) : bool :=
  match ev with Call (HttpGet _ _) => true | _ => false end.

(** ** Sample capabilities *)

(** A machine with no JavaScript runtime and no network, and an LZMA
    decoder that finds every input truncated. *)
Definition offline : capabilities := {|
  lzma_decompress := fun _ =>
    Exc (Exn LZMAError
           (lit "Compressed data ended before the end-of-stream marker was reached"));
  lzma_compress := fun data => data;
  execjs_compile :=
    Exc (Exn ExecjsError (lit "Could not find an available JavaScript runtime."));
  js_decompress := fun _ => Val JsOther;
  requests_get := fun _ _ _ =>
    Exc (Exn ConnectionError (lit "Failed to establish a new connection"));
  decode_error_text := fun _ => lit "'utf-8' codec can't decode bytes";
  encode_error_text := fun _ => lit "'utf-8' codec can't encode characters"
|}.

Definition redirect_marker : str :=
  lit "<script nomodule> location.href = " ++ [dq] ++ lit "/v1/" ++ [dq]
  ++ lit " + location.hash </script>".

(** A machine with no JavaScript runtime in front of an official site
    whose first page asks for the v1 redirect and whose second page is
    [retry_text]. *)
Definition redirecting (retry_status : Z) (retry_text : str) : capabilities := {|
  lzma_decompress := lzma_decompress offline;
  lzma_compress := lzma_compress offline;
  execjs_compile := execjs_compile offline;
  js_decompress := js_decompress offline;
  requests_get := fun n _ _ =>
    match n with
    | 0 => Val {| status_code := 200;
                  text := lit "<body>old page</body>" ++ redirect_marker |}
    | _ => Val {| status_code := retry_status; text := retry_text |}
    end;
  decode_error_text := decode_error_text offline;
  encode_error_text := encode_error_text offline
|}.

Fixpoint bytes_eqb (a b : bytes) : bool :=
  match a, b with
  | [], [] => true
  | x :: a', y :: b' => Byte.eqb x y && bytes_eqb a' b'
  | _, _ => false
  end.

(** [lzma.compress(b'\xff', format=lzma.FORMAT_ALONE, preset=9)] and the
    same for [b'hi']. *)
Definition lzma_of_xff : bytes :=
  map byte_of_N
    [93; 0; 0; 0; 4; 255; 255; 255; 255; 255; 255; 255; 255; 0; 127; 193;
     251; 255; 255; 255; 224; 0; 0; 0]%N.
Definition lzma_of_hi : bytes :=
  map byte_of_N
    [93; 0; 0; 0; 4; 255; 255; 255; 255; 255; 255; 255; 255; 0; 52; 26; 92;
     255; 255; 255; 255; 240; 0; 0; 0]%N.

(** The offline machine with an LZMA library that knows those two streams
    and refuses every other input. *)
Definition tabulated : capabilities := {|
  lzma_decompress := fun data =>
    if bytes_eqb data lzma_of_xff then Val [Byte.xff]
    else if bytes_eqb data lzma_of_hi then Val (bytes_of "hi")
    else Exc (Exn LZMAError (lit "Input format not supported by decoder"));
  lzma_compress := lzma_compress offline;
  execjs_compile := execjs_compile offline;
  js_decompress := js_decompress offline;
  requests_get := requests_get offline;
  decode_error_text := fun _ =>
    lit "'utf-8' codec can't decode byte 0xff in position 0: invalid start byte";
  encode_error_text := encode_error_text offline
|}.

(** A hashlink of the standard shape carrying the stream of [b'hi'], its
    two trailing pads stripped. *)
Definition hi_link : str :=
  lit "https://itty.bitty.site/#t/?XQAAAAT//////////wA0Glz/////8AAAAA".

(** * The composer (lines 28-125) *)

Definition nl : str := [10%N].

(** ** The input classes *)

(** An input object; the methods below hand back the object as they
    leave it, since [sanitize] assigns to [self.value]. *)
Record PvtPprInput := {
  value : str;
  placeholder : str;
  allow_html : bool;
  allow_links : bool
}.

Definition set_value (self : PvtPprInput) (v : str) : PvtPprInput :=
  {| value := v;
     placeholder := placeholder self;
     allow_html := allow_html self;
     allow_links := allow_links self |}.

(** The constructors of the three subclasses. *)
Definition TitleTextInput : PvtPprInput :=
  {| value := []; placeholder := lit "Title Goes Here";
     allow_html := true; allow_links := false |}.
Definition BodyTextField : PvtPprInput :=
  {| value := []; placeholder := lit "Write Here. HTML & JS is allowed.";
     allow_html := true; allow_links := false |}.
Definition LinkInput : PvtPprInput :=
  {| value := []; placeholder := lit "Image Link Here";
     allow_html := false; allow_links := true |}.

(** A Python string is true when it is not empty. *)
Definition truthy (s : str) : bool :=
  match s with [] => false | _ :: _ => true end.

(** The tag pattern of lines 38 and 66: "<", one or more of [^>], ">". *)
Definition tag_re : regex :=
  Cat (Str (lit "<")) (Cat (Plus (isnot ">")) (Str (lit ">"))).

Definition link_prefixes : list str :=
  [lit "http"; lit "ipfs"; lit "magnet"; lit "base64"].

(** Lines 36-41. *)
Definition sanitize (self : PvtPprInput) : PvtPprInput :=
  let self :=
    if negb (allow_html self) && contains (lit "<") (value self)
    then set_value self (re_delete tag_re (value self))
    else self in
  if negb (allow_links self) && existsb (startswith (value self)) link_prefixes
  then set_value self []
  else self.

Fixpoint times (n : nat) (r : regex) : regex :=
  match n with
  | 0 => Eps
  | S n' => Cat r (times n' r)
  end.

(** [A-Za-z0-9+/=] *)
Definition b64_class (c : char) : bool :=
  match b64val c with Some _ => true | None => char_eqb c pad end.

(** The link pattern of line 46, alternative by alternative. *)
Definition link_pattern : regex :=
  Cat (Grp 1
    (Alt (Cat (Str (lit "http"))                   (* https?://.* *)
         (Cat (Opt (Str (lit "s")))
         (Cat (Str (lit "://")) (Star dot))))
    (Alt (Cat (Str (lit "ipfs://")) (Star dot))    (* ipfs://.* *)
    (Alt (Cat (Str (lit "ipns://")) (Star dot))    (* ipns://.* *)
    (Alt (Cat (Str (lit "magnet:")) (Star dot))    (* magnet:.* *)
         (Cat (times 44 (Cls b64_class))           (* [A-Za-z0-9+/=]{44,} *)
              (Star b64_class)))))))
    Eos.

Definition invalid_link : exn := Exn ValueError (lit "Invalid link format.").

(** Lines 43-49; the [True] it returns is left out. *)
Definition validate (self : PvtPprInput) : outcome PvtPprInput :=
  let self := sanitize self in
  if truthy (value self) && allow_links self then
    match re_match link_pattern (value self) with
    | Some _ => Val self
    | None => Exc invalid_link
    end
  else Val self.

(** [TitleTextInput.render], lines 58-59. *)
Definition title_render (self : PvtPprInput) : str * PvtPprInput :=
  if truthy (value self) then
    let self := sanitize self in
    (lit "<h1>" ++ value self ++ lit "</h1>", self)
  else (lit "<h1>" ++ placeholder self ++ lit "</h1>", self).

(** [len(text.split())]: the runs of characters that are not
    whitespace. *)
Fixpoint count_words (in_word : bool) (text : str) : nat :=
  match text with
  | [] => 0
  | c :: text' =>
      if isspace c then count_words false text'
      else (if in_word then 0 else 1) + count_words true text'
  end.

(** [round(chars / 200)]: to the nearest integer, a half to the even
    one. *)
Definition reading_time (chars : nat) : nat :=
  let q := chars / 200 in
  let r := chars mod 200 in
  if r <? 100 then q
  else if 100 <? r then q + 1
  else if Nat.even q then q else q + 1.

Record stats := { chars : nat; words : nat; reading : nat }.

(** [BodyTextField.count_stats], lines 65-70. *)
Definition count_stats (self : PvtPprInput) : stats * PvtPprInput :=
  let self := sanitize self in
  let text := re_delete tag_re (value self) in
  ({| chars := length text;
      words := count_words false text;
      reading := reading_time (length text) |}, self).

Definition indent8 : str := lit "        ".

(** [BodyTextField.render], lines 72-77. *)
Definition body_render (self : PvtPprInput) : str * PvtPprInput :=
  let '(st, self) := count_stats self in
  let self := sanitize self in
  (nl ++ indent8 ++ lit "<div>" ++ value self ++ lit "</div>" ++ nl
   ++ indent8 ++ lit "<div>Chars: " ++ str_of_nat (chars st)
   ++ lit " | Words: " ++ str_of_nat (words st)
   ++ lit " | Reading Time: " ++ str_of_nat (reading st)
   ++ lit " min</div>" ++ nl ++ indent8, self).

(** [LinkInput.render], lines 83-86. *)
Definition link_render (self : PvtPprInput) : outcome (str * PvtPprInput) :=
  match validate self with
  | Val self =>
      if truthy (value self) then
        let self := sanitize self in
        Val (lit "<img src=" ++ [dq] ++ value self ++ [dq]
             ++ lit " alt=" ++ [dq] ++ lit "Embedded Link" ++ [dq]
             ++ lit " />", self)
      else Val ([], self)
  | Exc e => Exc e
  end.

(** ** The page *)

(** [pvtppr_template.render(...)], lines 89-104: the template text with
    its five expressions filled in as they are (the environment does not
    escape), and without the newline that ends it, which Jinja leaves
    out. *)
Definition pvtppr_template (title title_html body_html link_html
    btc_snapshot : str) : str :=
  nl ++ lit "<!DOCTYPE html>" ++ nl
  ++ lit "<html>" ++ nl
  ++ lit "<head>" ++ nl
  ++ lit "    <meta charset=" ++ [dq] ++ lit "UTF-8" ++ [dq] ++ lit ">" ++ nl
  ++ lit "    <meta name=" ++ [dq] ++ lit "btc_snapshot" ++ [dq]
  ++ lit " content=" ++ [dq] ++ btc_snapshot ++ [dq] ++ lit ">" ++ nl
  ++ lit "    <title>" ++ title ++ lit "</title>" ++ nl
  ++ lit "</head>" ++ nl
  ++ lit "<body>" ++ nl
  ++ lit "    " ++ title_html ++ nl
  ++ lit "    " ++ body_html ++ nl
  ++ lit "    " ++ link_html ++ nl
  ++ lit "</body>" ++ nl
  ++ lit "</html>".

(** ** [urllib.parse.quote(s, safe='')] *)

(** The characters [quote] never escapes: letters, digits and [_.-~]. *)
Definition always_safe (c : N) : bool :=
  ((65 <=? c) && (c <=? 90) || (97 <=? c) && (c <=? 122)
   || (48 <=? c) && (c <=? 57)
   || (c =? 95) || (c =? 46) || (c =? 45) || (c =? 126))%N.

Definition hex_digit (n : N) : char :=
  (if n <? 10 then 48 + n else 55 + n)%N.

Definition quote_byte (b : Byte.byte) : str :=
  let n := Byte.to_N b in
  if always_safe n then [n]
  else [37%N; hex_digit (n / 16); hex_digit (n mod 16)].

Definition quote_from_bytes (data : bytes) : str := flat_map quote_byte data.

(** ** [generate_hashlink] *)

Definition and_then {A B} (o : outcome A) (f : A -> outcome B) : outcome B :=
  match o with
  | Val a => f a
  | Exc e => Exc e
  end.

Notation "'let*' x ':=' o 'in' k" := (and_then o (fun x => k))
  (at level 10, x pattern, o at level 100, k at level 200).

Section Composer.
Variable io : capabilities.

(** [s.encode()] *)
Definition encode_utf8 (s : str) : outcome bytes :=
  match utf8_encode s with
  | Some data => Val data
  | None => Exc (Exn UnicodeEncodeError (encode_error_text io s))
  end.

Definition quote (s : str) : outcome str :=
  let* data := encode_utf8 s in Val (quote_from_bytes data).

(** Lines 106-119: the three objects validated, then rendered into the
    page; with the page comes the title object as rendering leaves it. *)
Definition html_content (title_input body_input link_input : PvtPprInput)
    (btc_snapshot : str) : outcome (str * PvtPprInput) :=
  let* title_input := validate title_input in
  let* body_input := validate body_input in
  let* link_input := validate link_input in
  let '(title_html, title_input) := title_render title_input in
  let '(body_html, body_input) := body_render body_input in
  let* (link_html, link_input) := link_render link_input in
  Val (pvtppr_template (value title_input) title_html body_html link_html
         btc_snapshot, title_input).

(** Lines 105-125. *)
Definition generate_hashlink (title_input body_input link_input : PvtPprInput)
    (btc_snapshot : str) : outcome str :=
  let* (page, title_input) :=
    html_content title_input body_input link_input btc_snapshot in
  let* data := encode_utf8 page in
  let compressed := lzma_compress io data in
  let b64_encoded := b64encode compressed in
  let* title_encoded :=
    quote (if truthy (value title_input) then value title_input
           else placeholder title_input) in
  Val (site ++ lit "#" ++ title_encoded ++ lit "/?" ++ b64_encoded).

End Composer.

(** Neither a newline nor a semicolon; and no slash either. *)
Definition no_break (c : char) : bool := dot c && isnot ";" c.
Definition no_slash (c : char) : bool := no_break c && isnot "/" c.

(** ** A sample article *)

Definition sample_title : PvtPprInput :=
  set_value TitleTextInput (lit "News/1").
Definition sample_body : PvtPprInput :=
  set_value BodyTextField (lit "Hello <b>world</b>").
Definition sample_link : PvtPprInput :=
  set_value LinkInput (lit "https://example.com/a.png").

(** Its page. *)
Definition sample_page : str :=
  nl ++ lit "<!DOCTYPE html>"
  ++ nl ++ lit "<html>"
  ++ nl ++ lit "<head>"
  ++ nl ++ lit "    <meta charset=" ++ [dq] ++ lit "UTF-8" ++ [dq] ++ lit ">"
  ++ nl ++ lit "    <meta name=" ++ [dq] ++ lit "btc_snapshot" ++ [dq] ++ lit " content=" ++ [dq] ++ [dq] ++ lit ">"
  ++ nl ++ lit "    <title>News/1</title>"
  ++ nl ++ lit "</head>"
  ++ nl ++ lit "<body>"
  ++ nl ++ lit "    <h1>News/1</h1>"
  ++ nl ++ lit "    "
  ++ nl ++ lit "        <div>Hello <b>world</b></div>"
  ++ nl ++ lit "        <div>Chars: 11 | Words: 2 | Reading Time: 0 min</div>"
  ++ nl ++ lit "        "
  ++ nl ++ lit "    <img src=" ++ [dq] ++ lit "https://example.com/a.png" ++ [dq] ++ lit " alt=" ++ [dq] ++ lit "Embedded Link" ++ [dq] ++ lit " />"
  ++ nl ++ lit "</body>"
  ++ nl ++ lit "</html>".

(** [lzma.compress(page, format=lzma.FORMAT_ALONE, preset=9)] of that page,
    257 bytes for its 354. *)
Definition sample_stream : bytes :=
  map byte_of_N
    [93; 0; 0; 0; 4; 255; 255; 255; 255; 255; 255; 255; 255; 0; 5; 15;
     252; 132; 158; 117; 165; 163; 136; 127; 182; 154; 83; 106; 8; 29;
     150; 203; 5; 209; 188; 34; 255; 82; 216; 191; 36; 223; 249; 9; 189;
     157; 239; 223; 47; 187; 143; 188; 114; 139; 64; 249; 221; 88; 8;
     205; 225; 149; 194; 93; 85; 67; 255; 24; 194; 49; 93; 98; 84; 147;
     203; 76; 203; 235; 42; 123; 133; 252; 173; 27; 80; 92; 232; 57;
     236; 70; 57; 203; 119; 177; 121; 91; 9; 158; 222; 111; 54; 76; 230;
     133; 157; 112; 49; 126; 128; 187; 158; 79; 195; 58; 57; 217; 137;
     55; 15; 5; 70; 228; 73; 151; 95; 187; 107; 16; 43; 215; 53; 225;
     126; 5; 94; 114; 154; 45; 238; 73; 242; 109; 214; 167; 171; 255;
     147; 15; 49; 13; 90; 43; 29; 65; 17; 66; 187; 206; 221; 185; 250;
     251; 68; 116; 216; 24; 114; 120; 206; 214; 255; 214; 69; 34; 119;
     175; 188; 176; 55; 125; 34; 46; 104; 128; 43; 100; 88; 53; 209;
     133; 40; 200; 238; 252; 168; 26; 235; 72; 195; 75; 51; 47; 156;
     242; 51; 92; 233; 227; 193; 46; 246; 140; 7; 85; 184; 203; 176;
     180; 154; 249; 174; 197; 128; 141; 62; 156; 72; 81; 71; 123; 206;
     111; 208; 143; 196; 50; 84; 133; 149; 199; 197; 181; 100; 161; 41;
     90; 69; 209; 206; 61; 44; 55; 249; 249; 19; 242; 174]%N.

(** The offline machine with an LZMA library that knows this one page, in
    both directions. *)
Definition press : capabilities := {|
  lzma_decompress := fun data =>
    if bytes_eqb data sample_stream then Val (map byte_of_N sample_page)
    else Exc (Exn LZMAError (lit "Input format not supported by decoder"));
  lzma_compress := fun data =>
    if bytes_eqb data (map byte_of_N sample_page) then sample_stream else [];
  execjs_compile := execjs_compile offline;
  js_decompress := js_decompress offline;
  requests_get := requests_get offline;
  decode_error_text := decode_error_text offline;
  encode_error_text := encode_error_text offline
|}.

(** The hashlink of the sample article. *)
Definition sample_hashlink : str :=
  lit "https://itty.bitty.site/#News%2F1/?XQAAAAT//////////wAFD/yEn"
  ++ lit "nWlo4h/tppTaggdlssF0bwi/1LYvyTf+Qm9ne/fL7uPvHKLQPndWAjN4ZXCX"
  ++ lit "VVD/xjCMV1iVJPLTMvrKnuF/K0bUFzoOexGOct3sXlbCZ7ebzZM5oWdcDF+g"
  ++ lit "LueT8M6OdmJNw8FRuRJl1+7axAr1zXhfgVecpot7knybdanq/+TDzENWisdQ"
  ++ lit "RFCu87dufr7RHTYGHJ4ztb/1kUid6+8sDd9Ii5ogCtkWDXRhSjI7vyoGutIw"
  ++ lit "0szL5zyM1zp48Eu9owHVbjLsLSa+a7FgI0+nEhRR3vOb9CPxDJUhZXHxbVko"
  ++ lit "SlaRdHOPSw3+fkT8q4=".

(** ** Vocabulary of the proofs *)

(** The values of a sextet and of an octet, for properties checked value
    by value. *)
Definition sextets : list N := map N.of_nat (seq 0 64).
Definition byte_range : list Byte.byte :=
  map byte_of_N (map N.of_nat (seq 0 256)).

(** The four sextets of three octets. *)
Definition sx0 (a : Byte.byte) : N := N.shiftr (Byte.to_N a) 2.
Definition sx1 (a b : Byte.byte) : N :=
  N.lor (N.shiftl (N.land (Byte.to_N a) 3) 4) (N.shiftr (Byte.to_N b) 4).
Definition sx2 (b c : Byte.byte) : N :=
  N.lor (N.shiftl (N.land (Byte.to_N b) 15) 2) (N.shiftr (Byte.to_N c) 6).
Definition sx3 (c : Byte.byte) : N := N.land (Byte.to_N c) 63.

(** The exception of [data.decode('utf-8')]. *)
Definition undecodable (io : capabilities) (data : bytes) : exn :=
  Exn UnicodeDecodeError (decode_error_text io data).

Definition not_b64 (ev : event) : Prop :=
  match ev with Call (B64Decode _) => False | _ => True end.

(** The last statement of the body (line 256), and the strategies from the
    standard one on (lines 156-256). *)
Definition unknown_format : M (option result) :=
  returning (Failed (failed_to_decode ++ lit "Unknown format")).

Definition from_standard (io : capabilities) (h : str) : M (option result) :=
  or_else (standard_strategy io h)
    (or_else (js_strategy io h)
       (or_else (fetch_strategy io h) unknown_format)).

(** What follows a tag that starts the string, if one does: the text
    after the first [>], which must not come right after the [<]. *)
Definition tag_end (s : str) : option str :=
  match s with
  | c :: d :: s' =>
      if char_eqb c (ch "<") && isnot ">" d then
        match drop_while (isnot ">") s' with
        | _ :: r => Some r
        | [] => None
        end
      else None
  | _ => None
  end.

(** The schemes the link pattern of line 46 spells out. *)
Definition link_schemes : list str :=
  [lit "http://"; lit "https://"; lit "ipfs://"; lit "ipns://";
   lit "magnet:"].

(** The texts the link pattern describes: a scheme and the rest of its
    line, or 44 characters of the base64 alphabet or more; in both cases up
    to the end of the text or to one last newline, where [$] matches. *)
Definition link_shaped (s : str) : Prop :=
  exists body tail,
    s = body ++ tail
    /\ (tail = [] \/ tail = nl)
    /\ ((exists scheme line,
           In scheme link_schemes /\ body = scheme ++ line
           /\ forallb dot line = true)
        \/ (44 <= length body /\ forallb b64_class body = true)).

(** The text [quote] is given (line 124). *)
Definition title_text (title_input : PvtPprInput) : str :=
  if truthy (value title_input) then value title_input
  else placeholder title_input.

(** The visible characters of ASCII: no space, no control character. *)
Definition printable (c : char) : bool := ((33 <=? c) && (c <=? 126))%N.

(** The label of a returned pair. *)
Definition label (x : result) : str := snd (as_tuple x).

(** The labels a run can hand to the caller: that of the pair it returns
    or, when it raises, the [version] the outer handler will find. *)
Definition labelled (labels : list str) (r : run (option result)) : Prop :=
  match res r with
  | Val (Some x) => In (label x) labels
  | Val None => True
  | Exc _ => In (ver r) labels
  end.

(** The body of the outer [try] with another last statement in the place
    of line 256. *)
Definition cascade_with (io : capabilities) (last : M (option result))
    (hashlink : str) : M (option result) :=
  log (Starting (short hashlink)) ;;
  or_else (reroute_strategy io hashlink)
    (or_else (standard_strategy io hashlink)
       (or_else (js_strategy io hashlink)
          (or_else (fetch_strategy io hashlink) last))).

(** A machine without network whose JavaScript worker compiles and
    answers every input with a value that is neither text nor bytes. *)
Definition mute_worker : capabilities := {|
  lzma_decompress := lzma_decompress offline;
  lzma_compress := lzma_compress offline;
  execjs_compile := Val tt;
  js_decompress := fun _ => Val JsOther;
  requests_get := requests_get offline;
  decode_error_text := decode_error_text offline;
  encode_error_text := encode_error_text offline
|}.

(** A machine without JavaScript runtime in front of a site that answers
    every GET with the same page. *)
Definition serving (page : str) : capabilities := {|
  lzma_decompress := lzma_decompress offline;
  lzma_compress := lzma_compress offline;
  execjs_compile := execjs_compile offline;
  js_decompress := js_decompress offline;
  requests_get := fun _ _ _ => Val {| status_code := 200; text := page |};
  decode_error_text := decode_error_text offline;
  encode_error_text := encode_error_text offline
|}.

(** [p] occurs in [s] when letter case is ignored. *)
Fixpoint contains_ci (p s : str) : bool :=
  match strip_prefix_ci p s with
  | Some _ => true
  | None =>
      match s with
      | [] => false
      | _ :: s' => contains_ci p s'
      end
  end.

(** A machine without network whose JavaScript worker compiles and gives
    the same answer to every input. *)
Definition worker (answer : js_value) : capabilities := {|
  lzma_decompress := lzma_decompress offline;
  lzma_compress := lzma_compress offline;
  execjs_compile := Val tt;
  js_decompress := fun _ => Val answer;
  requests_get := requests_get offline;
  decode_error_text := decode_error_text offline;
  encode_error_text := encode_error_text offline
|}.

(** * Properties *)

(** ** Sample runs of the library models *)

Example reroute_ex1 :
  option_map (fun m => group m 1)
    (reroute_match (lit "https://itty.bitty.site/#t/data:text/html;charset=utf-8;base64,aGVsbG8="))
  = Some (lit "aGVsbG8=").
Proof. vm_compute. reflexivity. Qed.

Example reroute_ex2 :
  option_map (fun m => group m 1)
    (reroute_match (lit "https://itty.bitty.site/#t/?data:text/html;charset=utf-8;base64,aGVsbG8="))
  = None.
Proof. vm_compute. reflexivity. Qed.

Example standard_ex1 :
  option_map (fun m => (group m 1, group m 2))
    (standard_match (lit "https://itty.bitty.site/#a%20b/?XQAA/?x"))
  = Some (lit "a%20b", lit "XQAA/?x").
Proof. vm_compute. reflexivity. Qed.

Example b64_ex1 : b64decode (lit "aGVsbG8=") = Val (bytes_of "hello").
Proof. vm_compute. reflexivity. Qed.

Example b64_ex2 : b64encode (bytes_of "hello") = lit "aGVsbG8=".
Proof. vm_compute. reflexivity. Qed.

Example b64_ex3 : b64decode (lit "aGVsbG8") = Exc incorrect_padding.
Proof. vm_compute. reflexivity. Qed.

Example b64_ex4 : b64decode (lit "aGVs?bG8=!!") = Val (bytes_of "hello").
Proof. vm_compute. reflexivity. Qed.

Example b64_ex5 : b64decode (lit "A") = Exc (one_more_than_multiple 0).
Proof. vm_compute. reflexivity. Qed.

Example b64_ex6 : b64decode (lit "AAAA===") = Val (bytes_of "000"%string) -> False.
Proof. vm_compute. discriminate. Qed.

Example split_ex1 : split (lit "/?") (lit "a/?b/?c") = [lit "a"; lit "b"; lit "c"].
Proof. vm_compute. reflexivity. Qed.

Example split_ex2 : split (lit "#") (lit "abc") = [lit "abc"].
Proof. vm_compute. reflexivity. Qed.

Example split_ex3 : split (lit "#") (lit "a##b#") = [lit "a"; []; lit "b"; []].
Proof. vm_compute. reflexivity. Qed.

Example replace_ex1 : replace (lit "aa") (lit "b") (lit "aaaxaa") = lit "baxb".
Proof. vm_compute. reflexivity. Qed.

Example strip_ex1 : strip (lit "  a b  ") = lit "a b".
Proof. vm_compute. reflexivity. Qed.

Example utf8_ex1 : utf8_encode [8364%N] = Some (map byte_of_N [226; 130; 172]%N).
Proof. vm_compute. reflexivity. Qed.

Example utf8_ex2 : utf8_decode (map byte_of_N [226; 130; 172]%N) = Some [8364%N].
Proof. vm_compute. reflexivity. Qed.

Example utf8_ex3 : utf8_decode (map byte_of_N [255]%N) = None.
Proof. vm_compute. reflexivity. Qed.

(** ** The matcher against its declarative reading *)

Lemma strip_prefix_app l s : strip_prefix l (l ++ s) = Some s.
Proof.
  induction l as [|c l IH]; simpl; [reflexivity|].
  unfold char_eqb. now rewrite N.eqb_refl.
Qed.

Lemma strip_prefix_inv l s s' : strip_prefix l s = Some s' -> s = l ++ s'.
Proof.
  revert s. induction l as [|c l IH]; intros s H; simpl in *.
  - now inversion H.
  - destruct s as [|d s]; [discriminate|].
    unfold char_eqb in H. destruct (N.eqb_spec c d); [|discriminate].
    subst. f_equal. now apply IH.
Qed.

Lemma strip_prefix_ci_inv l s s' :
  strip_prefix_ci l s = Some s' -> exists l', s = l' ++ s' /\ ci_eq l l' = true.
Proof.
  revert s. induction l as [|c l IH]; intros s H; simpl in *.
  - inversion H. now exists [].
  - destruct s as [|d s]; [discriminate|].
    destruct (char_eqb (lower c) (lower d)) eqn:E; [|discriminate].
    destruct (IH _ H) as (l' & -> & Hl). exists (d :: l'). simpl.
    now rewrite E, Hl.
Qed.

Lemma strip_prefix_ci_app l l' s :
  ci_eq l l' = true -> strip_prefix_ci l (l' ++ s) = Some s.
Proof.
  revert l'. induction l as [|c l IH]; intros [|d l'] H; simpl in *;
    try discriminate; [reflexivity|].
  apply andb_prop in H as [H1 H2]. rewrite H1. now apply IH.
Qed.

Section MatcherFacts.
Variable A : Type.

Lemma star_greedy_sound p s (k : str -> option A) v :
  star_greedy p s k = Some v ->
  exists w s', s = w ++ s' /\ forallb p w = true /\ k s' = Some v.
Proof.
  induction s as [|c s IH]; simpl; intros H.
  - now exists [], [].
  - destruct (p c) eqn:Hp.
    + destruct (star_greedy p s k) as [v'|] eqn:E.
      * inversion H; subst v'.
        destruct (IH eq_refl) as (w & s' & -> & Hw & Hk).
        exists (c :: w), s'. simpl. now rewrite Hp, Hw.
      * now exists [], (c :: s).
    + now exists [], (c :: s).
Qed.

Lemma star_greedy_complete p w s' (k : str -> option A) v :
  forallb p w = true -> k s' = Some v ->
  exists v', star_greedy p (w ++ s') k = Some v'.
Proof.
  intros Hw Hk. induction w as [|c w IH]; simpl in *.
  - destruct s' as [|d s']; simpl; [eauto|].
    destruct (p d); [|eauto].
    destruct (star_greedy p s' k); eauto.
  - apply andb_prop in Hw as [Hc Hw]. rewrite Hc.
    destruct (IH Hw) as (v' & ->). eauto.
Qed.

Lemma star_lazy_sound p s (k : str -> option A) v :
  star_lazy p s k = Some v ->
  exists w s', s = w ++ s' /\ forallb p w = true /\ k s' = Some v.
Proof.
  induction s as [|c s IH]; simpl; intros H.
  - destruct (k []) eqn:E; [|discriminate].
    inversion H; subst. now exists [], [].
  - destruct (k (c :: s)) eqn:E.
    + inversion H; subst. now exists [], (c :: s).
    + destruct (p c) eqn:Hp; [|discriminate].
      destruct (IH H) as (w & s' & -> & Hw & Hk).
      exists (c :: w), s'. simpl. now rewrite Hp, Hw.
Qed.

Lemma star_lazy_complete p w s' (k : str -> option A) v :
  forallb p w = true -> k s' = Some v ->
  exists v', star_lazy p (w ++ s') k = Some v'.
Proof.
  intros Hw Hk. induction w as [|c w IH]; simpl in *.
  - destruct s' as [|d s']; simpl; rewrite Hk; eauto.
  - apply andb_prop in Hw as [Hc Hw].
    destruct (k (c :: w ++ s')); [eauto|].
    rewrite Hc. now apply IH.
Qed.

(** Every answer of the matcher is the continuation's answer at a
    match. *)
Lemma rx_sound r : forall s g (k : str -> captures -> option A) v,
  rx r s g k = Some v ->
  exists s' g', matches r s g s' g' /\ k s' g' = Some v.
Proof.
  induction r as [|l|l|p|p|p|r IH|r1 IH1 r2 IH2|r1 IH1 r2 IH2|n r IH|];
    intros s g k v H; simpl in H.
  - exists s, g. split; [constructor|assumption].
  - destruct (strip_prefix l s) as [s'|] eqn:E; [|discriminate].
    apply strip_prefix_inv in E. subst s.
    exists s', g. split; [constructor|assumption].
  - destruct (strip_prefix_ci l s) as [s'|] eqn:E; [|discriminate].
    apply strip_prefix_ci_inv in E as (l' & -> & Hl).
    exists s', g. split; [now constructor|assumption].
  - destruct s as [|c s]; [discriminate|].
    destruct (p c) eqn:Hp; [|discriminate].
    exists s, g. split; [now constructor|assumption].
  - apply star_greedy_sound in H as (w & s' & -> & Hw & Hk).
    exists s', g. split; [now constructor|assumption].
  - apply star_lazy_sound in H as (w & s' & -> & Hw & Hk).
    exists s', g. split; [now constructor|assumption].
  - destruct (rx r s g k) as [v'|] eqn:E.
    + inversion H; subst v'. apply IH in E as (s' & g' & Hm & Hk).
      exists s', g'. split; [now apply m_opt_some|assumption].
    + exists s, g. split; [apply m_opt_none|assumption].
  - destruct (rx r1 s g k) as [v'|] eqn:E.
    + inversion H; subst v'. apply IH1 in E as (s' & g' & Hm & Hk).
      exists s', g'. split; [now apply m_alt_l|assumption].
    + apply IH2 in H as (s' & g' & Hm & Hk).
      exists s', g'. split; [now apply m_alt_r|assumption].
  - apply IH1 in H as (s1 & g1 & Hm1 & H).
    apply IH2 in H as (s2 & g2 & Hm2 & H).
    exists s2, g2. split; [now apply m_cat with s1 g1|assumption].
  - apply IH in H as (s' & g' & Hm & H).
    eexists _, _. split; [apply m_grp, Hm|assumption].
  - destruct s as [|c [|d s]]; try discriminate.
    + exists [], g. split; [constructor|assumption].
    + destruct (char_eqb c 10%N) eqn:E; [|discriminate].
      apply N.eqb_eq in E. subst c.
      exists [10%N], g. split; [constructor|assumption].
Qed.

(** Where there is a match the continuation accepts, the matcher
    answers. *)
Lemma rx_complete r s g s' g' :
  matches r s g s' g' ->
  forall (k : str -> captures -> option A) v,
  k s' g' = Some v -> exists v', rx r s g k = Some v'.
Proof.
  induction 1; intros k v Hk; simpl.
  - eauto.
  - rewrite strip_prefix_app. eauto.
  - rewrite strip_prefix_ci_app by assumption. eauto.
  - rewrite H. eauto.
  - now apply star_greedy_complete with v.
  - now apply star_lazy_complete with v.
  - destruct (IHmatches k v Hk) as (v' & ->). eauto.
  - destruct (rx r s g k); eauto.
  - destruct (IHmatches k v Hk) as (v' & ->). eauto.
  - destruct (rx r1 s g k); [eauto|]. now apply IHmatches with v.
  - destruct (IHmatches2 k v Hk) as (v2 & H2).
    now apply IHmatches1 with v2.
  - eapply IHmatches. exact Hk.
  - eauto.
  - eauto.
Qed.
End MatcherFacts.

Lemma re_match_sound r s m :
  re_match r s = Some m -> matches r s no_captures (m_rest m) (groups m).
Proof.
  unfold re_match. intros H. apply rx_sound in H as (s' & g' & Hm & H).
  inversion H; subst m. exact Hm.
Qed.

Lemma re_match_complete r s s' g' :
  matches r s no_captures s' g' -> exists m, re_match r s = Some m.
Proof.
  intros H. unfold re_match. eapply rx_complete; [exact H|reflexivity].
Qed.

(** ** Facts about the two hashlink patterns *)

Lemma take_drop_while p s : take_while p s ++ drop_while p s = s.
Proof.
  induction s as [|c s IH]; simpl; [reflexivity|].
  destruct (p c); simpl; [now rewrite IH|reflexivity].
Qed.

Lemma drop_while_app p w s :
  forallb p w = true -> drop_while p (w ++ s) = drop_while p s.
Proof.
  induction w as [|c w IH]; simpl; intros H; [reflexivity|].
  apply andb_prop in H as [-> H]. now apply IH.
Qed.

Lemma take_while_app p w s :
  forallb p w = true -> take_while p (w ++ s) = w ++ take_while p s.
Proof.
  induction w as [|c w IH]; simpl; intros H; [reflexivity|].
  apply andb_prop in H as [-> H]. now rewrite IH.
Qed.

Lemma take_while_all p w : forallb p w = true -> take_while p w = w.
Proof.
  intros H. rewrite <- (app_nil_r w) at 1.
  rewrite take_while_app by assumption. simpl. apply app_nil_r.
Qed.

Lemma forallb_take_while p s : forallb p (take_while p s) = true.
Proof.
  induction s as [|c s IH]; simpl; [reflexivity|].
  destruct (p c) eqn:E; simpl; [now rewrite E|reflexivity].
Qed.

(** A greedy star in front of a continuation that never refuses takes the
    longest prefix in its class. *)
Lemma star_greedy_total A p s (k : str -> option A) :
  (forall s', k s' <> None) -> star_greedy p s k = k (drop_while p s).
Proof.
  intros Hk. induction s as [|c s IH]; simpl; [reflexivity|].
  destruct (p c); [|reflexivity].
  rewrite IH. destruct (k (drop_while p s)) eqn:E; [reflexivity|].
  now apply Hk in E.
Qed.

Lemma firstn_length_app {X} (a b : list X) :
  firstn (length (a ++ b) - length b) (a ++ b) = a.
Proof.
  rewrite length_app, Nat.add_sub. rewrite firstn_app, Nat.sub_diag.
  simpl. rewrite app_nil_r. apply firstn_all.
Qed.

(** The last piece of the reroute pattern, a [Grp 1 (Plus dot)] at the
    end of a match: it captures the rest of the line, which must not be
    empty. *)
Lemma rx_rest_of_line s g :
  rx (Grp 1 (Plus dot)) s g
     (fun s' g' => Some {| groups := g'; m_rest := s' |})
  = match s with
    | c :: s0 =>
        if dot c
        then Some {| groups := set_capture 1 (c :: take_while dot s0) g;
                     m_rest := drop_while dot s0 |}
        else None
    | [] => None
    end.
Proof.
  unfold Plus. simpl. destruct s as [|c s0]; [reflexivity|].
  destruct (dot c); [|reflexivity].
  rewrite star_greedy_total by discriminate.
  do 2 f_equal.
  rewrite <- (take_drop_while dot s0) at 1 3.
  change (c :: take_while dot s0 ++ drop_while dot s0)
    with ((c :: take_while dot s0) ++ drop_while dot s0).
  now rewrite firstn_length_app.
Qed.

Lemma rx_cat A r1 r2 s g (k : str -> captures -> option A) :
  rx (Cat r1 r2) s g k = rx r1 s g (fun s' g' => rx r2 s' g' k).
Proof. reflexivity. Qed.

(** Peel the first piece off a concatenation that matched. *)
Ltac rx_peel H s g Hm :=
  rewrite rx_cat in H; apply rx_sound in H as (s & g & Hm & H);
  cbv beta in H.

Ltac rx_step H :=
  let s := fresh "s" in let g := fresh "g" in let Hm := fresh "Hm" in
  rx_peel H s g Hm; inversion Hm; clear Hm; subst.

(** What a hashlink looks like when the reroute pattern matches it. *)
Lemma reroute_match_inv h m :
  reroute_match h = Some m ->
  exists pre X o1 o2 c s0,
    h = site ++ pre ++ lit "#" ++ X ++ o1 ++ o2 ++ marker ++ c :: s0
    /\ forallb (isnot "#") pre = true
    /\ forallb (isnot "/") X = true
    /\ (o1 = [] \/ o1 = lit "/")
    /\ (o2 = [] \/ o2 = lit "#" \/ o2 = lit "/")
    /\ dot c = true
    /\ group m 1 = c :: take_while dot s0.
Proof.
  unfold reroute_match, re_match, reroute_re. intros H.
  rx_peel H t1 g1 M1. rx_peel H t2 g2 M2. rx_peel H t3 g3 M3.
  rx_peel H t4 g4 M4. rx_peel H t5 g5 M5. rx_peel H t6 g6 M6.
  rx_peel H t7 g7 M7.
  rewrite rx_rest_of_line in H.
  destruct t7 as [|c s0]; [discriminate|].
  destruct (dot c) eqn:Hc; [|discriminate].
  inversion H; subst m; clear H.
  inversion M1; subst. inversion M2; subst. inversion M3; subst.
  inversion M4; subst. inversion M7; subst.
  clear M1 M2 M3 M4 M7.
  assert (exists o1, t4 = o1 ++ t5 /\ (o1 = [] \/ o1 = lit "/")) as (o1 & -> & Ho1).
  { inversion M5; subst.
    - match goal with X : matches (Str _) _ _ _ _ |- _ => inversion X; subst end.
      exists (lit "/"). auto.
    - exists []. auto. }
  assert (exists o2, t5 = o2 ++ marker ++ c :: s0
                     /\ (o2 = [] \/ o2 = lit "#" \/ o2 = lit "/")) as (o2 & -> & Ho2).
  { inversion M6; subst.
    - match goal with X : matches (Alt _ _) _ _ _ _ |- _ => inversion X; subst end;
      match goal with X : matches (Str _) _ _ _ _ |- _ => inversion X; subst end.
      + exists (lit "#"). auto.
      + exists (lit "/"). auto.
    - exists []. auto. }
  exists w, w0, o1, o2, c, s0.
  repeat split; auto.
Qed.

Lemma split_first a w w' s s' :
  forallb (isnot a) w = true -> forallb (isnot a) w' = true ->
  w ++ ch a :: s = w' ++ ch a :: s' -> w = w' /\ s = s'.
Proof.
  intros Hw Hw' E.
  assert (Ha : isnot a (ch a) = false).
  { unfold isnot, char_eqb. now rewrite N.eqb_refl. }
  assert (D := f_equal (drop_while (isnot a)) E).
  rewrite !drop_while_app in D by assumption. simpl in D. rewrite Ha in D.
  assert (T := f_equal (take_while (isnot a)) E).
  rewrite !take_while_app in T by assumption. simpl in T. rewrite Ha in T.
  rewrite !app_nil_r in T. split; [assumption|]. now inversion D.
Qed.

(** The marker sits at one place only: two readings of a hashlink as a
    reroute agree on what follows the marker. *)
Lemma reroute_tail_unique pre X o1 o2 T pre' X' o1' o2' T' :
  forallb (isnot "#") pre = true -> forallb (isnot "/") X = true ->
  (o1 = [] \/ o1 = lit "/") -> (o2 = [] \/ o2 = lit "#" \/ o2 = lit "/") ->
  forallb (isnot "#") pre' = true -> forallb (isnot "/") X' = true ->
  (o1' = [] \/ o1' = lit "/") -> (o2' = [] \/ o2' = lit "#" \/ o2' = lit "/") ->
  site ++ pre ++ lit "#" ++ X ++ o1 ++ o2 ++ marker ++ T
  = site ++ pre' ++ lit "#" ++ X' ++ o1' ++ o2' ++ marker ++ T' ->
  T = T'.
Proof.
  intros Hp HX Ho1 Ho2 Hp' HX' Ho1' Ho2' E.
  apply app_inv_head in E.
  change (lit "#") with [ch "#"] in E. cbn [app] in E.
  apply split_first in E as [_ E]; [|assumption..].
  apply (f_equal (drop_while (isnot "/"))) in E.
  rewrite (drop_while_app _ X _ HX), (drop_while_app _ X' _ HX') in E.
  destruct Ho1 as [->| ->], Ho2 as [->|[->| ->]],
           Ho1' as [->| ->], Ho2' as [->|[->| ->]];
    vm_compute in E; congruence.
Qed.

Lemma reroute_matches pre X o1 o2 c s0 :
  forallb (isnot "#") pre = true -> forallb (isnot "/") X = true ->
  (o1 = [] \/ o1 = lit "/") -> (o2 = [] \/ o2 = lit "#" \/ o2 = lit "/") ->
  dot c = true ->
  exists m,
    reroute_match (site ++ pre ++ lit "#" ++ X ++ o1 ++ o2 ++ marker ++ c :: s0)
    = Some m.
Proof.
  intros Hp HX Ho1 Ho2 Hc. unfold reroute_match.
  apply re_match_complete with (s' := s0)
    (g' := set_capture 1
             (firstn (length (c :: s0) - length s0) (c :: s0)) no_captures).
  unfold reroute_re.
  eapply m_cat; [apply m_str|].
  eapply m_cat; [now apply m_star|].
  eapply m_cat; [apply m_str|].
  eapply m_cat; [now apply m_star|].
  assert (T : matches (Cat (Str marker) (Grp 1 (Plus dot)))
                (marker ++ c :: s0) no_captures s0
                (set_capture 1
                   (firstn (length (c :: s0) - length s0) (c :: s0))
                   no_captures)).
  { eapply m_cat; [apply m_str|].
    apply m_grp. unfold Plus.
    eapply m_cat; [now apply m_cls|].
    apply (m_star dot [] s0 no_captures). reflexivity. }
  destruct Ho1 as [->| ->], Ho2 as [->|[->| ->]]; cbn [app].
  - eapply m_cat; [apply m_opt_none|].
    eapply m_cat; [apply m_opt_none|]. exact T.
  - eapply m_cat; [apply m_opt_none|].
    eapply m_cat; [apply m_opt_some, m_alt_l, m_str|]. exact T.
  - eapply m_cat; [apply m_opt_none|].
    eapply m_cat; [apply m_opt_some, m_alt_r, m_str|]. exact T.
  - eapply m_cat; [apply m_opt_some, m_str|].
    eapply m_cat; [apply m_opt_none|]. exact T.
  - eapply m_cat; [apply m_opt_some, m_str|].
    eapply m_cat; [apply m_opt_some, m_alt_l, m_str|]. exact T.
  - eapply m_cat; [apply m_opt_some, m_str|].
    eapply m_cat; [apply m_opt_some, m_alt_r, m_str|]. exact T.
Qed.

(** ** base64: decoding what was encoded *)

Lemma byte_of_to_N b : byte_of_N (Byte.to_N b) = b.
Proof.
  unfold byte_of_N. rewrite N.mod_small.
  - now rewrite Byte.of_to_N.
  - pose proof (Byte.to_N_bounded b). lia.
Qed.

Lemma in_byte_range b : In b byte_range.
Proof.
  unfold byte_range. rewrite <- (byte_of_to_N b). apply in_map.
  rewrite <- (N2Nat.id (Byte.to_N b)). apply in_map. apply in_seq.
  pose proof (Byte.to_N_bounded b). lia.
Qed.

Lemma in_sextets v : (v < 64)%N -> In v sextets.
Proof.
  intros H. unfold sextets. rewrite <- (N2Nat.id v). apply in_map.
  apply in_seq. lia.
Qed.

Lemma for_bytes (f : Byte.byte -> bool) :
  forallb f byte_range = true -> forall a, f a = true.
Proof.
  intros H a. rewrite forallb_forall in H. apply H, in_byte_range.
Qed.

Lemma for_byte_pairs (f : Byte.byte -> Byte.byte -> bool) :
  forallb (fun a => forallb (f a) byte_range) byte_range = true ->
  forall a b, f a b = true.
Proof.
  intros H a b. apply for_bytes. revert a. apply for_bytes. exact H.
Qed.

Lemma for_sextets (f : N -> bool) :
  forallb f sextets = true -> forall v, (v < 64)%N -> f v = true.
Proof.
  intros H v Hv. rewrite forallb_forall in H. apply H, in_sextets, Hv.
Qed.

Lemma sx0_small a : (sx0 a < 64)%N.
Proof.
  apply N.ltb_lt. revert a. apply for_bytes. vm_compute. reflexivity.
Qed.
Lemma sx1_small a b : (sx1 a b < 64)%N.
Proof.
  apply N.ltb_lt. revert a b. apply for_byte_pairs. vm_compute. reflexivity.
Qed.
Lemma sx2_small b c : (sx2 b c < 64)%N.
Proof.
  apply N.ltb_lt. revert b c. apply for_byte_pairs. vm_compute. reflexivity.
Qed.
Lemma sx3_small c : (sx3 c < 64)%N.
Proof.
  apply N.ltb_lt. revert c. apply for_bytes. vm_compute. reflexivity.
Qed.

Lemma first_octet a b :
  byte_of_N (N.lor (N.shiftl (sx0 a) 2) (N.shiftr (sx1 a b) 4)) = a.
Proof.
  apply Byte.byte_dec_bl. revert a b. apply for_byte_pairs.
  vm_compute. reflexivity.
Qed.
Lemma sx1_low a b : N.land (sx1 a b) 15 = N.shiftr (Byte.to_N b) 4.
Proof.
  apply N.eqb_eq. revert a b. apply for_byte_pairs. vm_compute. reflexivity.
Qed.
Lemma sx2_high b c : N.shiftr (sx2 b c) 2 = N.land (Byte.to_N b) 15.
Proof.
  apply N.eqb_eq. revert b c. apply for_byte_pairs. vm_compute. reflexivity.
Qed.
Lemma second_octet a b c :
  byte_of_N (N.lor (N.shiftl (N.land (sx1 a b) 15) 4) (N.shiftr (sx2 b c) 2))
  = b.
Proof.
  rewrite sx1_low, sx2_high. apply Byte.byte_dec_bl. revert b.
  apply for_bytes. vm_compute. reflexivity.
Qed.
Lemma third_octet b c :
  byte_of_N (N.lor (N.shiftl (N.land (sx2 b c) 3) 6) (sx3 c)) = c.
Proof.
  apply Byte.byte_dec_bl. revert b c. apply for_byte_pairs.
  vm_compute. reflexivity.
Qed.

(** The alphabet is read back, is not the pad, and is ASCII. *)
Lemma b64val_b64char v : (v < 64)%N -> b64val (b64char v) = Some v.
Proof.
  intros H.
  assert (E : (match b64val (b64char v) with Some w => w =? v | None => false end)%N = true).
  { revert v H. apply for_sextets. vm_compute. reflexivity. }
  destruct (b64val (b64char v)); [|discriminate].
  apply N.eqb_eq in E. now subst.
Qed.
Lemma b64char_not_pad v : (v < 64)%N -> char_eqb (b64char v) pad = false.
Proof.
  intros H. apply negb_true_iff. revert v H. apply for_sextets.
  vm_compute. reflexivity.
Qed.
Lemma b64char_ascii v : (v < 64)%N -> is_ascii (b64char v) = true.
Proof. revert v. apply for_sextets. vm_compute. reflexivity. Qed.

Lemma triple_ind (P : bytes -> Prop) :
  P [] -> (forall a, P [a]) -> (forall a b, P [a; b]) ->
  (forall a b c rest, P rest -> P (a :: b :: c :: rest)) ->
  forall data, P data.
Proof.
  intros H0 H1 H2 H3. fix IH 1.
  intros [|a [|b [|c rest]]];
    [exact H0|apply H1|apply H2|apply H3, IH].
Qed.

Lemma b64encode_chunk a b c rest :
  b64encode (a :: b :: c :: rest)
  = b64char (sx0 a) :: b64char (sx1 a b) :: b64char (sx2 b c)
    :: b64char (sx3 c) :: b64encode rest.
Proof. reflexivity. Qed.

Lemma b64encode_one a :
  b64encode [a] = [b64char (sx0 a); b64char (sx1 a Byte.x00); pad; pad].
Proof.
  cbn [b64encode]. unfold sx0, sx1.
  change (N.shiftr (Byte.to_N Byte.x00) 4) with 0%N.
  now rewrite N.lor_0_r.
Qed.

Lemma b64encode_two a b :
  b64encode [a; b]
  = [b64char (sx0 a); b64char (sx1 a b); b64char (sx2 b Byte.x00); pad].
Proof.
  cbn [b64encode]. unfold sx0, sx1, sx2.
  change (N.shiftr (Byte.to_N Byte.x00) 6) with 0%N.
  now rewrite N.lor_0_r.
Qed.

(** One alphabet character through the decoder, by position in the
    quad. *)
Lemma a2b_step v s q l p n :
  (v < 64)%N ->
  a2b_base64 (b64char v :: s) q l p n
  = match q with
    | 0 => a2b_base64 s 1 v 0 n
    | 1 => emit (N.lor (N.shiftl l 2) (N.shiftr v 4))
             (a2b_base64 s 2 (N.land v 15) 0 (S n))
    | 2 => emit (N.lor (N.shiftl l 4) (N.shiftr v 2))
             (a2b_base64 s 3 (N.land v 3) 0 (S n))
    | _ => emit (N.lor (N.shiftl l 6) v) (a2b_base64 s 0 0 0 (S n))
    end.
Proof.
  intros H. cbn [a2b_base64].
  now rewrite b64char_not_pad, b64val_b64char by assumption.
Qed.

Lemma a2b_chunk a b c s l p n :
  a2b_base64 (b64char (sx0 a) :: b64char (sx1 a b) :: b64char (sx2 b c)
              :: b64char (sx3 c) :: s) 0 l p n
  = emit (Byte.to_N a) (emit (Byte.to_N b) (emit (Byte.to_N c)
      (a2b_base64 s 0 0 0 (S (S (S n)))))).
Proof.
  rewrite a2b_step by apply sx0_small.
  rewrite a2b_step by apply sx1_small.
  rewrite a2b_step by apply sx2_small.
  rewrite a2b_step by apply sx3_small.
  pose proof (first_octet a b) as H1.
  pose proof (second_octet a b c) as H2.
  pose proof (third_octet b c) as H3.
  unfold emit.
  destruct (a2b_base64 s 0 0 0 (S (S (S n)))); [|reflexivity].
  now rewrite H1, H2, H3, !byte_of_to_N.
Qed.

Lemma emit_val a r data :
  r = Val data -> emit (Byte.to_N a) r = Val (a :: data).
Proof. intros ->. cbn. now rewrite byte_of_to_N. Qed.

(** [b64decode] undoes [b64encode]. *)
Lemma a2b_b64encode data : forall l p n,
  a2b_base64 (b64encode data) 0 l p n = Val data.
Proof.
  induction data as [|a|a b|a b c rest IH] using triple_ind; intros l p n.
  - reflexivity.
  - rewrite b64encode_one.
    rewrite a2b_step by apply sx0_small.
    rewrite a2b_step by apply sx1_small.
    change (a2b_base64 [pad; pad] 2 (N.land (sx1 a Byte.x00) 15) 0 (S n))
      with (@Val bytes []).
    unfold emit. now rewrite first_octet.
  - rewrite b64encode_two.
    rewrite a2b_step by apply sx0_small.
    rewrite a2b_step by apply sx1_small.
    rewrite a2b_step by apply sx2_small.
    change (a2b_base64 [pad] 3 (N.land (sx2 b Byte.x00) 3) 0 (S (S n)))
      with (@Val bytes []).
    unfold emit. now rewrite first_octet, second_octet.
  - rewrite b64encode_chunk, a2b_chunk.
    do 3 apply emit_val. apply IH.
Qed.

Lemma b64encode_ascii data : forallb is_ascii (b64encode data) = true.
Proof.
  induction data as [|a|a b|a b c rest IH] using triple_ind.
  - reflexivity.
  - rewrite b64encode_one. cbn [forallb].
    now rewrite !b64char_ascii by (apply sx0_small || apply sx1_small).
  - rewrite b64encode_two. cbn [forallb].
    now rewrite !b64char_ascii
      by (apply sx0_small || apply sx1_small || apply sx2_small).
  - rewrite b64encode_chunk. cbn [forallb]. rewrite IH.
    now rewrite !b64char_ascii
      by (apply sx0_small || apply sx1_small || apply sx2_small
          || apply sx3_small).
Qed.

Lemma b64decode_b64encode data : b64decode (b64encode data) = Val data.
Proof.
  unfold b64decode. rewrite b64encode_ascii. apply a2b_b64encode.
Qed.

(** ** base64: a payload whose padding was stripped *)

Lemma rstrip_keeps a c s :
  char_eqb c a = false -> rstrip_char a (c :: s) = c :: rstrip_char a s.
Proof.
  intros H. cbn [rstrip_char]. rewrite H. now destruct (rstrip_char a s).
Qed.

Lemma rstrip_forallb p a s :
  forallb p s = true -> forallb p (rstrip_char a s) = true.
Proof.
  induction s as [|c s IH]; [reflexivity|]. cbn [forallb rstrip_char].
  intros H. apply andb_prop in H as [Hc Hs]. specialize (IH Hs).
  destruct (rstrip_char a s).
  - destruct (char_eqb c a); cbn; [reflexivity|now rewrite Hc].
  - cbn [forallb] in *. now rewrite Hc, IH.
Qed.

Lemma repeat_pad_ascii j : forallb is_ascii (repeat pad j) = true.
Proof. induction j; [reflexivity|exact IHj]. Qed.

Lemma pads_needed_chunk c0 c1 c2 c3 t :
  pads_needed (c0 :: c1 :: c2 :: c3 :: t) = pads_needed t.
Proof.
  unfold pads_needed. cbn [length].
  replace (S (S (S (S (length t))))) with (length t + 1 * 4) by lia.
  now rewrite Nat.Div0.mod_add.
Qed.

Lemma emit_exc x r e : r = Exc e -> emit x r = Exc e.
Proof. now intros ->. Qed.

(** The decoder on a stripped payload with [j] pads put back: the octets
    at the count the length asks for, [binascii.Error] below it. *)
Lemma a2b_stripped data : forall l p n,
  let t := rstrip_char pad (b64encode data) in
  a2b_base64 (t ++ repeat pad (pads_needed t)) 0 l p n = Val data
  /\ forall j, j < pads_needed t ->
     exists e, a2b_base64 (t ++ repeat pad j) 0 l p n = Exc e
               /\ exn_class_of e = BinasciiError.
Proof.
  induction data as [|a|a b|a b c rest IH] using triple_ind; intros l p n;
    cbv zeta.
  - split; [reflexivity|]. intros j Hj. inversion Hj.
  - rewrite b64encode_one.
    rewrite !rstrip_keeps by (apply b64char_not_pad;
                              (apply sx0_small || apply sx1_small)).
    change (rstrip_char pad [pad; pad]) with (@nil char).
    change (pads_needed [b64char (sx0 a); b64char (sx1 a Byte.x00)]) with 2.
    cbn [app repeat]. split.
    + rewrite a2b_step by apply sx0_small.
      rewrite a2b_step by apply sx1_small.
      change (a2b_base64 [pad; pad] 2 (N.land (sx1 a Byte.x00) 15) 0 (S n))
        with (@Val bytes []).
      unfold emit. now rewrite first_octet.
    + intros j Hj.
      assert (Hj' : j = 0 \/ j = 1) by lia.
      destruct Hj' as [-> | ->]; cbn [app repeat];
        rewrite a2b_step by apply sx0_small;
        rewrite a2b_step by apply sx1_small;
        (exists incorrect_padding; split;
          [apply emit_exc; reflexivity|reflexivity]).
  - rewrite b64encode_two.
    rewrite !rstrip_keeps by (apply b64char_not_pad;
                              (apply sx0_small || apply sx1_small
                               || apply sx2_small)).
    change (rstrip_char pad [pad]) with (@nil char).
    change (pads_needed [b64char (sx0 a); b64char (sx1 a b);
                         b64char (sx2 b Byte.x00)]) with 1.
    cbn [app repeat]. split.
    + rewrite a2b_step by apply sx0_small.
      rewrite a2b_step by apply sx1_small.
      rewrite a2b_step by apply sx2_small.
      change (a2b_base64 [pad] 3 (N.land (sx2 b Byte.x00) 3) 0 (S (S n)))
        with (@Val bytes []).
      unfold emit. now rewrite first_octet, second_octet.
    + intros j Hj. assert (j = 0) as -> by lia. cbn [app repeat].
      rewrite a2b_step by apply sx0_small.
      rewrite a2b_step by apply sx1_small.
      rewrite a2b_step by apply sx2_small.
      exists incorrect_padding. split; [|reflexivity].
      do 2 apply emit_exc. reflexivity.
  - rewrite b64encode_chunk.
    rewrite !rstrip_keeps by (apply b64char_not_pad;
                              (apply sx0_small || apply sx1_small
                               || apply sx2_small || apply sx3_small)).
    rewrite pads_needed_chunk. cbn [app].
    destruct (IH 0%N 0 (S (S (S n)))) as [IH1 IH2]. split.
    + rewrite a2b_chunk. do 3 apply emit_val. exact IH1.
    + intros j Hj. destruct (IH2 j Hj) as (e & He & Hc).
      exists e. split; [|exact Hc].
      rewrite a2b_chunk. do 3 apply emit_exc. exact He.
Qed.

Lemma b64decode_stripped data :
  let t := rstrip_char pad (b64encode data) in
  b64decode (t ++ repeat pad (pads_needed t)) = Val data
  /\ forall j, j < pads_needed t ->
     exists e, b64decode (t ++ repeat pad j) = Exc e
               /\ is_a BinasciiError e = true.
Proof.
  cbv zeta.
  assert (A : forall j, forallb is_ascii
                (rstrip_char pad (b64encode data) ++ repeat pad j) = true).
  { intros j. rewrite forallb_app, repeat_pad_ascii, andb_true_r.
    apply rstrip_forallb, b64encode_ascii. }
  unfold b64decode. destruct (a2b_stripped data 0%N 0 0) as [H1 H2]. split.
  - now rewrite A.
  - intros j Hj. rewrite A. destruct (H2 j Hj) as (e & He & Hc).
    exists e. split; [exact He|]. unfold is_a. now rewrite Hc.
Qed.

(** ** UTF-8: decoding what [encode] produced *)

Lemma to_N_byte_of_N n : (n < 256)%N -> Byte.to_N (byte_of_N n) = n.
Proof.
  intros H. unfold byte_of_N. rewrite N.mod_small by assumption.
  destruct (Byte.of_N n) as [b|] eqn:E.
  - now apply Byte.to_of_N.
  - apply Byte.of_N_None_iff in E. lia.
Qed.

Ltac settle_test :=
  match goal with
  | |- context [N.ltb ?a ?b] => destruct (N.ltb_spec a b); try lia
  | |- context [N.leb ?a ?b] => destruct (N.leb_spec a b); try lia
  | |- context [N.eqb ?a ?b] => destruct (N.eqb_spec a b); try lia
  end.

Lemma utf8_decode_1 b0 rest :
  (Byte.to_N b0 < 128)%N ->
  utf8_decode (b0 :: rest) = option_map (cons (Byte.to_N b0)) (utf8_decode rest).
Proof.
  intros H. cbn [utf8_decode]. cbv zeta. settle_test. reflexivity.
Qed.

Lemma utf8_decode_2 b0 b1 rest :
  (194 <= Byte.to_N b0 < 224)%N -> (128 <= Byte.to_N b1 < 192)%N ->
  utf8_decode (b0 :: b1 :: rest)
  = option_map (cons ((Byte.to_N b0 - 192) * 64 + (Byte.to_N b1 - 128))%N)
      (utf8_decode rest).
Proof.
  intros H0 H1. cbn [utf8_decode]. cbv zeta. unfold is_cont.
  repeat settle_test. reflexivity.
Qed.

Lemma utf8_decode_3 b0 b1 b2 rest :
  (224 <= Byte.to_N b0 < 240)%N ->
  (128 <= Byte.to_N b1 < 192)%N -> (128 <= Byte.to_N b2 < 192)%N ->
  (Byte.to_N b0 = 224 -> 160 <= Byte.to_N b1)%N ->
  (Byte.to_N b0 = 237 -> Byte.to_N b1 <= 159)%N ->
  utf8_decode (b0 :: b1 :: b2 :: rest)
  = option_map
      (cons ((Byte.to_N b0 - 224) * 4096 + (Byte.to_N b1 - 128) * 64
             + (Byte.to_N b2 - 128))%N)
      (utf8_decode rest).
Proof.
  intros H0 H1 H2 Hlo Hhi. cbn [utf8_decode]. cbv zeta. unfold is_cont.
  repeat settle_test; reflexivity.
Qed.

Lemma utf8_decode_4 b0 b1 b2 b3 rest :
  (240 <= Byte.to_N b0 < 245)%N ->
  (128 <= Byte.to_N b1 < 192)%N -> (128 <= Byte.to_N b2 < 192)%N ->
  (128 <= Byte.to_N b3 < 192)%N ->
  (Byte.to_N b0 = 240 -> 144 <= Byte.to_N b1)%N ->
  (Byte.to_N b0 = 244 -> Byte.to_N b1 <= 143)%N ->
  utf8_decode (b0 :: b1 :: b2 :: b3 :: rest)
  = option_map
      (cons ((Byte.to_N b0 - 240) * 262144 + (Byte.to_N b1 - 128) * 4096
             + (Byte.to_N b2 - 128) * 64 + (Byte.to_N b3 - 128))%N)
      (utf8_decode rest).
Proof.
  intros H0 H1 H2 H3 Hlo Hhi. cbn [utf8_decode]. cbv zeta. unfold is_cont.
  repeat settle_test; reflexivity.
Qed.

(** The digits of a code point in base 64. *)
Lemma base64_digits c :
  exists d0 d1 d2 d3 : N,
    (c = d3 * 262144 + d2 * 4096 + d1 * 64 + d0
     /\ d0 < 64 /\ d1 < 64 /\ d2 < 64
     /\ c mod 64 = d0 /\ (c / 64) mod 64 = d1 /\ (c / 4096) mod 64 = d2
     /\ c / 64 = d3 * 4096 + d2 * 64 + d1
     /\ c / 4096 = d3 * 64 + d2
     /\ c / 262144 = d3)%N.
Proof.
  exists (c mod 64)%N, ((c / 64) mod 64)%N, ((c / 4096) mod 64)%N,
    (c / 262144)%N.
  assert (E1 : (c / 4096 = c / 64 / 64)%N) by now rewrite N.Div0.div_div.
  assert (E2 : (c / 262144 = c / 4096 / 64)%N) by now rewrite N.Div0.div_div.
  pose proof (N.div_mod' c 64). pose proof (N.mod_lt c 64).
  pose proof (N.div_mod' (c / 64) 64). pose proof (N.mod_lt (c / 64) 64).
  pose proof (N.div_mod' (c / 4096) 64). pose proof (N.mod_lt (c / 4096) 64).
  rewrite E2. rewrite E1 in *. repeat split; lia.
Qed.

Lemma some_inj {X} (a b : X) : Some a = Some b -> a = b.
Proof. congruence. Qed.

Lemma utf8_decode_char c bs rest :
  utf8_encode_char c = Some bs ->
  utf8_decode (map byte_of_N bs ++ rest)
  = option_map (cons c) (utf8_decode rest).
Proof.
  unfold utf8_encode_char.
  destruct (base64_digits c)
    as (d0 & d1 & d2 & d3 & Hc & L0 & L1 & L2 & -> & -> & -> & -> & -> & ->).
  repeat settle_test; intros E; try discriminate E;
    apply some_inj in E; subst bs; cbv [map app].
  - rewrite utf8_decode_1; rewrite to_N_byte_of_N; try lia. reflexivity.
  - rewrite utf8_decode_2; rewrite ?to_N_byte_of_N; try lia.
    do 2 f_equal. lia.
  - rewrite utf8_decode_3; rewrite ?to_N_byte_of_N; try lia.
    do 2 f_equal. lia.
  - rewrite utf8_decode_3; rewrite ?to_N_byte_of_N; try lia.
    do 2 f_equal. lia.
  - rewrite utf8_decode_4; rewrite ?to_N_byte_of_N; try lia.
    do 2 f_equal. lia.
Qed.

Lemma utf8_decode_encode s data :
  utf8_encode s = Some data -> utf8_decode data = Some s.
Proof.
  revert data. induction s as [|c s IH]; intros data; cbn [utf8_encode].
  - now intros [= <-].
  - destruct (utf8_encode_char c) as [bs|] eqn:Ec; [|discriminate].
    destruct (utf8_encode s) as [rest|]; [|discriminate].
    intros [= <-]. rewrite (utf8_decode_char c bs rest Ec).
    now rewrite (IH rest eq_refl).
Qed.

(** ** C9: recognising the reroute shape *)

(** C9, as the claim states it, fails on the separator it names first: with
    the marker after [#t/?] the pattern of line 142 does not match (its
    [/?] is an optional slash, not a slash and a question mark). *)
Lemma reroute_after_query_separator_unrecognised :
  reroute_match (site ++ lit "#t" ++ lit "/?" ++ marker ++ lit "aGVsbG8=")
  = None.
Proof. vm_compute. reflexivity. Qed.

(** The slash of the pattern's [/?] is optional and its [?] is the
    quantifier, so a question mark right after the first slash of the
    fragment is in the way of the marker. *)
Lemma reroute_query_separator pre X rest :
  forallb (isnot "#") pre = true ->
  forallb (isnot "/") X = true ->
  reroute_match (site ++ pre ++ lit "#" ++ X ++ lit "/?" ++ rest) = None.
Proof.
  intros Hp HX.
  destruct (reroute_match (site ++ pre ++ lit "#" ++ X ++ lit "/?" ++ rest))
    as [m|] eqn:Hm; [|reflexivity].
  destruct (reroute_match_inv _ _ Hm)
    as (pre' & X' & o1 & o2 & c & s0 & E & Hp' & HX' & Ho1 & Ho2 & _ & _).
  apply app_inv_head in E.
  change (lit "#") with [ch "#"] in E. cbn [app] in E.
  apply split_first in E as [_ E]; [|assumption..].
  apply (f_equal (drop_while (isnot "/"))) in E.
  rewrite (drop_while_app _ X _ HX), (drop_while_app _ X' _ HX') in E.
  destruct Ho1 as [->| ->], Ho2 as [->|[->| ->]];
    vm_compute in E; congruence.
Qed.

(** C9 (amended): when the marker comes, after the site prefix and the
    first [#], behind a slash-free text followed by at most one [/] and
    then at most one [#] or [/] (so behind [#...], [#.../], [#...#],
    [#.../#] or [#...//]), the reroute shape is recognised and group 1 is
    the payload verbatim: the rest of the marker's line, which must not be
    empty.  When the first [/] after the first [#] is followed by [?], as
    in the separator [#.../?], the reroute shape is not recognised,
    whatever comes after, the marker included.  The extraction is a total
    function into [option]: no match is [None], never an exception. *)
Theorem reroute_recognition :
  (forall pre X o1 o2 payload rest,
     forallb (isnot "#") pre = true ->
     forallb (isnot "/") X = true ->
     o1 = [] \/ o1 = lit "/" ->
     o2 = [] \/ o2 = lit "#" \/ o2 = lit "/" ->
     payload <> [] ->
     forallb dot payload = true ->
     rest = [] \/ (exists r, rest = 10%N :: r) ->
     exists m,
       reroute_match
         (site ++ pre ++ lit "#" ++ X ++ o1 ++ o2 ++ marker ++ payload ++ rest)
       = Some m
       /\ group m 1 = payload)
  /\ (forall pre X rest,
       forallb (isnot "#") pre = true ->
       forallb (isnot "/") X = true ->
       reroute_match (site ++ pre ++ lit "#" ++ X ++ lit "/?" ++ rest)
       = None).
Proof.
  split; [|exact reroute_query_separator].
  intros pre X o1 o2 payload rest Hp HX Ho1 Ho2 Hne Hdot Hrest.
  destruct payload as [|c s0]; [congruence|]. simpl in Hdot.
  apply andb_prop in Hdot as [Hc Hs0].
  destruct (reroute_matches pre X o1 o2 c (s0 ++ rest) Hp HX Ho1 Ho2 Hc)
    as (m & Hm).
  exists m. split; [exact Hm|].
  destruct (reroute_match_inv _ _ Hm)
    as (pre' & X' & o1' & o2' & c' & s0' & E & Hp' & HX' & Ho1' & Ho2' & Hc' & G).
  rewrite G.
  change ((c :: s0) ++ rest) with (c :: s0 ++ rest) in E.
  apply reroute_tail_unique in E; try assumption.
  inversion E; subst c' s0'.
  f_equal. rewrite take_while_app by assumption.
  destruct Hrest as [->|(r & ->)]; simpl; apply app_nil_r.
Qed.

Lemma reroute_recognition_witness :
  (exists m,
     reroute_match
       (site ++ [] ++ lit "#" ++ lit "t" ++ lit "/" ++ [] ++ marker
        ++ lit "aGVsbG8=" ++ [])
     = Some m
     /\ group m 1 = lit "aGVsbG8=")
  /\ reroute_match
       (site ++ [] ++ lit "#" ++ lit "page" ++ lit "/?"
        ++ (marker ++ lit "aGVsbG8="))
     = None.
Proof.
  destruct reroute_recognition as [Hyes Hno]. split.
  - apply Hyes.
    + reflexivity.
    + reflexivity.
    + right. reflexivity.
    + left. reflexivity.
    + discriminate.
    + reflexivity.
    + left. reflexivity.
  - apply (Hno [] (lit "page") (marker ++ lit "aGVsbG8=")).
    + reflexivity.
    + reflexivity.
Defined.

(** ** Running the cascade symbolically *)

Arguments reroute_match : simpl never.
Arguments standard_match : simpl never.
Arguments b64decode : simpl never.
Arguments utf8_decode : simpl never.
Arguments skipn : simpl never.
Arguments short : simpl never.
Arguments group : simpl never.
Arguments failed_to_decode : simpl never.
Arguments lit : simpl never.
Arguments accept_toast : simpl never.
Arguments body_content : simpl never.
Arguments contains : simpl never.
Arguments re_search : simpl never.
Arguments split : simpl never.
Arguments str_of_Z : simpl never.
Arguments pad_to_quad : simpl never.
Arguments js_payload : simpl never.
Arguments repeat : simpl never.

(** Symbolic execution: unfold the statements of the program and the
    monad under them, and nothing of the libraries. *)
Ltac exec :=
  cbv beta iota zeta delta
    [decode_hashlink cascade reroute_strategy standard_strategy
     padding_loop padding_attempt skip_loop skip_attempt header_lengths
     js_strategy fetch_strategy
     v1_retry hash_part returning or_else for_each b64decode_call
     lzma_decompress_call requests_get_call decode_utf8 log raise
     try_except bind tell lift ret get_version set_version seq] in *;
  cbn [app evs res ver] in *.

(** The same for the monad alone: the statements named stay folded. *)
Ltac exec_monad :=
  cbv beta iota zeta delta
    [returning or_else b64decode_call lzma_decompress_call
     requests_get_call decode_utf8 log raise try_except bind tell lift ret
     get_version set_version after] in *;
  cbn [app evs res ver] in *.

(** Split on the innermost undecided test of the goal. *)
Ltac innermost t :=
  match t with
  | context [match ?y with _ => _ end] => innermost y
  | _ => t
  end.

Ltac case_step :=
  match goal with
  | |- context [match ?x with _ => _ end] =>
      let y := innermost x in destruct y eqn:?
  end; exec.

(** ** C1: a reroute that fails to decode ends the cascade *)

(** C1: when the reroute pattern matches and its payload does not decode
    (base64 raises, or the bytes are not UTF-8), [decode_hashlink] returns
    the terminal failure "Invalid base64 data in reroute" under the reroute
    label at once: the run consists of the start record, the reroute
    check, the one base64 call and the error record, so no event of
    strategies 2 to 4 (no LZMA call, no JS call, no GET) occurs. *)
Theorem reroute_failure_is_terminal io h m :
  reroute_match h = Some m ->
  match b64decode (group m 1) with
  | Val data => utf8_decode data = None
  | Exc _ => True
  end ->
  exists e,
    decode_hashlink io h
    = Run (Val (Some (Failed (failed_to_decode
                              ++ lit "Invalid base64 data in reroute")
                        v_reroute)))
        v_reroute
        [Log (Starting (short h)); Log RerouteCheck;
         Call (B64Decode (group m 1)); Log (RerouteInvalid e)]
    /\ Forall (in_strategy 1)
         (evs (decode_hashlink io h)).
Proof.
  intros Hm Hfail.
  exec. rewrite Hm. exec.
  destruct (b64decode (group m 1)) as [data|e] eqn:E; exec.
  - rewrite Hfail. exec. eexists. split; [reflexivity|].
    repeat (apply Forall_cons; [unfold in_strategy; cbn; auto|]).
    apply Forall_nil.
  - eexists. split; [reflexivity|].
    repeat (apply Forall_cons; [unfold in_strategy; cbn; auto|]).
    apply Forall_nil.
Qed.

Lemma reroute_failure_is_terminal_witness :
  exists e,
    decode_hashlink offline
      (lit "https://itty.bitty.site/#t/data:text/html;charset=utf-8;base64,A")
    = Run (Val (Some (Failed (failed_to_decode
                              ++ lit "Invalid base64 data in reroute")
                        v_reroute)))
        v_reroute
        [Log (Starting (lit "https:...se64,A")); Log RerouteCheck;
         Call (B64Decode (lit "A")); Log (RerouteInvalid e)]
    /\ Forall (in_strategy 1)
         (evs (decode_hashlink offline
            (lit "https://itty.bitty.site/#t/data:text/html;charset=utf-8;base64,A"))).
Proof.
  destruct (reroute_match
    (lit "https://itty.bitty.site/#t/data:text/html;charset=utf-8;base64,A"))
    as [m|] eqn:Hm; [|vm_compute in Hm; discriminate].
  pose proof (reroute_failure_is_terminal offline _ m Hm) as T.
  assert (G : group m 1 = lit "A").
  { vm_compute in Hm. inversion Hm. reflexivity. }
  rewrite G in T. apply T. vm_compute. exact I.
Defined.

(** ** The fetch always returns *)

Lemma fetch_strategy_returns io h v :
  exists x, fetch_strategy io h v = Run (Val (Some x)) v_fetch (evs (fetch_strategy io h v)).
Proof.
  exec. repeat case_step; eexists; reflexivity.
Qed.

(** ** C8: how the fetch from the official site fails *)

(** C8: the fetch's first GET goes to the hashlink with a timeout of 10
    seconds, as does every GET of the strategy; the strategy always ends in
    a returned pair; a status other than 200, a connection failure (which
    a connect timeout is) and any other exception (a read timeout among
    them) each give a terminal failure under the fetch label; and the text
    for a bad status is never the text for no connectivity. *)
Theorem fetch_failures_are_terminal io h v :
  let r := fetch_strategy io h v in
  (exists tl, evs r = Log FetchAttempt :: Call (HttpGet h 10) :: tl)
  /\ Forall (fun ev => forall url t, ev = Call (HttpGet url t) -> t = 10%N)
       (evs r)
  /\ (exists x, res r = Val (Some x))
  /\ match requests_get io 0 h 10 with
     | Val response =>
         status_code response <> 200%Z ->
         r = Run (Val (Some (Failed (bad_status_message (status_code response))
                               v_fetch)))
               v_fetch
               [Log FetchAttempt; Call (HttpGet h 10);
                Log (InitialStatus (status_code response))]
     | Exc e =>
         if is_a ConnectionError e
         then r = Run (Val (Some (Failed no_network_message v_fetch))) v_fetch
                    [Log FetchAttempt; Call (HttpGet h 10); Log NoNetwork]
         else r = Run (Val (Some (Failed (fetch_failed_message e) v_fetch)))
                    v_fetch
                    [Log FetchAttempt; Call (HttpGet h 10); Log (FetchFailed e)]
     end
  /\ (forall status, bad_status_message status <> no_network_message).
Proof.
  exec. repeat split.
  - repeat case_step; eexists; reflexivity.
  - repeat case_step; repeat constructor; intros url t E; now inversion E.
  - repeat case_step; eexists; reflexivity.
  - destruct (requests_get io 0 h 10) as [response|e]; exec.
    + intros Hs. apply Z.eqb_neq in Hs. rewrite Hs. reflexivity.
    + destruct (is_a ConnectionError e); reflexivity.
  - intros status E. unfold bad_status_message, no_network_message in E.
    apply app_inv_head in E. vm_compute in E. discriminate.
Qed.

(** ** C7: the v1 redirect *)

(** C7 fails as stated: here the first page asks for the redirect, the one
    retried GET comes back with a page that has no body, and the content
    returned is the first page's, under the plain fetch label. *)
Lemma retry_without_body_returns_first_page :
  filter is_get
    (evs (decode_hashlink (redirecting 200 (lit "moved"))
            (lit "https://itty.bitty.site/#x")))
  = [Call (HttpGet (lit "https://itty.bitty.site/#x") 10);
     Call (HttpGet (lit "https://itty.bitty.site/v1/#x") 10)]
  /\ body_content (accept_toast (lit "moved")) = None
  /\ res (decode_hashlink (redirecting 200 (lit "moved"))
            (lit "https://itty.bitty.site/#x"))
     = Val (Some (Decoded (lit "old page") v_fetch)).
Proof. vm_compute. auto. Qed.

(** C7 (amended): when the first response has status 200, its body after
    the overlay rewrite contains the redirect marker and the hashlink has
    a [#], exactly one more GET is issued, to
    [https://itty.bitty.site/v1/#] followed by the text between the first
    and the second [#] of the hashlink, with the same timeout of 10.  If
    that retry has status 200 and its body, after the same overlay rewrite,
    has body tags, the content between them is returned, stripped, under
    the label "Fail-safe (official site) (via v1 retry)".  If the retry has
    another status or no body tags, the content is taken from the first
    response under the plain label (or the extraction failure is returned
    when it has none either); if the retry raises, the fetch's failure for
    that exception is returned. *)
Theorem v1_redirect_retry io h v response part :
  requests_get io 0 h 10 = Val response ->
  status_code response = 200%Z ->
  re_search redirect_re (accept_toast (text response)) <> None ->
  nth_error (split (lit "#") h) 1 = Some part ->
  let retry_url := lit "https://itty.bitty.site/v1/#" ++ part in
  let r := fetch_strategy io h v in
  let from_first :=
    match body_content (accept_toast (text response)) with
    | Some content => Decoded content v_fetch
    | None => Failed no_body_message v_fetch
    end in
  filter is_get (evs r)
  = [Call (HttpGet h 10); Call (HttpGet retry_url 10)]
  /\ match requests_get io 1 retry_url 10 with
     | Val retry =>
         if (status_code retry =? 200)%Z then
           match body_content (accept_toast (text retry)) with
           | Some content =>
               res r = Val (Some (Decoded content (v_fetch ++ via_v1_retry)))
           | None => res r = Val (Some from_first)
           end
         else res r = Val (Some from_first)
     | Exc e =>
         res r = Val (Some (Failed (if is_a ConnectionError e
                                    then no_network_message
                                    else fetch_failed_message e) v_fetch))
     end.
Proof.
  intros Hget Hstatus Hredirect Hpart. cbv zeta.
  exec. rewrite Hget. exec. rewrite Hstatus, Z.eqb_refl. exec.
  destruct (re_search redirect_re (accept_toast (text response)))
    as [found|] eqn:Hfound; [|congruence].
  rewrite Hpart.
  destruct (contains toast_marker (text response)); exec;
    (destruct (requests_get io 1 (lit "https://itty.bitty.site/v1/#" ++ part) 10)
       as [retry|e] eqn:Hretry; exec;
     [ destruct (status_code retry =? 200)%Z; exec;
       [ destruct (contains toast_marker (text retry)); exec;
         (destruct (body_content (accept_toast (text retry))); exec;
          [ split; reflexivity
          | destruct (body_content (accept_toast (text response)));
            split; reflexivity ])
       | destruct (body_content (accept_toast (text response)));
         split; reflexivity ]
     | destruct (is_a ConnectionError e); split; reflexivity ]).
Qed.

Lemma v1_redirect_retry_witness :
  filter is_get
    (evs (fetch_strategy (redirecting 200 (lit "<BODY class=x> new page </body>"))
            (lit "https://itty.bitty.site/#x") v_unknown))
  = [Call (HttpGet (lit "https://itty.bitty.site/#x") 10);
     Call (HttpGet (lit "https://itty.bitty.site/v1/#" ++ lit "x") 10)]
  /\ res (fetch_strategy (redirecting 200 (lit "<BODY class=x> new page </body>"))
            (lit "https://itty.bitty.site/#x") v_unknown)
     = Val (Some (Decoded (lit "new page") (v_fetch ++ via_v1_retry))).
Proof.
  exact (v1_redirect_retry
           (redirecting 200 (lit "<BODY class=x> new page </body>"))
           (lit "https://itty.bitty.site/#x") v_unknown
           {| status_code := 200;
              text := lit "<body>old page</body>" ++ redirect_marker |}
           (lit "x") eq_refl eq_refl
           ltac:(vm_compute; discriminate) eq_refl).
Defined.

(** ** C10: a hashlink of no known shape is handed whole to the JS worker *)

Lemma split_from_absent sep s : forall fuel cur,
  contains sep s = false -> length s < fuel ->
  split_from fuel sep s cur = [rev cur ++ s].
Proof.
  induction s as [|c s IH]; intros fuel cur Hc Hf;
    (destruct fuel as [|fuel]; [inversion Hf|]); simpl.
  - now rewrite app_nil_r.
  - simpl in Hc. apply orb_false_elim in Hc as [Hs Hc].
    unfold startswith in Hs.
    destruct (strip_prefix sep (c :: s)); [discriminate|].
    rewrite IH; [|assumption|simpl in Hf; lia].
    simpl. now rewrite <- app_assoc.
Qed.

Lemma split_absent sep s : contains sep s = false -> split sep s = [s].
Proof.
  intros H. unfold split. rewrite split_from_absent; auto.
Qed.




(** ** Loops that may return *)

Lemma for_each_cons {X R} (x : X) xs (body : X -> M (option R)) v :
  for_each (x :: xs) body v
  = match body x v with
    | Run (Val None) v' t => after t (for_each xs body v')
    | Run (Val (Some y)) v' t => Run (Val (Some y)) v' t
    | Run (Exc e) v' t => Run (Exc e) v' t
    end.
Proof.
  cbn [for_each]. unfold bind at 1.
  destruct (body x v) as [[[y|]|e] v' t]; cbn.
  - unfold ret. now rewrite app_nil_r.
  - unfold after. now destruct (for_each xs body v').
  - reflexivity.
Qed.

Lemma for_each_quiet {X R} xs (body : X -> M (option R)) v :
  Forall (quiet body v) xs ->
  for_each xs body v
  = Run (Val None) v (flat_map (fun x => evs (body x v)) xs).
Proof.
  induction 1 as [|x xs [Hr Hv] _ IH]; [reflexivity|].
  rewrite for_each_cons. cbn [flat_map].
  destruct (body x v) as [o v' t]; cbn in *. subst o v'.
  rewrite IH. reflexivity.
Qed.

Lemma for_each_stops {X R} pre x post (body : X -> M (option R)) v :
  Forall (quiet body v) pre ->
  res (body x v) <> Val None ->
  for_each (pre ++ x :: post) body v
  = after (flat_map (fun y => evs (body y v)) pre) (body x v).
Proof.
  intros Hpre Hx. induction Hpre as [|y pre [Hr Hv] _ IH]; cbn [app flat_map].
  - rewrite for_each_cons. unfold after.
    destruct (body x v) as [[[r|]|e] v' t]; cbn in *; congruence.
  - rewrite for_each_cons.
    destruct (body y v) as [o v' t]; cbn in *. subst o v'.
    rewrite IH. unfold after. cbn. now rewrite app_assoc.
Qed.

(** Every run of a loop is one of the two above. *)
Lemma for_each_cases {X R} xs (body : X -> M (option R)) v :
  (forall x, res (body x v) = Val None -> ver (body x v) = v) ->
  Forall (quiet body v) xs
  \/ exists pre x post,
       xs = pre ++ x :: post /\ Forall (quiet body v) pre
       /\ res (body x v) <> Val None.
Proof.
  intros Hv. induction xs as [|x xs IH]; [left; constructor|].
  destruct (res (body x v)) as [[r|]|e] eqn:E.
  - right. exists [], x, xs. repeat split; [constructor|congruence].
  - destruct IH as [IH|(pre & y & post & -> & Hpre & Hy)].
    + left. constructor; [split; auto|assumption].
    + right. exists (x :: pre), y, post.
      repeat split; [constructor; [split; auto|assumption]|assumption].
  - right. exists [], x, xs. repeat split; [constructor|congruence].
Qed.

(** A loop goes past the elements at which its body is quiet. *)
Lemma for_each_passes {X R} pre post (body : X -> M (option R)) v :
  Forall (quiet body v) pre ->
  for_each (pre ++ post) body v
  = after (flat_map (fun y => evs (body y v)) pre) (for_each post body v).
Proof.
  induction 1 as [|x pre [Hr Hv] _ IH]; cbn [app flat_map].
  - unfold after. now destruct (for_each post body v).
  - rewrite for_each_cons.
    destruct (body x v) as [o v' t]. cbn in Hr, Hv. subst o v'.
    rewrite IH. unfold after. cbn [res ver evs]. now rewrite app_assoc.
Qed.


(** ** One attempt of strategy 2 *)

Lemma skip_attempt_run io c s v :
  skip_attempt io c s v
  = match lzma_decompress io (skipn s c) with
    | Val d =>
        match utf8_decode d with
        | Some doc =>
            Run (Val (Some (Decoded doc v))) v
              [Call (LzmaDecompress (skipn s c)); Log PaddingSuccess]
        | None =>
            Run (Exc (undecodable io d)) v
              [Call (LzmaDecompress (skipn s c)); Log PaddingSuccess]
        end
    | Exc e =>
        if is_a LZMAError e
        then Run (Val None) v
               [Call (LzmaDecompress (skipn s c)); Log (LzmaFailed s e)]
        else Run (Exc e) v [Call (LzmaDecompress (skipn s c))]
    end.
Proof.
  unfold skip_attempt. exec.
  destruct (lzma_decompress io (skipn s c)) as [d|e]; exec.
  - destruct (utf8_decode d); reflexivity.
  - destruct (is_a LZMAError e); reflexivity.
Qed.

Lemma padding_attempt_run io part p v :
  padding_attempt io part p v
  = after [Log (PaddingAttempt p); Call (B64Decode (part ++ repeat pad p))]
      match b64decode (part ++ repeat pad p) with
      | Val c =>
          match skip_loop io c v with
          | Run (Exc e) v' t =>
              if is_a BinasciiError e
              then Run (Val None) v' (t ++ [Log (PaddingFailed p e)])
              else Run (Exc e) v' t
          | r => r
          end
      | Exc e =>
          if is_a BinasciiError e
          then Run (Val None) v [Log (PaddingFailed p e)]
          else Run (Exc e) v []
      end.
Proof.
  unfold padding_attempt, after.
  cbv beta iota zeta delta
    [b64decode_call log raise try_except bind tell lift ret].
  cbn [app evs res ver].
  destruct (b64decode (part ++ repeat pad p)) as [c|e]; cbn [app evs res ver].
  - destruct (skip_loop io c v) as [[r|e] v' t]; cbn [app evs res ver];
      [reflexivity|].
    destruct (is_a BinasciiError e); cbn [app evs res ver]; reflexivity.
  - destruct (is_a BinasciiError e); reflexivity.
Qed.

(** Strategy 2 never assigns [version]. *)
Lemma skip_attempt_ver io c s v : ver (skip_attempt io c s v) = v.
Proof.
  rewrite skip_attempt_run.
  destruct (lzma_decompress io (skipn s c)) as [d|e];
    [destruct (utf8_decode d)|destruct (is_a LZMAError e)]; reflexivity.
Qed.

Lemma for_each_ver {X R} xs (body : X -> M (option R)) v :
  (forall x v', ver (body x v') = v') -> ver (for_each xs body v) = v.
Proof.
  intros Hv. induction xs as [|x xs IH]; [reflexivity|].
  rewrite for_each_cons. specialize (Hv x v).
  destruct (body x v) as [[[r|]|e] v' t]; cbn in *; congruence.
Qed.

Lemma skip_loop_ver io c v : ver (skip_loop io c v) = v.
Proof. apply for_each_ver. intros. apply skip_attempt_ver. Qed.

Lemma padding_attempt_ver io part p v : ver (padding_attempt io part p v) = v.
Proof.
  rewrite padding_attempt_run. unfold after. cbn [ver].
  destruct (b64decode (part ++ repeat pad p)) as [c|e].
  - pose proof (skip_loop_ver io c v) as H.
    destruct (skip_loop io c v) as [[r|e] v' t]; cbn in *; [assumption|].
    destruct (is_a BinasciiError e); assumption.
  - destruct (is_a BinasciiError e); reflexivity.
Qed.

Lemma padding_loop_ver io part v : ver (padding_loop io part v) = v.
Proof. apply for_each_ver. intros. apply padding_attempt_ver. Qed.

(** ** The whole of strategy 2 *)

Lemma lzma_calls_app t1 t2 : lzma_calls (t1 ++ t2) = lzma_calls t1 ++ lzma_calls t2.
Proof. apply flat_map_app. Qed.

Lemma lzma_inputs_app io part c1 c2 :
  lzma_inputs io part (c1 ++ c2) = lzma_inputs io part c1 ++ lzma_inputs io part c2.
Proof. apply flat_map_app. Qed.

Lemma lzma_calls_flat_map {X} (f : X -> trace) xs :
  lzma_calls (flat_map f xs) = flat_map (fun x => lzma_calls (f x)) xs.
Proof.
  induction xs as [|x xs IH]; [reflexivity|].
  cbn [flat_map]. now rewrite lzma_calls_app, IH.
Qed.

Lemma flat_map_singleton {X Y} (f : X -> Y) xs :
  flat_map (fun x => [f x]) xs = map f xs.
Proof. induction xs as [|x xs IH]; [reflexivity|]. cbn. now rewrite IH. Qed.

(** A skip offset at which LZMA raises [LZMAError] is passed over. *)
Lemma skip_attempt_quiet io c s v :
  (exists e, lzma_decompress io (skipn s c) = Exc e /\ is_a LZMAError e = true) ->
  quiet (skip_attempt io c) v s.
Proof.
  intros (e & He & Hl). unfold quiet. rewrite skip_attempt_run, He, Hl.
  split; reflexivity.
Qed.

Lemma skip_attempt_lzma_calls io c s v :
  lzma_calls (evs (skip_attempt io c s v)) = [skipn s c].
Proof.
  rewrite skip_attempt_run.
  destruct (lzma_decompress io (skipn s c)) as [d|e];
    [destruct (utf8_decode d)|destruct (is_a LZMAError e)]; reflexivity.
Qed.

Lemma skip_loop_fails io c v :
  Forall (fun s => exists e, lzma_decompress io (skipn s c) = Exc e
                             /\ is_a LZMAError e = true) header_lengths ->
  res (skip_loop io c v) = Val None
  /\ lzma_calls (evs (skip_loop io c v)) = map (fun s => skipn s c) header_lengths.
Proof.
  intros H. unfold skip_loop. rewrite for_each_quiet.
  - split; [reflexivity|]. cbn [evs]. rewrite lzma_calls_flat_map.
    rewrite flat_map_ext with (g := fun s => [skipn s c])
      by (intros; apply skip_attempt_lzma_calls).
    apply flat_map_singleton.
  - eapply Forall_impl; [|exact H]. intros s Hs.
    now apply skip_attempt_quiet.
Qed.

Lemma lzma_inputs_row io part p c ss :
  b64decode (part ++ repeat pad p) = Val c ->
  lzma_inputs io part (map (pair p) ss) = map (fun s => skipn s c) ss.
Proof.
  intros E. induction ss as [|s ss IH]; [reflexivity|].
  cbn [map lzma_inputs flat_map fst snd]. rewrite E.
  cbn [app]. f_equal. exact IH.
Qed.

Lemma lzma_inputs_row_undecoded io part p e ss :
  b64decode (part ++ repeat pad p) = Exc e ->
  lzma_inputs io part (map (pair p) ss) = [].
Proof.
  intros E. induction ss as [|s ss IH]; [reflexivity|].
  cbn [map lzma_inputs flat_map fst snd]. rewrite E. exact IH.
Qed.

Lemma skips_fail io part p c ss :
  b64decode (part ++ repeat pad p) = Val c ->
  Forall (fun s => combination_fails io part (p, s)) ss ->
  Forall (fun s => exists e, lzma_decompress io (skipn s c) = Exc e
                             /\ is_a LZMAError e = true) ss.
Proof.
  intros E H. eapply Forall_impl; [|exact H].
  intros s Hs. unfold combination_fails in Hs. cbn [fst snd] in Hs.
  now rewrite E in Hs.
Qed.

(** A padding count all of whose combinations fail is passed over. *)
Lemma padding_attempt_quiet io part p v :
  Forall (fun s => combination_fails io part (p, s)) header_lengths ->
  quiet (padding_attempt io part) v p
  /\ lzma_calls (evs (padding_attempt io part p v))
     = lzma_inputs io part (map (pair p) header_lengths).
Proof.
  intros H. unfold quiet. rewrite padding_attempt_run.
  destruct (b64decode (part ++ repeat pad p)) as [c|e] eqn:E.
  - rewrite (lzma_inputs_row io part p c header_lengths E).
    destruct (skip_loop_fails io c v (skips_fail io part p c _ E H)) as [Hr Hc].
    pose proof (skip_loop_ver io c v) as Hv.
    destruct (skip_loop io c v) as [o v' t]. cbn in Hr, Hc, Hv. subst o v'.
    unfold after. cbn [res ver evs]. rewrite lzma_calls_app. auto.
  - rewrite (lzma_inputs_row_undecoded io part p e _ E).
    inversion H as [|s ss Hs _]; subst. unfold combination_fails in Hs.
    cbn [fst] in Hs. rewrite E in Hs. rewrite Hs. auto.
Qed.

(** At the first skip offset that decompresses, the padding count ends the
    loops: with the document when the bytes are UTF-8, with the decoding
    error when they are not. *)
Lemma padding_attempt_stops io part p v ss1 s ss2 data :
  header_lengths = ss1 ++ s :: ss2 ->
  Forall (fun s' => combination_fails io part (p, s')) ss1 ->
  try_combination io part (p, s) = Val data ->
  res (padding_attempt io part p v)
  = match utf8_decode data with
    | Some doc => Val (Some (Decoded doc v))
    | None => Exc (undecodable io data)
    end
  /\ lzma_calls (evs (padding_attempt io part p v))
     = lzma_inputs io part (map (pair p) (ss1 ++ [s])).
Proof.
  intros Hsplit Hpre Hok. unfold try_combination in Hok. cbn [fst snd] in Hok.
  rewrite padding_attempt_run.
  destruct (b64decode (part ++ repeat pad p)) as [c|e] eqn:E; [|discriminate].
  rewrite (lzma_inputs_row io part p c _ E).
  assert (Hs : skip_attempt io c s v
               = match utf8_decode data with
                 | Some doc =>
                     Run (Val (Some (Decoded doc v))) v
                       [Call (LzmaDecompress (skipn s c)); Log PaddingSuccess]
                 | None =>
                     Run (Exc (undecodable io data)) v
                       [Call (LzmaDecompress (skipn s c)); Log PaddingSuccess]
                 end).
  { now rewrite skip_attempt_run, Hok. }
  unfold skip_loop. rewrite Hsplit, for_each_stops.
  - rewrite Hs. unfold after.
    assert (A : lzma_calls (flat_map (fun y => evs (skip_attempt io c y v)) ss1)
                = map (fun s => skipn s c) ss1).
    { rewrite lzma_calls_flat_map.
      rewrite (flat_map_ext _ _ (fun s' => skip_attempt_lzma_calls io c s' v)).
      apply flat_map_singleton. }
    destruct (utf8_decode data); cbn [res ver evs];
      try change (is_a BinasciiError (undecodable io data)) with false;
      cbn [res ver evs]; rewrite !lzma_calls_app, A, map_app; auto.
  - eapply Forall_impl; [|exact (skips_fail io part p c _ E Hpre)].
    intros s' Hs'. now apply skip_attempt_quiet.
  - rewrite Hs. destruct (utf8_decode data); discriminate.
Qed.

(** Where a combination sits in the nested order. *)
Lemma combinations_split earlier p s later :
  combinations = earlier ++ (p, s) :: later ->
  exists ps1 ps2 ss1 ss2,
    seq 0 4 = ps1 ++ p :: ps2
    /\ header_lengths = ss1 ++ s :: ss2
    /\ earlier = list_prod ps1 header_lengths ++ map (pair p) ss1.
Proof.
  intros H. unfold combinations in H. cbn in H.
  do 16 (destruct earlier as [|[? ?] earlier]; cbn [app] in H;
         [ injection H as Hp Hs _;
           exists (seq 0 p), (seq (S p) (3 - p)),
                  (filter (fun x => x <? s) header_lengths),
                  (filter (fun x => s <? x) header_lengths);
           subst p s; repeat split; reflexivity
         | injection H as <- <- H ]).
  destruct earlier; discriminate.
Qed.

Lemma Forall_list_prod {X Y} (P : X * Y -> Prop) xs ys :
  Forall P (list_prod xs ys) -> Forall (fun x => Forall (fun y => P (x, y)) ys) xs.
Proof.
  induction xs as [|x xs IH]; intros H; [constructor|].
  cbn [list_prod] in H. apply Forall_app in H as [H1 H2].
  constructor; [|now apply IH].
  apply (proj1 (Forall_map _ _ _)) in H1. exact H1.
Qed.

Lemma lzma_inputs_list_prod io part ps :
  lzma_inputs io part (list_prod ps header_lengths)
  = flat_map (fun p => lzma_inputs io part (map (pair p) header_lengths)) ps.
Proof.
  induction ps as [|p ps IH]; [reflexivity|].
  cbn [list_prod flat_map]. now rewrite lzma_inputs_app, IH.
Qed.

Lemma padding_rows_quiet io part v ps :
  Forall (fun p => Forall (fun s => combination_fails io part (p, s))
                     header_lengths) ps ->
  Forall (quiet (padding_attempt io part) v) ps
  /\ lzma_calls (flat_map (fun p => evs (padding_attempt io part p v)) ps)
     = lzma_inputs io part (list_prod ps header_lengths).
Proof.
  intros H. rewrite lzma_inputs_list_prod, lzma_calls_flat_map.
  induction H as [|p ps Hp _ [IH1 IH2]]; [split; [constructor|reflexivity]|].
  destruct (padding_attempt_quiet io part p v Hp) as [Hq Hc].
  split; [now constructor|]. cbn [flat_map]. now rewrite Hc, IH2.
Qed.

(** The loops stop at the first combination, in nested order, that gets
    through base64 and LZMA; the LZMA calls made are those of the
    combinations up to it. *)
Lemma padding_loop_stops io part v earlier p s later data :
  combinations = earlier ++ (p, s) :: later ->
  Forall (combination_fails io part) earlier ->
  try_combination io part (p, s) = Val data ->
  res (padding_loop io part v)
  = match utf8_decode data with
    | Some doc => Val (Some (Decoded doc v))
    | None => Exc (undecodable io data)
    end
  /\ lzma_calls (evs (padding_loop io part v))
     = lzma_inputs io part (earlier ++ [(p, s)]).
Proof.
  intros Hsplit Hbefore Hok.
  destruct (combinations_split earlier p s later Hsplit)
    as (ps1 & ps2 & ss1 & ss2 & Hps & Hss & ->).
  apply Forall_app in Hbefore as [Hrows Hrow].
  apply Forall_list_prod in Hrows.
  apply (proj1 (Forall_map _ _ _)) in Hrow.
  destruct (padding_rows_quiet io part v ps1 Hrows) as [Hq Hc].
  destruct (padding_attempt_stops io part p v ss1 s ss2 data Hss Hrow Hok)
    as [Hr Hl].
  unfold padding_loop. rewrite Hps, for_each_stops.
  - unfold after. cbn [res evs]. split; [exact Hr|].
    rewrite lzma_calls_app, Hc, Hl, <- app_assoc, !lzma_inputs_app.
    f_equal. rewrite map_app, lzma_inputs_app. reflexivity.
  - exact Hq.
  - rewrite Hr. destruct (utf8_decode data); discriminate.
Qed.

(** When all sixteen combinations fail, the loops end without a return,
    having made the LZMA calls of every combination that got through
    base64. *)
Lemma padding_loop_falls_through io part v :
  Forall (combination_fails io part) combinations ->
  padding_loop io part v
  = Run (Val None) v
      (flat_map (fun p => evs (padding_attempt io part p v)) (seq 0 4))
  /\ lzma_calls (evs (padding_loop io part v))
     = lzma_inputs io part combinations.
Proof.
  intros H. apply Forall_list_prod in H.
  destruct (padding_rows_quiet io part v (seq 0 4) H) as [Hq Hc].
  unfold padding_loop. rewrite for_each_quiet by exact Hq.
  split; [reflexivity|exact Hc].
Qed.

(** ** Strategy 2 inside [decode_hashlink] *)

Lemma js_strategy_starts io h v :
  exists tl, evs (js_strategy io h v) = Log JsAttempt :: tl.
Proof.
  unfold js_strategy. exec_monad.
  repeat case_step; eexists; reflexivity.
Qed.

(** What [decode_hashlink] makes of the three ways the padding loop can
    end, for a hashlink of the standard shape. *)
Lemma decode_standard io h m :
  reroute_match h = None ->
  standard_match h = Some m ->
  match padding_loop io (group m 2) v_standard with
  | Run (Val (Some x)) _ t =>
      decode_hashlink io h
      = Run (Val (Some x)) v_standard
          (Log (Starting (short h)) :: Log StandardCheck :: t)
  | Run (Val None) _ t =>
      exists tl,
        evs (decode_hashlink io h)
        = Log (Starting (short h)) :: Log StandardCheck :: t
          ++ Log JsAttempt :: tl
  | Run (Exc e) _ t =>
      decode_hashlink io h
      = Run (Val (Some (Failed (failed_to_decode ++ exn_str e) v_standard)))
          v_standard
          (Log (Starting (short h)) :: Log StandardCheck :: t
           ++ [Log (Unexpected e)])
  end.
Proof.
  intros Hre Hst.
  unfold decode_hashlink, cascade, reroute_strategy, standard_strategy.
  rewrite Hre, Hst.
  pose proof (padding_loop_ver io (group m 2) v_standard) as Hv.
  exec_monad.
  destruct (padding_loop io (group m 2) v_standard) as [[[x|]|e] v' t];
    cbn in Hv; subst v'; exec_monad.
  - now rewrite app_nil_r.
  - destruct (js_strategy_starts io h v_standard) as (tj & Hj).
    destruct (js_strategy io h v_standard) as [[[x|]|e] v' t'];
      cbn in Hj; subst t'; exec_monad.
    + eexists. rewrite <- ?app_assoc. reflexivity.
    + destruct (fetch_strategy io h v') as [[[y|]|e] v'' t''];
        exec_monad; eexists; rewrite <- ?app_assoc; cbn [app];
        rewrite <- ?app_assoc; reflexivity.
    + eexists. rewrite <- ?app_assoc. reflexivity.
  - reflexivity.
Qed.

(** ** The events of strategy 2 *)

Lemma for_each_events {X R} (P : event -> Prop) xs
    (body : X -> M (option R)) v :
  (forall x v', Forall P (evs (body x v'))) ->
  Forall P (evs (for_each xs body v)).
Proof.
  intros H. revert v. induction xs as [|x xs IH]; intros v; [constructor|].
  rewrite for_each_cons. specialize (H x v).
  destruct (body x v) as [[[r|]|e] v' t]; cbn in *; try assumption.
  apply Forall_app. auto.
Qed.

Ltac stage_events :=
  repeat (apply Forall_cons; [unfold in_strategy; cbn; auto|]);
  try apply Forall_nil.

Lemma skip_attempt_stage io c s v :
  Forall (in_strategy 2) (evs (skip_attempt io c s v)).
Proof.
  rewrite skip_attempt_run.
  destruct (lzma_decompress io (skipn s c)) as [d|e];
    [destruct (utf8_decode d)|destruct (is_a LZMAError e)]; stage_events.
Qed.

Lemma skip_loop_stage io c v : Forall (in_strategy 2) (evs (skip_loop io c v)).
Proof. apply for_each_events. intros. apply skip_attempt_stage. Qed.

Lemma padding_attempt_stage io part p v :
  Forall (in_strategy 2) (evs (padding_attempt io part p v)).
Proof.
  rewrite padding_attempt_run. unfold after. cbn [evs].
  stage_events.
  destruct (b64decode (part ++ repeat pad p)) as [c|e].
  - pose proof (skip_loop_stage io c v) as H.
    destruct (skip_loop io c v) as [[r|e] v' t]; cbn in *; [assumption|].
    destruct (is_a BinasciiError e); cbn; [|assumption].
    apply Forall_app. split; [assumption|stage_events].
  - destruct (is_a BinasciiError e); stage_events.
Qed.

Lemma padding_loop_stage io part v :
  Forall (in_strategy 2) (evs (padding_loop io part v)).
Proof. apply for_each_events. intros. apply padding_attempt_stage. Qed.

(** ** C4: the sixteen combinations of strategy 2 *)

(** C4 fails as stated, in both of its halves.  The first combination of
    the first hashlink gets through base64 and LZMA, yet no document is
    returned: its byte 0xff is not UTF-8, and the function ends with a
    failure under the standard label, strategy 3 untried.  Every
    combination of the second hashlink fails, its payload being refused by
    base64 for a character that is not ASCII, yet the cascade does not go
    on with strategy 3: the [ValueError] of the first base64 call ends the
    function with a failure. *)
Lemma passing_combination_without_document :
  try_combination tabulated (lit "XQAAAAT//////////wB/wfv////gAAAA") (0, 0)
  = Val [Byte.xff]
  /\ res (decode_hashlink tabulated
            (lit "https://itty.bitty.site/#t/?XQAAAAT//////////wB/wfv////gAAAA"))
     = Val (Some (Failed
         (failed_to_decode
          ++ lit "'utf-8' codec can't decode byte 0xff in position 0: invalid start byte")
         v_standard))
  /\ stages (evs (decode_hashlink tabulated
                    (lit "https://itty.bitty.site/#t/?XQAAAAT//////////wB/wfv////gAAAA")))
     = [2; 2; 2; 2]
  /\ map (try_combination offline [233%N]) combinations
     = repeat
         (Exc (Exn ValueError
                 (lit "string argument should contain only ASCII characters")))
         16
  /\ res (decode_hashlink offline
            (lit "https://itty.bitty.site/#t/?" ++ [233%N]))
     = Val (Some (Failed
         (failed_to_decode
          ++ lit "string argument should contain only ASCII characters")
         v_standard))
  /\ stages (evs (decode_hashlink offline
                    (lit "https://itty.bitty.site/#t/?" ++ [233%N])))
     = [2; 2]
  /\ b64_calls (evs (decode_hashlink offline
                       (lit "https://itty.bitty.site/#t/?" ++ [233%N])))
     = [[233%N]].
Proof. vm_compute. repeat split; reflexivity. Qed.

(** C4 (amended): strategy 2 goes through the sixteen combinations of a
    padding count in 0..3 with a skip offset in 0, 5, 9, 13, padding
    outermost.  When a combination gets through base64 and LZMA, every
    earlier one has failed the way the handlers expect (base64 with
    [binascii.Error], LZMA with [LZMAError]) and its bytes are valid
    UTF-8, the function returns the document of that combination under
    the standard label, having called LZMA for just the combinations up to
    it.  When all sixteen fail in that way, the loops end with LZMA
    called for every combination base64 let through, and the cascade goes
    on with the JS strategy. *)
Theorem standard_strategy_iteration io h m :
  reroute_match h = None ->
  standard_match h = Some m ->
  combinations
  = [(0, 0); (0, 5); (0, 9); (0, 13); (1, 0); (1, 5); (1, 9); (1, 13);
     (2, 0); (2, 5); (2, 9); (2, 13); (3, 0); (3, 5); (3, 9); (3, 13)]
  /\ (forall earlier p s later data doc,
        combinations = earlier ++ (p, s) :: later ->
        Forall (combination_fails io (group m 2)) earlier ->
        try_combination io (group m 2) (p, s) = Val data ->
        utf8_decode data = Some doc ->
        res (decode_hashlink io h) = Val (Some (Decoded doc v_standard))
        /\ lzma_calls (evs (decode_hashlink io h))
           = lzma_inputs io (group m 2) (earlier ++ [(p, s)]))
  /\ (Forall (combination_fails io (group m 2)) combinations ->
      res (padding_loop io (group m 2) v_standard) = Val None
      /\ lzma_calls (evs (padding_loop io (group m 2) v_standard))
         = lzma_inputs io (group m 2) combinations
      /\ exists tl,
           evs (decode_hashlink io h)
           = Log (Starting (short h)) :: Log StandardCheck
             :: evs (padding_loop io (group m 2) v_standard)
             ++ Log JsAttempt :: tl).
Proof.
  intros Hre Hst. pose proof (decode_standard io h m Hre Hst) as D.
  split; [reflexivity|]. split.
  - intros earlier p s later data doc Hsplit Hearlier Hok Hutf.
    destruct (padding_loop_stops io (group m 2) v_standard
                earlier p s later data Hsplit Hearlier Hok) as [Hr Hc].
    rewrite Hutf in Hr.
    destruct (padding_loop io (group m 2) v_standard) as [o v' t].
    cbn in Hr, Hc. subst o. rewrite D. cbn [res evs]. split; [reflexivity|].
    exact Hc.
  - intros Hall.
    destruct (padding_loop_falls_through io (group m 2) v_standard Hall)
      as [Hrun Hc].
    rewrite Hrun in D. rewrite Hrun at 1. split; [reflexivity|].
    split; [exact Hc|]. rewrite Hrun. exact D.
Qed.

Lemma standard_strategy_iteration_witness :
  res (decode_hashlink tabulated hi_link)
  = Val (Some (Decoded (lit "hi") v_standard))
  /\ lzma_calls (evs (decode_hashlink tabulated hi_link)) = [lzma_of_hi].
Proof.
  destruct (standard_match hi_link) as [m|] eqn:Hm;
    [|vm_compute in Hm; discriminate].
  destruct (standard_strategy_iteration tabulated hi_link m eq_refl Hm)
    as (_ & H & _).
  vm_compute in Hm. injection Hm as <-.
  destruct (H [(0, 0); (0, 5); (0, 9); (0, 13); (1, 0); (1, 5); (1, 9); (1, 13)]
              2 0
              [(2, 5); (2, 9); (2, 13); (3, 0); (3, 5); (3, 9); (3, 13)]
              (bytes_of "hi") (lit "hi")) as [H1 H2].
  - reflexivity.
  - repeat (apply Forall_cons; [vm_compute; reflexivity|]). apply Forall_nil.
  - vm_compute. reflexivity.
  - vm_compute. reflexivity.
  - split; [exact H1|]. rewrite H2. vm_compute. reflexivity.
Defined.

(** ** C5: which failures of the local strategies are swallowed *)

Lemma a2b_base64_raises s : forall q l p n e,
  a2b_base64 s q l p n = Exc e -> exn_class_of e = BinasciiError.
Proof.
  induction s as [|c s IH]; intros q l p n e; cbn [a2b_base64].
  - destruct q as [|[|q]]; intros [= <-]; reflexivity.
  - destruct (char_eqb c pad).
    { destruct ((2 <=? q) && (4 <=? q + S p)); [discriminate|apply IH]. }
    destruct (b64val c) as [x|]; [|apply IH].
    destruct q as [|[|[|q]]]; [apply IH| | |];
      unfold emit;
      match goal with
      | |- context [a2b_base64 s ?a ?b ?c ?d] =>
          destruct (a2b_base64 s a b c d) eqn:E;
          [discriminate|intros [= <-]; exact (IH _ _ _ _ _ E)]
      end.
Qed.

Lemma b64decode_raises s e :
  b64decode s = Exc e ->
  exn_class_of e = BinasciiError \/ exn_class_of e = ValueError.
Proof.
  unfold b64decode. destruct (forallb is_ascii s).
  - intros H. left. exact (a2b_base64_raises _ _ _ _ _ _ H).
  - intros [= <-]. right. reflexivity.
Qed.

Lemma skip_attempt_escapes io c s v e :
  res (skip_attempt io c s v) = Exc e -> is_a LZMAError e = false.
Proof.
  rewrite skip_attempt_run.
  destruct (lzma_decompress io (skipn s c)) as [d|e'].
  - destruct (utf8_decode d); [discriminate|]. intros [= <-]. reflexivity.
  - destruct (is_a LZMAError e') eqn:E; [discriminate|]. now intros [= <-].
Qed.

(** What leaves a loop was raised by one of its attempts. *)
Lemma for_each_escapes {X R} xs (body : X -> M (option R)) v e :
  (forall x v', ver (body x v') = v') ->
  res (for_each xs body v) = Exc e ->
  exists x, In x xs /\ res (body x v) = Exc e.
Proof.
  intros Hv. induction xs as [|x xs IH]; [discriminate|].
  rewrite for_each_cons. specialize (Hv x v).
  destruct (body x v) as [[[r|]|e'] v' t] eqn:E; cbn in *.
  - discriminate.
  - subst v'. intros H. destruct (IH H) as (y & Hy & Hr). eauto.
  - intros [= <-]. exists x. rewrite E. auto.
Qed.

Lemma skip_loop_escapes io c v e :
  res (skip_loop io c v) = Exc e -> is_a LZMAError e = false.
Proof.
  intros H. apply for_each_escapes in H as (s & _ & H).
  - exact (skip_attempt_escapes _ _ _ _ _ H).
  - intros. apply skip_attempt_ver.
Qed.

Lemma padding_attempt_escapes io part p v e :
  res (padding_attempt io part p v) = Exc e ->
  is_a BinasciiError e = false /\ is_a LZMAError e = false.
Proof.
  rewrite padding_attempt_run. unfold after. cbn [res].
  destruct (b64decode (part ++ repeat pad p)) as [c|e'] eqn:E.
  - pose proof (skip_loop_escapes io c v) as L.
    destruct (skip_loop io c v) as [[r|e'] v' t]; cbn in *; [discriminate|].
    destruct (is_a BinasciiError e') eqn:B; [discriminate|].
    intros [= <-]. auto.
  - destruct (is_a BinasciiError e') eqn:B; [discriminate|].
    intros [= <-]. split; [assumption|].
    destruct (b64decode_raises _ _ E) as [C|C]; unfold is_a; rewrite C;
      reflexivity.
Qed.

Lemma padding_loop_escapes io part v e :
  res (padding_loop io part v) = Exc e ->
  is_a BinasciiError e = false /\ is_a LZMAError e = false.
Proof.
  intros H. apply for_each_escapes in H as (p & _ & H).
  - exact (padding_attempt_escapes _ _ _ _ _ H).
  - intros. apply padding_attempt_ver.
Qed.

Lemma js_strategy_escapes io h v e :
  res (js_strategy io h v) = Exc e ->
  is_a ExecjsError e = false /\ is_a BinasciiError e = false.
Proof.
  unfold js_strategy. exec_monad.
  repeat case_step; intros [= <-];
    match goal with
    | H : _ || _ = false |- _ => now apply orb_false_elim in H
    | _ => split; reflexivity
    end.
Qed.

Lemma js_strategy_ver io h v : ver (js_strategy io h v) = v_js.
Proof.
  unfold js_strategy. exec_monad. repeat case_step; reflexivity.
Qed.

(** What [decode_hashlink] makes of the JS strategy for a hashlink of
    neither shape. *)
Lemma decode_unrecognised io h :
  reroute_match h = None ->
  standard_match h = None ->
  match js_strategy io h v_unknown with
  | Run (Val (Some x)) _ t =>
      decode_hashlink io h
      = Run (Val (Some x)) v_js (Log (Starting (short h)) :: t)
  | Run (Val None) _ t =>
      decode_hashlink io h
      = after (Log (Starting (short h)) :: t) (fetch_strategy io h v_js)
  | Run (Exc e) _ t =>
      decode_hashlink io h
      = Run (Val (Some (Failed (failed_to_decode ++ exn_str e) v_js))) v_js
          (Log (Starting (short h)) :: t ++ [Log (Unexpected e)])
  end.
Proof.
  intros Hre Hst.
  unfold decode_hashlink, cascade, reroute_strategy, standard_strategy.
  rewrite Hre, Hst.
  pose proof (js_strategy_ver io h v_unknown) as Hv.
  exec_monad.
  destruct (js_strategy io h v_unknown) as [[[x|]|e] v' t];
    cbn in Hv; subst v'; exec_monad.
  - now rewrite app_nil_r.
  - destruct (fetch_strategy_returns io h v_js) as (y & Hy).
    destruct (fetch_strategy io h v_js) as [o v'' t'']. cbn in Hy.
    injection Hy as -> ->. exec_monad. now rewrite app_nil_r.
  - reflexivity.
Qed.

(** The JS strategy, run: where it can raise, and what its handler makes
    of the exception. *)
Lemma js_strategy_run io h v :
  let padded := pad_to_quad (js_payload h) in
  let caught e := is_a ExecjsError e || is_a BinasciiError e in
  js_strategy io h v
  = match execjs_compile io with
    | Exc e =>
        if caught e
        then Run (Val None) v_js
               [Log JsAttempt; Call JsCompile; Log (JsFailed e)]
        else Run (Exc e) v_js [Log JsAttempt; Call JsCompile]
    | Val _ =>
        match b64decode padded with
        | Exc e =>
            if caught e
            then Run (Val None) v_js
                   [Log JsAttempt; Call JsCompile; Call (B64Decode padded);
                    Log (JsFailed e)]
            else Run (Exc e) v_js
                   [Log JsAttempt; Call JsCompile; Call (B64Decode padded)]
        | Val data =>
            match js_decompress io data with
            | Exc e =>
                if caught e
                then Run (Val None) v_js
                       [Log JsAttempt; Call JsCompile;
                        Call (B64Decode padded); Call (JsEval data);
                        Log (JsFailed e)]
                else Run (Exc e) v_js
                       [Log JsAttempt; Call JsCompile;
                        Call (B64Decode padded); Call (JsEval data)]
            | Val (JsStr s) =>
                Run (Val (Some (Decoded s v_js))) v_js
                  [Log JsAttempt; Call JsCompile; Call (B64Decode padded);
                   Call (JsEval data); Log JsSuccess]
            | Val (JsBytes b) =>
                match utf8_decode b with
                | Some doc =>
                    Run (Val (Some (Decoded doc v_js))) v_js
                      [Log JsAttempt; Call JsCompile;
                       Call (B64Decode padded); Call (JsEval data);
                       Log JsSuccess]
                | None =>
                    Run (Exc (undecodable io b)) v_js
                      [Log JsAttempt; Call JsCompile;
                       Call (B64Decode padded); Call (JsEval data);
                       Log JsSuccess]
                end
            | Val JsOther =>
                Run (Val None) v_js
                  [Log JsAttempt; Call JsCompile; Call (B64Decode padded);
                   Call (JsEval data)]
            end
        end
    end.
Proof.
  cbv zeta. unfold js_strategy. exec_monad.
  repeat case_step; first [reflexivity | discriminate].
Qed.

Lemma js_strategy_any_version io h v v' :
  js_strategy io h v = js_strategy io h v'.
Proof. now rewrite !js_strategy_run. Qed.

(** What [decode_hashlink] makes of the JS strategy, whenever the cascade
    gets that far: the reroute pattern did not match and the standard
    strategy ended without returning. *)
Lemma decode_reaching_js io h v :
  reroute_match h = None ->
  res (standard_strategy io h v_unknown) = Val None ->
  let t2 := evs (standard_strategy io h v_unknown) in
  match js_strategy io h v with
  | Run (Val (Some x)) _ t =>
      decode_hashlink io h
      = Run (Val (Some x)) v_js (Log (Starting (short h)) :: t2 ++ t)
  | Run (Val None) _ t =>
      decode_hashlink io h
      = after (Log (Starting (short h)) :: t2 ++ t)
          (fetch_strategy io h v_js)
  | Run (Exc e) _ t =>
      decode_hashlink io h
      = Run (Val (Some (Failed (failed_to_decode ++ exn_str e) v_js))) v_js
          (Log (Starting (short h)) :: t2 ++ t ++ [Log (Unexpected e)])
  end.
Proof.
  intros Hre Hst. cbv zeta.
  unfold decode_hashlink, cascade, reroute_strategy. rewrite Hre.
  exec_monad.
  destruct (standard_strategy io h v_unknown) as [o v2 t2].
  cbn [res evs] in *. subst o.
  rewrite (js_strategy_any_version io h v v2).
  pose proof (js_strategy_ver io h v2) as Hv.
  destruct (js_strategy io h v2) as [[[x|]|e] v' t];
    cbn in Hv; subst v'; exec_monad.
  - now rewrite ?app_nil_r.
  - destruct (fetch_strategy_returns io h v_js) as (y & Hy).
    destruct (fetch_strategy io h v_js) as [o v'' t'']. cbn in Hy.
    injection Hy as -> ->. exec_monad.
    now rewrite ?app_nil_r, <- ?app_assoc.
  - now rewrite <- ?app_assoc.
Qed.

(** C5 fails as stated: here the first candidate of strategy 2 gets
    through base64 and LZMA, its byte 0xff is not UTF-8, and the function
    returns a terminal failure under the standard label without trying
    strategy 3; so does a payload with a non-ASCII character, which base64
    refuses with a plain [ValueError]. *)
Lemma undecodable_candidate_is_terminal :
  decode_hashlink tabulated
    (lit "https://itty.bitty.site/#t/?XQAAAAT//////////wB/wfv////gAAAA")
  = Run (Val (Some (Failed
          (failed_to_decode
           ++ lit "'utf-8' codec can't decode byte 0xff in position 0: invalid start byte")
          v_standard)))
      v_standard
      [Log (Starting (lit "https:.../gAAAA")); Log StandardCheck;
       Log (PaddingAttempt 0);
       Call (B64Decode (lit "XQAAAAT//////////wB/wfv////gAAAA"));
       Call (LzmaDecompress lzma_of_xff); Log PaddingSuccess;
       Log (Unexpected (undecodable tabulated [Byte.xff]))]
  /\ res (decode_hashlink offline
            (lit "https://itty.bitty.site/#t/?" ++ [233%N]))
     = Val (Some (Failed
         (failed_to_decode
          ++ lit "string argument should contain only ASCII characters")
         v_standard)).
Proof. vm_compute. split; reflexivity. Qed.

(** C5 (amended): a failure inside strategy 2 or 3 is swallowed and
    logged, and control falls through, when its exception is of a class
    the enclosing handler names.  In strategy 2 an [LZMAError] of an LZMA
    call is logged with its skip offset and a [binascii.Error] of a base64
    call with its padding count, each as the last event of an attempt
    that ends without a result; the skip loop goes on with the
    offsets that follow the refused ones and the padding loop with the
    counts that follow the failed ones, so that a count whose every skip
    offset is refused has tried all four offsets, and a strategy whose
    sixteen combinations all fail in that way has tried all four counts
    and ends without a result.  In strategy 3 an [execjs.Error] or a
    [binascii.Error] raised by the compilation, by the base64 call or by
    the evaluation is logged and the strategy ends without a result.
    Whenever strategy 2 ends without a result (also by not applying), the
    JS strategy is run after it, and when that one ends without a result
    the fetch is run after it.  An exception of any other class raised in
    strategy 2 or 3 leaves its strategy, is caught by the outer handler
    and returned as the terminal failure "Failed to decode hashlink: "
    followed by its text, under the label of the strategy that raised it,
    with nothing attempted after it: so the [ValueError] of a payload
    that is not ASCII, and so the error of reading as UTF-8 the bytes that
    the first combination of strategy 2 to get through base64 and LZMA,
    or the JS worker, has produced. *)
Theorem local_failures_swallowed_or_surfaced io :
  (forall c s v e,
     lzma_decompress io (skipn s c) = Exc e ->
     skip_attempt io c s v
     = if is_a LZMAError e
       then Run (Val None) v
              [Call (LzmaDecompress (skipn s c)); Log (LzmaFailed s e)]
       else Run (Exc e) v [Call (LzmaDecompress (skipn s c))])
  /\ (forall part p v e,
       b64decode (part ++ repeat pad p) = Exc e ->
       padding_attempt io part p v
       = if is_a BinasciiError e
         then Run (Val None) v
                [Log (PaddingAttempt p);
                 Call (B64Decode (part ++ repeat pad p));
                 Log (PaddingFailed p e)]
         else Run (Exc e) v
                [Log (PaddingAttempt p);
                 Call (B64Decode (part ++ repeat pad p))])
  /\ (forall part p v c,
       b64decode (part ++ repeat pad p) = Val c ->
       (forall s, In s header_lengths ->
          exists e, lzma_decompress io (skipn s c) = Exc e
                    /\ is_a LZMAError e = true) ->
       padding_attempt io part p v
       = Run (Val None) v
           (Log (PaddingAttempt p)
            :: Call (B64Decode (part ++ repeat pad p))
            :: flat_map (fun s => evs (skip_attempt io c s v))
                 header_lengths))
  /\ (forall c v ss1 ss2,
       header_lengths = ss1 ++ ss2 ->
       (forall s, In s ss1 ->
          exists e, lzma_decompress io (skipn s c) = Exc e
                    /\ is_a LZMAError e = true) ->
       skip_loop io c v
       = after (flat_map (fun s => evs (skip_attempt io c s v)) ss1)
           (for_each ss2 (skip_attempt io c) v))
  /\ (forall part v ps1 ps2,
       seq 0 4 = ps1 ++ ps2 ->
       (forall p s, In p ps1 -> In s header_lengths ->
                    combination_fails io part (p, s)) ->
       padding_loop io part v
       = after (flat_map (fun p => evs (padding_attempt io part p v)) ps1)
           (for_each ps2 (padding_attempt io part) v))
  /\ (forall h m,
       standard_match h = Some m ->
       Forall (combination_fails io (group m 2)) combinations ->
       standard_strategy io h v_unknown
       = Run (Val None) v_standard
           (Log StandardCheck
            :: flat_map
                 (fun p => evs (padding_attempt io (group m 2) p v_standard))
                 (seq 0 4)))
  /\ (forall h,
       standard_match h = None ->
       standard_strategy io h v_unknown = Run (Val None) v_unknown [])
  /\ (forall h v e,
       execjs_compile io = Exc e ->
       js_strategy io h v
       = if is_a ExecjsError e || is_a BinasciiError e
         then Run (Val None) v_js
                [Log JsAttempt; Call JsCompile; Log (JsFailed e)]
         else Run (Exc e) v_js [Log JsAttempt; Call JsCompile])
  /\ (forall h v u e,
       execjs_compile io = Val u ->
       b64decode (pad_to_quad (js_payload h)) = Exc e ->
       js_strategy io h v
       = if is_a ExecjsError e || is_a BinasciiError e
         then Run (Val None) v_js
                [Log JsAttempt; Call JsCompile;
                 Call (B64Decode (pad_to_quad (js_payload h)));
                 Log (JsFailed e)]
         else Run (Exc e) v_js
                [Log JsAttempt; Call JsCompile;
                 Call (B64Decode (pad_to_quad (js_payload h)))])
  /\ (forall h v u data e,
       execjs_compile io = Val u ->
       b64decode (pad_to_quad (js_payload h)) = Val data ->
       js_decompress io data = Exc e ->
       js_strategy io h v
       = if is_a ExecjsError e || is_a BinasciiError e
         then Run (Val None) v_js
                [Log JsAttempt; Call JsCompile;
                 Call (B64Decode (pad_to_quad (js_payload h)));
                 Call (JsEval data); Log (JsFailed e)]
         else Run (Exc e) v_js
                [Log JsAttempt; Call JsCompile;
                 Call (B64Decode (pad_to_quad (js_payload h)));
                 Call (JsEval data)])
  /\ (forall h v u data b,
       execjs_compile io = Val u ->
       b64decode (pad_to_quad (js_payload h)) = Val data ->
       js_decompress io data = Val (JsBytes b) ->
       utf8_decode b = None ->
       js_strategy io h v
       = Run (Exc (undecodable io b)) v_js
           [Log JsAttempt; Call JsCompile;
            Call (B64Decode (pad_to_quad (js_payload h)));
            Call (JsEval data); Log JsSuccess])
  /\ (forall h v,
       reroute_match h = None ->
       res (standard_strategy io h v_unknown) = Val None ->
       (exists tl,
          evs (decode_hashlink io h)
          = Log (Starting (short h))
            :: evs (standard_strategy io h v_unknown)
            ++ evs (js_strategy io h v) ++ tl)
       /\ (res (js_strategy io h v) = Val None ->
        decode_hashlink io h
        = after (Log (Starting (short h))
                 :: evs (standard_strategy io h v_unknown)
                 ++ evs (js_strategy io h v))
            (fetch_strategy io h v_js))
       /\ (forall e,
            res (js_strategy io h v) = Exc e ->
            decode_hashlink io h
            = Run (Val (Some (Failed (failed_to_decode ++ exn_str e) v_js)))
                v_js
                (Log (Starting (short h))
                 :: evs (standard_strategy io h v_unknown)
                 ++ evs (js_strategy io h v) ++ [Log (Unexpected e)])))
  /\ (forall part v e,
       res (padding_loop io part v) = Exc e ->
       is_a BinasciiError e = false /\ is_a LZMAError e = false)
  /\ (forall h v e,
       res (js_strategy io h v) = Exc e ->
       is_a ExecjsError e = false /\ is_a BinasciiError e = false)
  /\ (forall h m e,
       reroute_match h = None ->
       standard_match h = Some m ->
       res (padding_loop io (group m 2) v_standard) = Exc e ->
       decode_hashlink io h
       = Run (Val (Some (Failed (failed_to_decode ++ exn_str e) v_standard)))
           v_standard
           (Log (Starting (short h)) :: Log StandardCheck
            :: evs (padding_loop io (group m 2) v_standard)
            ++ [Log (Unexpected e)]))
  /\ (forall h m earlier p s later data,
       reroute_match h = None ->
       standard_match h = Some m ->
       combinations = earlier ++ (p, s) :: later ->
       Forall (combination_fails io (group m 2)) earlier ->
       try_combination io (group m 2) (p, s) = Val data ->
       utf8_decode data = None ->
       res (decode_hashlink io h)
       = Val (Some (Failed (failed_to_decode ++ decode_error_text io data)
                      v_standard))
       /\ Forall (in_strategy 2) (evs (decode_hashlink io h)))
  /\ (forall h e,
       reroute_match h = None ->
       standard_match h = None ->
       res (js_strategy io h v_unknown) = Exc e ->
       decode_hashlink io h
       = Run (Val (Some (Failed (failed_to_decode ++ exn_str e) v_js))) v_js
           (Log (Starting (short h)) :: evs (js_strategy io h v_unknown)
            ++ [Log (Unexpected e)])).
Proof.
  split; [|split; [|split; [|split; [|split; [|split; [|split]]]]]].
  - intros c s v e He. now rewrite skip_attempt_run, He.
  - intros part p v e He. rewrite padding_attempt_run, He.
    now destruct (is_a BinasciiError e).
  - intros part p v c Hc Hs. rewrite padding_attempt_run, Hc.
    unfold skip_loop. rewrite for_each_quiet; [reflexivity|].
    apply Forall_forall. intros s Hin. apply skip_attempt_quiet. auto.
  - intros c v ss1 ss2 Hsplit Hs. unfold skip_loop. rewrite Hsplit.
    apply for_each_passes.
    apply Forall_forall. intros s Hin. apply skip_attempt_quiet. auto.
  - intros part v ps1 ps2 Hsplit Hf. unfold padding_loop. rewrite Hsplit.
    apply for_each_passes.
    apply (padding_rows_quiet io part v ps1).
    apply Forall_forall. intros p Hp.
    apply Forall_forall. intros s Hs. now apply Hf.
  - intros h m Hst Hall. unfold standard_strategy. rewrite Hst. exec_monad.
    now rewrite (proj1 (padding_loop_falls_through io (group m 2)
                          v_standard Hall)).
  - intros h Hst. unfold standard_strategy. now rewrite Hst.
  - split; [|split; [|split; [|split; [|split]]]].
    + intros h v e He. now rewrite js_strategy_run, He.
    + intros h v u e Hu He. now rewrite js_strategy_run, Hu, He.
    + intros h v u data e Hu Hd He.
      now rewrite js_strategy_run, Hu, Hd, He.
    + intros h v u data b Hu Hd Hb Hutf.
      now rewrite js_strategy_run, Hu, Hd, Hb, Hutf.
    + intros h v Hre Hst.
      pose proof (decode_reaching_js io h v Hre Hst) as D. cbv zeta in D.
      destruct (js_strategy io h v) as [[[x|]|e] v' t]; cbn [res evs];
        rewrite D; unfold after; cbn [evs];
        (split; [|split; try discriminate; try (intros e'; discriminate)]).
      * exists []. now rewrite app_nil_r.
      * eexists. cbn [app]. now rewrite <- app_assoc.
      * intros _. reflexivity.
      * eexists. reflexivity.
      * intros e' [= <-]. reflexivity.
    + split; [exact (padding_loop_escapes io)|].
      split; [exact (js_strategy_escapes io)|].
      split; [|split].
      * intros h m e Hre Hst He.
        pose proof (decode_standard io h m Hre Hst) as D.
        destruct (padding_loop io (group m 2) v_standard) as [o v' t].
        cbn in He. subst o. exact D.
      * intros h m earlier p s later data Hre Hst Hsplit Hearlier Hok Hutf.
        pose proof (decode_standard io h m Hre Hst) as D.
        destruct (padding_loop_stops io (group m 2) v_standard
                    earlier p s later data Hsplit Hearlier Hok) as [Hr _].
        rewrite Hutf in Hr.
        pose proof (padding_loop_stage io (group m 2) v_standard) as Hs.
        destruct (padding_loop io (group m 2) v_standard) as [o v' t].
        cbn in Hr, Hs. subst o. rewrite D. cbn [res evs].
        split; [reflexivity|].
        repeat (apply Forall_cons; [unfold in_strategy; cbn; auto|]).
        apply Forall_app. split; [exact Hs|].
        repeat (apply Forall_cons; [unfold in_strategy; cbn; auto|]).
        apply Forall_nil.
      * intros h e Hre Hst He.
        pose proof (decode_unrecognised io h Hre Hst) as D.
        destruct (js_strategy io h v_unknown) as [o v' t].
        cbn in He. subst o. exact D.
Qed.

Lemma local_failures_swallowed_or_surfaced_witness :
  standard_strategy offline (lit "https://itty.bitty.site/#t/?AAAA") v_unknown
  = Run (Val None) v_standard
      (Log StandardCheck
       :: flat_map (fun p => evs (padding_attempt offline (lit "AAAA") p
                                    v_standard))
            (seq 0 4))
  /\ decode_hashlink offline (lit "https://itty.bitty.site/#t/?AAAA")
     = after (Log (Starting (short (lit "https://itty.bitty.site/#t/?AAAA")))
              :: evs (standard_strategy offline
                        (lit "https://itty.bitty.site/#t/?AAAA") v_unknown)
              ++ evs (js_strategy offline
                        (lit "https://itty.bitty.site/#t/?AAAA") v_unknown))
         (fetch_strategy offline (lit "https://itty.bitty.site/#t/?AAAA")
            v_js).
Proof.
  destruct (local_failures_swallowed_or_surfaced offline)
    as (_ & _ & _ & _ & _ & D & _ & _ & _ & _ & _ & F & _).
  destruct (standard_match (lit "https://itty.bitty.site/#t/?AAAA"))
    as [m|] eqn:Hm; [|vm_compute in Hm; discriminate].
  assert (G : group m 2 = lit "AAAA").
  { vm_compute in Hm. injection Hm as <-. reflexivity. }
  assert (Hall : Forall (combination_fails offline (group m 2)) combinations).
  { rewrite G.
    repeat (apply Forall_cons;
            [vm_compute; eexists; split; reflexivity|]).
    apply Forall_nil. }
  pose proof (D _ m Hm Hall) as Hstd. rewrite G in Hstd.
  split; [exact Hstd|].
  apply (proj1 (proj2 (F (lit "https://itty.bitty.site/#t/?AAAA") v_unknown
                         eq_refl (f_equal res Hstd)))).
  reflexivity.
Defined.

(** ** C6: the padding counts tried *)

Lemma b64_calls_app t1 t2 : b64_calls (t1 ++ t2) = b64_calls t1 ++ b64_calls t2.
Proof. apply flat_map_app. Qed.

Lemma b64_calls_none t : Forall not_b64 t -> b64_calls t = [].
Proof.
  induction 1 as [|ev t H _ IH]; [reflexivity|].
  destruct ev as [r|[]]; cbn in *; try assumption. contradiction.
Qed.

Lemma skip_loop_no_b64 io c v : Forall not_b64 (evs (skip_loop io c v)).
Proof.
  apply for_each_events. intros s v'. rewrite skip_attempt_run.
  destruct (lzma_decompress io (skipn s c)) as [d|e];
    [destruct (utf8_decode d)|destruct (is_a LZMAError e)];
    repeat constructor.
Qed.

Lemma padding_attempt_b64 io part p v :
  b64_calls (evs (padding_attempt io part p v)) = [part ++ repeat pad p].
Proof.
  rewrite padding_attempt_run. unfold after. cbn [evs].
  change (b64_calls ([Log (PaddingAttempt p);
                      Call (B64Decode (part ++ repeat pad p))] ++ ?t))
    with ((part ++ repeat pad p) :: b64_calls t).
  f_equal.
  destruct (b64decode (part ++ repeat pad p)) as [c|e].
  - pose proof (skip_loop_no_b64 io c v) as H.
    destruct (skip_loop io c v) as [[r|e] v' t]; cbn in *;
      [now apply b64_calls_none|].
    destruct (is_a BinasciiError e); cbn;
      [rewrite b64_calls_app|]; now rewrite b64_calls_none.
  - now destruct (is_a BinasciiError e).
Qed.

Lemma for_each_returns {X R} xs (body : X -> M (option R)) v y :
  (forall x v', ver (body x v') = v') ->
  res (for_each xs body v) = Val (Some y) ->
  exists x, In x xs /\ res (body x v) = Val (Some y).
Proof.
  intros Hv. induction xs as [|x xs IH]; [discriminate|].
  rewrite for_each_cons. specialize (Hv x v).
  destruct (body x v) as [[[r|]|e'] v' t] eqn:E; cbn in *.
  - intros [= <-]. exists x. rewrite E. auto.
  - subst v'. intros H. destruct (IH H) as (z & Hz & Hr). eauto.
  - discriminate.
Qed.

(** A padding count that returns got through base64 and, at some skip
    offset, through LZMA. *)
Lemma padding_attempt_returns io part p v x :
  res (padding_attempt io part p v) = Val (Some x) ->
  exists c s d,
    b64decode (part ++ repeat pad p) = Val c
    /\ In s header_lengths
    /\ lzma_decompress io (skipn s c) = Val d.
Proof.
  rewrite padding_attempt_run. unfold after. cbn [res].
  destruct (b64decode (part ++ repeat pad p)) as [c|e].
  - intros H. exists c.
    assert (L : res (skip_loop io c v) = Val (Some x)).
    { destruct (skip_loop io c v) as [[r|e] v' t]; cbn in *; [assumption|].
      destruct (is_a BinasciiError e); discriminate. }
    apply for_each_returns in L as (s & Hs & L);
      [|intros; apply skip_attempt_ver].
    exists s. rewrite skip_attempt_run in L.
    destruct (lzma_decompress io (skipn s c)) as [d|e].
    + exists d. auto.
    + destruct (is_a LZMAError e); discriminate.
  - destruct (is_a BinasciiError e); discriminate.
Qed.

Lemma seq_prefix pre x post :
  seq 0 4 = pre ++ x :: post ->
  x = length pre /\ pre ++ [x] = seq 0 (S (length pre)) /\ S (length pre) <= 4.
Proof.
  intros H. cbn in H.
  destruct pre as [|a [|b [|c [|d pre]]]]; cbn [app] in H.
  - injection H as <- _. cbn. repeat split; lia.
  - injection H as <- <- _. cbn. repeat split; lia.
  - injection H as <- <- <- _. cbn. repeat split; lia.
  - injection H as <- <- <- <- _. cbn. repeat split; lia.
  - injection H as _ _ _ _ H. destruct pre; discriminate.
Qed.

(** What the padding loop asks of base64, whatever the libraries answer. *)
Lemma padding_loop_b64_calls io part v :
  exists n,
    n <= 4
    /\ b64_calls (evs (padding_loop io part v))
       = map (fun p => part ++ repeat pad p) (seq 0 n)
    /\ (res (padding_loop io part v) = Val None -> n = 4)
    /\ (forall x, res (padding_loop io part v) = Val (Some x) ->
        exists p c s d,
          n = S p
          /\ b64decode (part ++ repeat pad p) = Val c
          /\ In s header_lengths
          /\ lzma_decompress io (skipn s c) = Val d).
Proof.
  assert (B : forall ps,
             b64_calls (flat_map (fun p => evs (padding_attempt io part p v)) ps)
             = map (fun p => part ++ repeat pad p) ps).
  { induction ps as [|p ps IH]; [reflexivity|].
    cbn [flat_map map]. now rewrite b64_calls_app, padding_attempt_b64, IH. }
  unfold padding_loop.
  destruct (for_each_cases (seq 0 4) (padding_attempt io part) v)
    as [Hq|(pre & x & post & Hsplit & Hq & Hx)].
  - intros p _. apply padding_attempt_ver.
  - exists 4. rewrite for_each_quiet by exact Hq. cbn [res evs].
    repeat split; [lia|apply B|discriminate].
  - destruct (seq_prefix pre x post Hsplit) as (Hlen & Hpre & Hle).
    exists (S (length pre)).
    rewrite Hsplit, for_each_stops by assumption.
    unfold after. cbn [res evs].
    repeat split.
    + exact Hle.
    + rewrite b64_calls_app, B, padding_attempt_b64, <- Hpre, map_app.
      reflexivity.
    + intros H. contradiction.
    + intros y Hy. apply padding_attempt_returns in Hy as (c & s & d & H).
      exists x, c, s, d. split; [now rewrite Hlen|exact H].
Qed.

Lemma b64_calls_rows io part v ps :
  b64_calls (flat_map (fun p => evs (padding_attempt io part p v)) ps)
  = map (fun p => part ++ repeat pad p) ps.
Proof.
  induction ps as [|p ps IH]; [reflexivity|].
  cbn [flat_map map]. now rewrite b64_calls_app, padding_attempt_b64, IH.
Qed.

Lemma counts_split n : n < 4 -> seq 0 4 = seq 0 n ++ n :: seq (S n) (3 - n).
Proof.
  intros H. destruct n as [|[|[|[|n]]]]; [reflexivity..|lia].
Qed.

Lemma counts_fail io part n :
  (forall p s, p < n -> In s header_lengths ->
               combination_fails io part (p, s)) ->
  Forall (fun p => Forall (fun s => combination_fails io part (p, s))
                     header_lengths) (seq 0 n).
Proof.
  intros H. apply Forall_forall. intros p Hp. apply in_seq in Hp.
  apply Forall_forall. intros s Hs. apply H; [lia|assumption].
Qed.

(** After counts that all failed the way the handlers expect, the loop is
    at the next count. *)
Lemma padding_loop_passes io part v n :
  n < 4 ->
  (forall p s, p < n -> In s header_lengths ->
               combination_fails io part (p, s)) ->
  padding_loop io part v
  = after (flat_map (fun p => evs (padding_attempt io part p v)) (seq 0 n))
      (for_each (n :: seq (S n) (3 - n)) (padding_attempt io part) v).
Proof.
  intros Hn Hf. unfold padding_loop. rewrite (counts_split n Hn).
  apply for_each_passes.
  exact (proj1 (padding_rows_quiet io part v _ (counts_fail io part n Hf))).
Qed.

Lemma padding_attempt_begins io part p v :
  exists tl,
    evs (padding_attempt io part p v)
    = Log (PaddingAttempt p) :: Call (B64Decode (part ++ repeat pad p)) :: tl.
Proof.
  rewrite padding_attempt_run. unfold after. cbn [evs app].
  eexists. reflexivity.
Qed.

Lemma padding_loop_ends_at io part v n :
  n < 4 ->
  (forall p s, p < n -> In s header_lengths ->
               combination_fails io part (p, s)) ->
  res (padding_attempt io part n v) <> Val None ->
  res (padding_loop io part v) = res (padding_attempt io part n v)
  /\ b64_calls (evs (padding_loop io part v))
     = map (fun p => part ++ repeat pad p) (seq 0 (S n)).
Proof.
  intros Hn Hf Hr. rewrite (padding_loop_passes io part v n Hn Hf).
  rewrite for_each_cons. unfold after.
  pose proof (padding_attempt_b64 io part n v) as B.
  destruct (padding_attempt io part n v) as [[[x|]|e] v' t];
    cbn [res evs] in *; try congruence;
    (split; [reflexivity|]);
    now rewrite b64_calls_app, b64_calls_rows, B, seq_S, map_app.
Qed.

(** C6 fails as stated: the payload [AAAA] decodes at padding count 0, no
    skip offset decompresses its three bytes, and the loop goes on to try
    the counts 1, 2 and 3, each of which base64 decodes again. *)
Lemma padding_goes_on_after_base64_success :
  b64decode (lit "AAAA" ++ repeat pad 0)
  = Val [Byte.x00; Byte.x00; Byte.x00]
  /\ b64_calls (evs (decode_hashlink offline
                      (lit "https://itty.bitty.site/#t/?AAAA")))
     = [lit "AAAA"; lit "AAAA="; lit "AAAA=="; lit "AAAA==="]
  /\ map b64decode [lit "AAAA="; lit "AAAA=="; lit "AAAA==="]
     = [Val [Byte.x00; Byte.x00; Byte.x00];
        Val [Byte.x00; Byte.x00; Byte.x00];
        Val [Byte.x00; Byte.x00; Byte.x00]].
Proof. vm_compute. repeat split; reflexivity. Qed.

(** C6 (amended): the padding loop asks base64 for at most four
    candidates, the payload with 0, 1, 2, 3 pads appended, in that order
    and with no gap.  A count fails when base64 raises [binascii.Error]
    or, base64 done, LZMA raises [LZMAError] at every skip offset; after
    counts that all failed the loop tries the next count, so after a
    base64 success too; it stops at the first count whose decoded bytes
    decompress at some skip offset, the earlier offsets having raised
    [LZMAError], with the document of those bytes (or the error of
    reading them as UTF-8), and it stops at a count where base64 raises
    an exception of another class, with that exception; after four
    failed counts it ends without a result.  In [decode_hashlink] these
    are the events that follow the standard check.  For the encoding of
    any bytes with its trailing pads stripped, base64 decodes the original
    bytes at the count that brings the length to a multiple of four, and
    raises [binascii.Error] at every smaller count. *)
Theorem padding_repair io :
  (forall part v,
     exists n,
       n <= 4
       /\ b64_calls (evs (padding_loop io part v))
          = map (fun p => part ++ repeat pad p) (seq 0 n)
       /\ (res (padding_loop io part v) = Val None -> n = 4)
       /\ (forall x, res (padding_loop io part v) = Val (Some x) ->
           exists p c s d,
             n = S p
             /\ b64decode (part ++ repeat pad p) = Val c
             /\ In s header_lengths
             /\ lzma_decompress io (skipn s c) = Val d))
  /\ (forall part v n,
        n < 4 ->
        (forall p s, p < n -> In s header_lengths ->
                     combination_fails io part (p, s)) ->
        (exists tl,
           evs (padding_loop io part v)
           = flat_map (fun p => evs (padding_attempt io part p v)) (seq 0 n)
             ++ Log (PaddingAttempt n)
             :: Call (B64Decode (part ++ repeat pad n)) :: tl)
        /\ (forall ss1 s ss2 data,
              header_lengths = ss1 ++ s :: ss2 ->
              Forall (fun s' => combination_fails io part (n, s')) ss1 ->
              try_combination io part (n, s) = Val data ->
              res (padding_loop io part v)
              = match utf8_decode data with
                | Some doc => Val (Some (Decoded doc v))
                | None => Exc (undecodable io data)
                end
              /\ b64_calls (evs (padding_loop io part v))
                 = map (fun p => part ++ repeat pad p) (seq 0 (S n)))
        /\ (forall e,
              b64decode (part ++ repeat pad n) = Exc e ->
              is_a BinasciiError e = false ->
              res (padding_loop io part v) = Exc e
              /\ b64_calls (evs (padding_loop io part v))
                 = map (fun p => part ++ repeat pad p) (seq 0 (S n))))
  /\ (forall part v,
        (forall p s, p < 4 -> In s header_lengths ->
                     combination_fails io part (p, s)) ->
        res (padding_loop io part v) = Val None
        /\ b64_calls (evs (padding_loop io part v))
           = map (fun p => part ++ repeat pad p) (seq 0 4))
  /\ (forall h m,
        reroute_match h = None ->
        standard_match h = Some m ->
        exists tl,
          evs (decode_hashlink io h)
          = Log (Starting (short h)) :: Log StandardCheck
            :: evs (padding_loop io (group m 2) v_standard) ++ tl)
  /\ (forall data,
        let t := rstrip_char pad (b64encode data) in
        b64decode (t ++ repeat pad (pads_needed t)) = Val data
        /\ forall j, j < pads_needed t ->
           exists e, b64decode (t ++ repeat pad j) = Exc e
                     /\ is_a BinasciiError e = true).
Proof.
  split; [exact (padding_loop_b64_calls io)|].
  split; [|split; [|split; [|exact b64decode_stripped]]].
  - intros part v n Hn Hf. split; [|split].
    + rewrite (padding_loop_passes io part v n Hn Hf), for_each_cons.
      destruct (padding_attempt_begins io part n v) as (tl & Hb).
      unfold after.
      destruct (padding_attempt io part n v) as [[[x|]|e] v' t];
        cbn [evs] in *; subst t; cbn [app]; eexists; reflexivity.
    + intros ss1 s ss2 data Hsplit Hss Hok.
      destruct (padding_attempt_stops io part n v ss1 s ss2 data
                  Hsplit Hss Hok) as [Hr _].
      destruct (padding_loop_ends_at io part v n Hn Hf) as [H1 H2].
      * rewrite Hr. destruct (utf8_decode data); discriminate.
      * now rewrite H1, Hr.
    + intros e He Hcls.
      assert (Hr : res (padding_attempt io part n v) = Exc e).
      { rewrite padding_attempt_run, He, Hcls. reflexivity. }
      destruct (padding_loop_ends_at io part v n Hn Hf) as [H1 H2].
      * rewrite Hr. discriminate.
      * now rewrite H1, Hr.
  - intros part v Hf. unfold padding_loop.
    rewrite for_each_quiet
      by exact (proj1 (padding_rows_quiet io part v _
                         (counts_fail io part 4 Hf))).
    cbn [res evs]. split; [reflexivity|apply b64_calls_rows].
  - intros h m Hre Hst. pose proof (decode_standard io h m Hre Hst) as D.
    destruct (padding_loop io (group m 2) v_standard) as [[[x|]|e] v' t];
      cbn [evs].
    + rewrite D. exists []. cbn [evs]. now rewrite app_nil_r.
    + destruct D as (tl & ->). eexists. reflexivity.
    + rewrite D. eexists. reflexivity.
Qed.

Lemma padding_repair_witness :
  res (padding_loop tabulated (lit "XQAAAAT//////////wA0Glz/////8AAAAA")
         v_standard)
  = Val (Some (Decoded (lit "hi") v_standard))
  /\ b64_calls (evs (padding_loop tabulated
                       (lit "XQAAAAT//////////wA0Glz/////8AAAAA") v_standard))
     = [lit "XQAAAAT//////////wA0Glz/////8AAAAA";
        lit "XQAAAAT//////////wA0Glz/////8AAAAA=";
        lit "XQAAAAT//////////wA0Glz/////8AAAAA=="].
Proof.
  destruct (padding_repair tabulated) as (_ & H & _).
  destruct (H (lit "XQAAAAT//////////wA0Glz/////8AAAAA") v_standard 2)
    as (_ & H2 & _).
  - lia.
  - intros p s Hp Hs.
    assert (E : p = 0 \/ p = 1) by lia.
    destruct E as [-> | ->]; vm_compute; reflexivity.
  - exact (H2 [] 0 [5; 9; 13] (bytes_of "hi") eq_refl (Forall_nil _) eq_refl).
Defined.

(** ** The shape of every run *)

Lemma stages_app t1 t2 : stages (t1 ++ t2) = stages t1 ++ stages t2.
Proof. apply flat_map_app. Qed.

Lemma calls_app t1 t2 : calls (t1 ++ t2) = calls t1 + calls t2.
Proof. unfold calls. now rewrite filter_app, length_app. Qed.

Lemma no_success_app t1 t2 :
  no_success (t1 ++ t2) = no_success t1 && no_success t2.
Proof. apply forallb_app. Qed.

Lemma no_success_rev t : no_success (rev t) = no_success t.
Proof.
  induction t as [|ev t IH]; [reflexivity|].
  cbn [rev]. rewrite no_success_app, IH. cbn. rewrite andb_true_r.
  apply andb_comm.
Qed.

Lemma success_last_app t1 t2 :
  no_success t1 = true -> success_last t2 = true ->
  success_last (t1 ++ t2) = true.
Proof.
  unfold success_last. rewrite rev_app_distr. intros H1 H2.
  destruct (rev t2) as [|ev earlier]; [discriminate|].
  cbn [app]. apply andb_prop in H2 as [Hs He].
  now rewrite Hs, no_success_app, He, no_success_rev, H1.
Qed.

Lemma stages_in_strategy k t :
  Forall (in_strategy k) t -> Forall (eq k) (stages t).
Proof.
  induction 1 as [|ev t [H|H] _ IH]; [constructor| |]; cbn [stages flat_map];
    fold (stages t); rewrite H; [assumption|constructor; auto].
Qed.

Lemma sorted_constant k l : Forall (eq k) l -> StronglySorted le l.
Proof.
  induction 1 as [|x l <- H IH]; constructor; [assumption|].
  eapply Forall_impl; [|exact H]. intros y <-. constructor.
Qed.

Lemma sorted_app l1 l2 :
  StronglySorted le l1 -> StronglySorted le l2 ->
  (forall a b, In a l1 -> In b l2 -> a <= b) ->
  StronglySorted le (l1 ++ l2).
Proof.
  induction 1 as [|x l1 H1 IH Hx]; intros H2 H; [assumption|].
  cbn [app]. constructor.
  - apply IH; [assumption|]. intros a b Ha Hb. apply H; [now right|assumption].
  - apply Forall_app. split; [assumption|].
    apply Forall_forall. intros b Hb. apply H; [now left|assumption].
Qed.

(** A tidy strategy is orderly. *)
Lemma tidy_orderly k b r : tidy k b r -> orderly k b r.
Proof.
  intros (He & Hc & Hs). apply stages_in_strategy in He.
  repeat split.
  - now apply sorted_constant with k.
  - eapply Forall_impl; [|exact He]. intros x <-. constructor.
  - exact Hc.
  - destruct (res r) as [[[d l|m l]|]|e]; auto.
Qed.

Lemma or_else_run {R} (m k : M (option R)) v :
  or_else m k v
  = match m v with
    | Run (Val (Some y)) v' t => Run (Val (Some y)) v' t
    | Run (Val None) v' t => after t (k v')
    | Run (Exc e) v' t => Run (Exc e) v' t
    end.
Proof.
  unfold or_else, bind, ret, after.
  destruct (m v) as [[[y|]|e] v' t]; cbn.
  - now rewrite app_nil_r.
  - now destruct (k v').
  - reflexivity.
Qed.

(** A tidy strategy followed by an orderly run of later strategies. *)
Lemma or_else_orderly k b1 lo b2 (m n : M (option result)) v :
  k <= lo ->
  tidy k b1 (m v) ->
  (forall v', orderly lo b2 (n v')) ->
  orderly k (b1 + b2) (or_else m n v).
Proof.
  intros Hlo Hm Hn. rewrite or_else_run.
  pose proof (tidy_orderly _ _ _ Hm) as (S1 & L1 & C1 & R1).
  destruct Hm as (E1 & _ & _). apply stages_in_strategy in E1.
  unfold orderly.
  destruct (m v) as [[[y|]|e] v' t]; cbn [evs res] in *.
  - repeat split; [assumption..|lia|assumption].
  - destruct (Hn v') as (S2 & L2 & C2 & R2). unfold after. cbn [evs res].
    rewrite stages_app, calls_app. repeat split.
    + apply sorted_app; [assumption..|].
      intros a b Ha Hb. rewrite Forall_forall in E1, L2.
      rewrite <- (E1 a Ha). specialize (L2 b Hb). lia.
    + apply Forall_app. split; [assumption|].
      eapply Forall_impl; [|exact L2]. intros a Ha. cbv beta in Ha. lia.
    + lia.
    + destruct (res (n v')) as [[[d l|f l]|]|e]; auto.
      * now apply success_last_app.
      * rewrite no_success_app, R1, R2. reflexivity.
  - repeat split; try assumption; lia.
Qed.

(** ** Every strategy is tidy *)

Ltac count_calls :=
  rewrite ?calls_app; unfold calls in *;
  cbn [filter is_call length app] in *; lia.

(** A branch taken on a test that computes the other way. *)
Ltac absurd_branch :=
  solve [ match goal with
          | H : _ = true |- _ => cbv in H; discriminate H
          | H : _ = false |- _ => cbv in H; discriminate H
          end ].

Ltac tidy_leaf :=
  first
    [ absurd_branch
    | unfold tidy; cbn [evs res];
      split; [stage_events|];
      split; [cbn; lia|];
      first [ reflexivity | exact I | intros _; reflexivity
            | intros H; discriminate H ] ].

Lemma skip_attempt_tidy io c s v : tidy 2 1 (skip_attempt io c s v).
Proof.
  rewrite skip_attempt_run.
  destruct (lzma_decompress io (skipn s c)) as [d|e];
    [destruct (utf8_decode d)|destruct (is_a LZMAError e)]; tidy_leaf.
Qed.

Lemma for_each_tidy {X} k b xs (body : X -> M (option result)) v :
  (forall x v', tidy k b (body x v')) ->
  tidy k (b * length xs) (for_each xs body v).
Proof.
  intros H. revert v. induction xs as [|x xs IH]; intros v.
  - unfold tidy. cbn. repeat split; [constructor|lia].
  - rewrite for_each_cons. destruct (H x v) as (E1 & C1 & R1).
    destruct (body x v) as [[[y|]|e] v' t]; cbn [evs res length] in *.
    + unfold tidy. cbn [evs res]. repeat split; [assumption|lia|assumption].
    + destruct (IH v') as (E2 & C2 & R2). unfold tidy, after. cbn [evs res].
      rewrite calls_app. repeat split.
      * apply Forall_app. auto.
      * lia.
      * destruct (res (for_each xs body v')) as [[[d l|f l]|]|e]; auto.
        -- now apply success_last_app.
        -- rewrite no_success_app, R1, R2. reflexivity.
        -- intros B. rewrite no_success_app, R1, (R2 B). reflexivity.
    + unfold tidy. cbn [evs res]. repeat split; [assumption|lia|assumption].
Qed.

Lemma skip_loop_tidy io c v : tidy 2 4 (skip_loop io c v).
Proof.
  apply (for_each_tidy 2 1 header_lengths). intros. apply skip_attempt_tidy.
Qed.

Lemma padding_attempt_tidy io part p v : tidy 2 5 (padding_attempt io part p v).
Proof.
  rewrite padding_attempt_run.
  destruct (b64decode (part ++ repeat pad p)) as [c|e].
  - destruct (skip_loop_tidy io c v) as (E & C & R).
    unfold tidy, after.
    destruct (skip_loop io c v) as [[[[d l|f l]|]|e] v' t]; cbn [evs res] in *.
    + repeat split.
      * stage_events. assumption.
      * count_calls.
      * now apply (success_last_app [_; _]).
    + repeat split.
      * stage_events. assumption.
      * count_calls.
    + repeat split.
      * stage_events. assumption.
      * count_calls.
      * assumption.
    + destruct (is_a BinasciiError e) eqn:B; cbn [evs res]; repeat split.
      * stage_events. apply Forall_app. split; [assumption|stage_events].
      * count_calls.
      * cbn [app no_success forallb is_success negb andb].
        fold (no_success (t ++ [Log (PaddingFailed p e)])).
        rewrite no_success_app, (R eq_refl). reflexivity.
      * stage_events. assumption.
      * count_calls.
      * intros B'. congruence.
  - unfold after. destruct (is_a BinasciiError e) eqn:B; tidy_leaf.
Qed.

Lemma padding_loop_tidy io part v : tidy 2 20 (padding_loop io part v).
Proof.
  apply (for_each_tidy 2 5 (seq 0 4)). intros. apply padding_attempt_tidy.
Qed.

Lemma standard_strategy_tidy io h v : tidy 2 20 (standard_strategy io h v).
Proof.
  unfold standard_strategy.
  destruct (standard_match h) as [m|]; [|tidy_leaf].
  destruct (padding_loop_tidy io (group m 2) v_standard) as (E & C & R).
  exec_monad. unfold tidy.
  destruct (padding_loop io (group m 2) v_standard) as [[[[d l|f l]|]|e] v' t];
    cbn [evs res] in *; repeat split;
    try (stage_events; assumption); try assumption.
  now apply (success_last_app [_]).
Qed.

Lemma reroute_strategy_tidy io h v : tidy 1 1 (reroute_strategy io h v).
Proof.
  unfold reroute_strategy.
  destruct (reroute_match h) as [m|]; exec_monad; [|tidy_leaf].
  repeat case_step; tidy_leaf.
Qed.

Lemma js_strategy_tidy io h v : tidy 3 3 (js_strategy io h v).
Proof.
  unfold js_strategy. exec_monad. repeat case_step; tidy_leaf.
Qed.

Lemma fetch_strategy_tidy io h v : tidy 4 2 (fetch_strategy io h v).
Proof.
  exec. repeat case_step; tidy_leaf.
Qed.

(** ** C3: one result, after a bounded and ordered run *)

Lemma success_last_inv t :
  success_last t = true ->
  exists earlier ev,
    t = earlier ++ [ev] /\ is_success ev = true /\ no_success earlier = true.
Proof.
  unfold success_last. destruct (rev t) as [|ev e'] eqn:E; [discriminate|].
  intros H. apply andb_prop in H as [Hs He].
  exists (rev e'), ev. repeat split; [|assumption|now rewrite no_success_rev].
  rewrite <- (rev_involutive t), E. reflexivity.
Qed.

Lemma or_else_returns {R} (m n : M (option R)) v :
  (forall v', res (n v') <> Val None) -> res (or_else m n v) <> Val None.
Proof.
  intros H. rewrite or_else_run.
  destruct (m v) as [[[y|]|e] v' t]; cbn; try discriminate. apply H.
Qed.

Lemma from_standard_orderly io h v : orderly 2 25 (from_standard io h v).
Proof.
  unfold from_standard.
  apply (or_else_orderly 2 20 3 5); [lia|apply standard_strategy_tidy|].
  intros v2. apply (or_else_orderly 3 3 4 2); [lia|apply js_strategy_tidy|].
  intros v3. apply (or_else_orderly 4 2 5 0); [lia|apply fetch_strategy_tidy|].
  intros v4. unfold orderly. cbn. repeat split; constructor.
Qed.

Lemma from_standard_returns io h v : res (from_standard io h v) <> Val None.
Proof.
  unfold from_standard.
  apply or_else_returns; intros v2.
  apply or_else_returns; intros v3.
  apply or_else_returns; intros v4.
  discriminate.
Qed.

Lemma reroute_strategy_commits io h v m :
  reroute_match h = Some m ->
  exists x, res (reroute_strategy io h v) = Val (Some x).
Proof.
  intros H. unfold reroute_strategy. rewrite H. exec_monad.
  repeat case_step; eexists; reflexivity.
Qed.

Lemma cascade_run io h v :
  cascade io h v
  = after [Log (Starting (short h))]
      (or_else (reroute_strategy io h) (from_standard io h) v).
Proof.
  unfold cascade, from_standard, unknown_format, after.
  set (k := or_else _ _).
  unfold bind, log, tell. now destruct (k v).
Qed.

(** The body of the outer [try] is orderly and never runs off its end. *)
Lemma cascade_orderly io h v :
  orderly 1 25 (cascade io h v) /\ res (cascade io h v) <> Val None.
Proof.
  rewrite cascade_run, or_else_run.
  pose proof (reroute_strategy_tidy io h v) as T.
  destruct (reroute_match h) as [m|] eqn:Hm.
  - destruct (reroute_strategy_commits io h v m Hm) as (x & Hx).
    apply tidy_orderly in T. destruct T as (S1 & L1 & C1 & R1).
    destruct (reroute_strategy io h v) as [o v' t]. cbn in Hx. subst o.
    unfold after. cbn [evs res] in *. unfold orderly. cbn [evs res app].
    repeat split; try assumption; try discriminate.
    + change (calls (?a :: t)) with (calls t). lia.
    + destruct x as [d l|f l]; [|exact I].
      now apply (success_last_app [_]).
  - assert (E : reroute_strategy io h v = Run (Val None) v []).
    { unfold reroute_strategy. now rewrite Hm. }
    rewrite E. unfold after. cbn [evs res app].
    pose proof (from_standard_orderly io h v) as (S2 & L2 & C2 & R2).
    pose proof (from_standard_returns io h v) as N.
    destruct (from_standard io h v) as [o v' t]. cbn [evs res] in *.
    split; [|exact N]. unfold orderly. cbn [evs res].
    repeat split; try assumption.
    + eapply Forall_impl; [|exact L2]. intros a Ha. cbv beta in Ha. lia.
    + destruct o as [[[d l|f l]|]|e]; auto.
      now apply (success_last_app [_]).
Qed.

(** C3: [decode_hashlink] is a total function that always ends in exactly
    one returned pair, a decoded document or a failure, each with a label:
    it never raises and never runs off its end.  It gets there after at
    most 25 calls into the libraries; the strategies of its events never
    go back (1, then 2, then 3, then 4); and when it returns a document,
    the record announcing that document is the last event of the run and
    the only such record, so nothing was attempted after the first
    success. *)
Theorem decode_hashlink_one_result io h :
  (exists x, res (decode_hashlink io h) = Val (Some x))
  /\ calls (evs (decode_hashlink io h)) <= 25
  /\ StronglySorted le (stages (evs (decode_hashlink io h)))
  /\ (forall document label,
        res (decode_hashlink io h) = Val (Some (Decoded document label)) ->
        exists earlier ev,
          evs (decode_hashlink io h) = earlier ++ [ev]
          /\ is_success ev = true /\ no_success earlier = true).
Proof.
  destruct (cascade_orderly io h v_unknown) as ((S & L & C & R) & N).
  unfold decode_hashlink. exec_monad.
  destruct (cascade io h v_unknown) as [[[x|]|e] v' t]; cbn [evs res] in *.
  - repeat split; [eexists; reflexivity|assumption..|].
    intros d l [= ->]. now apply success_last_inv.
  - congruence.
  - rewrite stages_app, calls_app. cbn [stages flat_map strategy_of app].
    rewrite app_nil_r.
    repeat split; [eexists; reflexivity| |assumption|discriminate].
    cbn. lia.
Qed.

(** ** The shape of a generated hashlink *)

Lemma b64encode_alphabet (P : char -> bool) data :
  (forall v, (v < 64)%N -> P (b64char v) = true) -> P pad = true ->
  forallb P (b64encode data) = true.
Proof.
  intros Hv Hp.
  induction data as [|a|a b|a b c rest IH] using triple_ind.
  - reflexivity.
  - rewrite b64encode_one. cbn [forallb].
    now rewrite Hp, !Hv by (apply sx0_small || apply sx1_small).
  - rewrite b64encode_two. cbn [forallb].
    now rewrite Hp, !Hv
      by (apply sx0_small || apply sx1_small || apply sx2_small).
  - rewrite b64encode_chunk. cbn [forallb]. rewrite IH.
    now rewrite !Hv
      by (apply sx0_small || apply sx1_small || apply sx2_small
          || apply sx3_small).
Qed.

Lemma b64encode_no_break data : forallb no_break (b64encode data) = true.
Proof.
  apply b64encode_alphabet; [|reflexivity].
  apply (for_sextets (fun v => no_break (b64char v))).
  vm_compute. reflexivity.
Qed.

Lemma quote_no_slash data : forallb no_slash (quote_from_bytes data) = true.
Proof.
  unfold quote_from_bytes.
  induction data as [|b data IH]; [reflexivity|].
  cbn [flat_map]. rewrite forallb_app, IH, andb_true_r.
  revert b. apply (for_bytes (fun b => forallb no_slash (quote_byte b))).
  vm_compute. reflexivity.
Qed.

Lemma forallb_weaken {X} (P Q : X -> bool) l :
  (forall x, P x = true -> Q x = true) ->
  forallb P l = true -> forallb Q l = true.
Proof.
  intros H. rewrite !forallb_forall. auto.
Qed.

Lemma no_break_dot c : no_break c = true -> dot c = true.
Proof. unfold no_break. intros H. now apply andb_prop in H. Qed.

Lemma no_break_semicolon c : no_break c = true -> isnot ";" c = true.
Proof. unfold no_break. intros H. now apply andb_prop in H. Qed.

Lemma no_slash_no_break c : no_slash c = true -> no_break c = true.
Proof. unfold no_slash. intros H. now apply andb_prop in H. Qed.

Lemma no_slash_slash c : no_slash c = true -> isnot "/" c = true.
Proof. unfold no_slash. intros H. now apply andb_prop in H. Qed.

(** A lazy star steps over the characters at which what follows cannot
    start. *)
Lemma star_lazy_skip A p w rest (k : str -> option A) :
  forallb p w = true ->
  (forall c s, In c w -> k (c :: s) = None) ->
  star_lazy p (w ++ rest) k = star_lazy p rest k.
Proof.
  induction w as [|c w IH]; intros Hp Hk; [reflexivity|].
  cbn [forallb] in Hp. apply andb_prop in Hp as [Hc Hp].
  cbn [app star_lazy]. rewrite Hk by (left; reflexivity). rewrite Hc.
  apply IH; [assumption|]. intros d s Hd. apply Hk. now right.
Qed.

Lemma star_lazy_here A p s (k : str -> option A) v :
  k s = Some v -> star_lazy p s k = Some v.
Proof. intros H. destruct s; cbn [star_lazy]; now rewrite H. Qed.

Lemma drop_while_all p w : forallb p w = true -> drop_while p w = [].
Proof.
  intros H. rewrite <- (app_nil_r w). now rewrite drop_while_app.
Qed.

Lemma strip_prefix_other c d l s :
  char_eqb c d = false -> strip_prefix (c :: l) (d :: s) = None.
Proof. intros H. cbn [strip_prefix]. now rewrite H. Qed.

(** The standard pattern reads a generated hashlink as written: the
    quoted title up to the first [/?], the base64 text after it. *)
Lemma standard_match_generated q b64 :
  forallb no_slash q = true -> forallb no_break b64 = true ->
  exists m,
    standard_match (site ++ lit "#" ++ q ++ lit "/?" ++ b64) = Some m
    /\ group m 2 = b64.
Proof.
  intros Hq Hb.
  assert (Hqd : forallb dot q = true).
  { eapply forallb_weaken; [|exact Hq].
    intros c Hc. now apply no_break_dot, no_slash_no_break. }
  assert (Hbd : forallb dot b64 = true).
  { eapply forallb_weaken; [|exact Hb]. apply no_break_dot. }
  unfold standard_match, re_match, standard_re.
  rewrite app_assoc. rewrite rx_cat. cbn [rx].
  rewrite strip_prefix_app.
  rewrite star_lazy_skip; [|exact Hqd|].
  - eexists. split.
    + apply star_lazy_here. rewrite strip_prefix_app.
      rewrite star_greedy_total by discriminate.
      rewrite drop_while_all by exact Hbd. reflexivity.
    + unfold group, groups, set_capture. cbn [Nat.eqb length].
      rewrite Nat.sub_0_r. now rewrite firstn_all.
  - intros c s Hc.
    rewrite forallb_forall in Hq. apply Hq, no_slash_slash in Hc.
    unfold isnot in Hc. apply negb_true_iff in Hc.
    change (lit "/?") with [ch "/"; ch "?"].
    rewrite strip_prefix_other; [reflexivity|].
    unfold char_eqb in *. now rewrite N.eqb_sym.
Qed.

(** The reroute pattern finds no [data:text/html;charset=...] in it. *)
Lemma reroute_match_generated q b64 :
  forallb no_slash q = true -> forallb no_break b64 = true ->
  reroute_match (site ++ lit "#" ++ q ++ lit "/?" ++ b64) = None.
Proof.
  intros Hq Hb.
  assert (H : forallb (isnot ";") (lit "#" ++ q ++ lit "/?" ++ b64) = true).
  { assert (Hq' : forallb (isnot ";") q = true).
    { eapply forallb_weaken; [|exact Hq].
      intros c Hc. now apply no_break_semicolon, no_slash_no_break. }
    assert (Hb' : forallb (isnot ";") b64 = true).
    { eapply forallb_weaken; [|exact Hb]. apply no_break_semicolon. }
    rewrite !forallb_app, Hq', Hb'. reflexivity. }
  destruct (reroute_match _) as [m|] eqn:E; [|reflexivity].
  apply reroute_match_inv in E
    as (pre & X & o1 & o2 & c & s0 & Hh & _).
  apply app_inv_head in Hh. rewrite Hh in H.
  rewrite !forallb_app in H.
  do 5 (apply andb_prop in H as [_ H]). apply andb_prop in H as [H _].
  vm_compute in H. discriminate H.
Qed.

(** ** C2: what [generate_hashlink] wrote, [decode_hashlink] reads back *)

Lemma padding_loop_first io compressed data page v :
  lzma_decompress io compressed = Val data ->
  utf8_decode data = Some page ->
  padding_loop io (b64encode compressed) v
  = Run (Val (Some (Decoded page v))) v
      [Log (PaddingAttempt 0);
       Call (B64Decode (b64encode compressed));
       Call (LzmaDecompress compressed);
       Log PaddingSuccess].
Proof.
  intros Hl Hu. unfold padding_loop. cbn [seq]. rewrite for_each_cons.
  rewrite padding_attempt_run. change (repeat pad 0) with (@nil char).
  rewrite app_nil_r, b64decode_b64encode.
  unfold skip_loop, header_lengths. rewrite for_each_cons.
  rewrite skip_attempt_run. change (skipn 0 compressed) with compressed.
  rewrite Hl, Hu. reflexivity.
Qed.

Example sample_page_rendered :
  html_content sample_title sample_body sample_link []
  = Val (sample_page, sample_title).
Proof. vm_compute. reflexivity. Qed.

Example sample_hashlink_generated :
  generate_hashlink press sample_title sample_body sample_link []
  = Val sample_hashlink.
Proof. vm_compute. reflexivity. Qed.

(** A link that is no link stops the composer. *)
Example invalid_link_refused :
  generate_hashlink press sample_title sample_body
    (set_value LinkInput (lit "see below")) []
  = Exc invalid_link.
Proof. vm_compute. reflexivity. Qed.

(** C2: round trip.  Whenever [generate_hashlink] returns a hashlink for
    a title, a body and a link (it raises instead when the link is
    invalid or the page has no UTF-8 form), and the LZMA library
    decompresses what it compressed of the page's bytes, [decode_hashlink]
    on that hashlink returns the rendered page unchanged under the label
    of strategy 2, and gets there at once: after the start record and the
    standard-format record come the padding attempt with 0 pads, the
    base64 decoding of the text as written, a single LZMA call on the
    whole of the decoded bytes (skip offset 0), and the success record. *)
Theorem generate_decode_round_trip io title_input body_input link_input
    btc_snapshot page title_after data h :
  html_content title_input body_input link_input btc_snapshot
  = Val (page, title_after) ->
  utf8_encode page = Some data ->
  lzma_decompress io (lzma_compress io data) = Val data ->
  generate_hashlink io title_input body_input link_input btc_snapshot
  = Val h ->
  decode_hashlink io h
  = Run (Val (Some (Decoded page v_standard))) v_standard
      [Log (Starting (short h));
       Log StandardCheck;
       Log (PaddingAttempt 0);
       Call (B64Decode (b64encode (lzma_compress io data)));
       Call (LzmaDecompress (lzma_compress io data));
       Log PaddingSuccess].
Proof.
  intros Hp He Hl Hg.
  unfold generate_hashlink in Hg. rewrite Hp in Hg. cbn [and_then] in Hg.
  unfold encode_utf8 at 1 in Hg. rewrite He in Hg. cbn [and_then] in Hg.
  unfold quote, encode_utf8 in Hg.
  destruct (utf8_encode (if truthy (value title_after) then _ else _))
    as [title_bytes|]; cbn [and_then] in Hg;
    [|discriminate Hg].
  assert (E : h = site ++ lit "#" ++ quote_from_bytes title_bytes
                  ++ lit "/?" ++ b64encode (lzma_compress io data))
    by congruence.
  clear Hg. subst h.
  destruct (standard_match_generated (quote_from_bytes title_bytes)
              (b64encode (lzma_compress io data))
              (quote_no_slash _) (b64encode_no_break _)) as (m & Hm & G).
  pose proof (decode_standard io _ m
                (reroute_match_generated _ _ (quote_no_slash _)
                   (b64encode_no_break _)) Hm) as D.
  rewrite G in D.
  rewrite (padding_loop_first io _ data page v_standard Hl
             (utf8_decode_encode _ _ He)) in D.
  exact D.
Qed.

Lemma generate_decode_round_trip_witness :
  decode_hashlink press sample_hashlink
  = Run (Val (Some (Decoded sample_page v_standard))) v_standard
      [Log (Starting (short sample_hashlink));
       Log StandardCheck;
       Log (PaddingAttempt 0);
       Call (B64Decode
               (b64encode (lzma_compress press (map byte_of_N sample_page))));
       Call (LzmaDecompress
               (lzma_compress press (map byte_of_N sample_page)));
       Log PaddingSuccess].
Proof.
  apply (generate_decode_round_trip press sample_title sample_body
           sample_link [] sample_page sample_title
           (map byte_of_N sample_page) sample_hashlink);
    vm_compute; reflexivity.
Defined.

(** * The input classes *)

(** ** Stripping tags *)

(** A greedy star gives back nothing when what follows cannot start with a
    character of its class. *)
Lemma star_greedy_stops A p s (k : str -> option A) :
  (forall c s', p c = true -> k (c :: s') = None) ->
  star_greedy p s k = k (drop_while p s).
Proof.
  intros Hk. induction s as [|c s IH]; [reflexivity|].
  cbn [star_greedy drop_while]. destruct (p c) eqn:E; [|reflexivity].
  rewrite IH. destruct (k (drop_while p s)); [reflexivity|].
  now apply Hk.
Qed.

Lemma drop_while_head p s c r : drop_while p s = c :: r -> p c = false.
Proof.
  induction s as [|d s IH]; cbn [drop_while]; [discriminate|].
  destruct (p d) eqn:E; [exact IH|]. now intros [= <- _].
Qed.

Lemma drop_while_length p s : length (drop_while p s) <= length s.
Proof.
  induction s as [|d s IH]; cbn [drop_while length]; [lia|].
  destruct (p d); cbn [length]; lia.
Qed.

Lemma isnot_false a c : isnot a c = false -> c = ch a.
Proof.
  unfold isnot, char_eqb. intros H. apply negb_false_iff in H.
  now apply N.eqb_eq.
Qed.

Lemma re_match_tag s :
  re_match tag_re s
  = option_map (fun r => {| groups := no_captures; m_rest := r |}) (tag_end s).
Proof.
  unfold re_match, tag_re, Plus. cbn [rx].
  change (lit "<") with [ch "<"]. change (lit ">") with [ch ">"].
  destruct s as [|c s]; [reflexivity|].
  cbn [strip_prefix tag_end].
  destruct (char_eqb (ch "<") c) eqn:Ec.
  - assert (Ec' : char_eqb c (ch "<") = true)
      by (unfold char_eqb in *; now rewrite N.eqb_sym).
    rewrite Ec'. destruct s as [|d s]; [reflexivity|].
    cbn [andb]. destruct (isnot ">" d); [|reflexivity].
    rewrite star_greedy_stops.
    + destruct (drop_while (isnot ">") s) as [|e r] eqn:Ed; [reflexivity|].
      apply drop_while_head, isnot_false in Ed. subst e.
      reflexivity.
    + intros e s' He. cbn [strip_prefix].
      unfold isnot in He. apply negb_true_iff in He.
      unfold char_eqb in *. now rewrite N.eqb_sym, He.
  - assert (Ec' : char_eqb c (ch "<") = false)
      by (unfold char_eqb in *; now rewrite N.eqb_sym).
    rewrite Ec'. now destruct s.
Qed.

Lemma tag_end_shorter s r : tag_end s = Some r -> length r < length s.
Proof.
  destruct s as [|c [|d s]]; cbn [tag_end]; try discriminate.
  destruct (char_eqb c (ch "<") && isnot ">" d); [|discriminate].
  pose proof (drop_while_length (isnot ">") s) as L.
  destruct (drop_while (isnot ">") s) as [|e r']; [discriminate|].
  intros [= <-]. cbn [length] in *. lia.
Qed.

(** One step of [re.sub] with the tag pattern. *)
Lemma re_delete_tag_step fuel c s :
  re_delete_from (S fuel) tag_re (c :: s)
  = match tag_end (c :: s) with
    | Some r => re_delete_from fuel tag_re r
    | None => c :: re_delete_from fuel tag_re s
    end.
Proof.
  cbn [re_delete_from]. rewrite re_match_tag.
  now destruct (tag_end (c :: s)).
Qed.

(** ** Searching and deleting *)

Lemma re_search_nil r :
  re_search r [] = option_map (fun m => ([], m)) (re_match r []).
Proof. unfold re_search. now destruct (re_match r []). Qed.

Lemma re_search_cons r c s :
  re_search r (c :: s)
  = match re_match r (c :: s) with
    | Some m => Some ([], m)
    | None => option_map (fun '(pre, m) => (c :: pre, m)) (re_search r s)
    end.
Proof.
  change (re_search r (c :: s))
    with (match re_match r (c :: s) with
          | Some m => Some ([], m)
          | None =>
              match re_search r s with
              | Some (pre, m) => Some (c :: pre, m)
              | None => None
              end
          end).
  destruct (re_match r (c :: s)); [reflexivity|].
  now destruct (re_search r s) as [[pre m]|].
Qed.

Lemma re_search_none_cons r c s :
  re_search r (c :: s) = None
  <-> re_match r (c :: s) = None /\ re_search r s = None.
Proof.
  rewrite re_search_cons. destruct (re_match r (c :: s)).
  - split; [discriminate|]. intros [H _]. discriminate H.
  - destruct (re_search r s) as [[pre m]|]; cbn [option_map].
    + split; [discriminate|]. intros [_ H]. discriminate H.
    + tauto.
Qed.

(** Where the pattern is found nowhere, [re.sub] changes nothing. *)
Lemma re_delete_from_absent r s : forall fuel,
  re_search r s = None -> re_delete_from fuel r s = s.
Proof.
  induction s as [|c s IH]; intros [|fuel] H; try reflexivity.
  apply re_search_none_cons in H as [Hm Hs].
  cbn [re_delete_from]. rewrite Hm. now rewrite IH.
Qed.

Lemma re_delete_absent r s : re_search r s = None -> re_delete r s = s.
Proof. apply re_delete_from_absent. Qed.

Lemma drop_while_nil p s : drop_while p s = [] -> forallb p s = true.
Proof.
  induction s as [|c s IH]; cbn [drop_while forallb]; [reflexivity|].
  destruct (p c); [exact IH|discriminate].
Qed.

(** A text without [>] holds no tag. *)
Lemma re_search_tag_open s :
  forallb (isnot ">") s = true -> re_search tag_re s = None.
Proof.
  induction s as [|c s IH]; intros H.
  - rewrite re_search_nil, re_match_tag. reflexivity.
  - cbn [forallb] in H. apply andb_prop in H as [Hc Hs].
    apply re_search_none_cons. split; [|now apply IH].
    rewrite re_match_tag. destruct s as [|d s]; [reflexivity|].
    cbn [tag_end]. cbn [forallb] in Hs. apply andb_prop in Hs as [Hd Hs].
    rewrite (drop_while_all _ _ Hs).
    now destruct (char_eqb c (ch "<") && isnot ">" d).
Qed.

(** A text without [<] holds none either. *)
Lemma re_search_tag_closed s :
  contains (lit "<") s = false -> re_search tag_re s = None.
Proof.
  induction s as [|c s IH]; intros H.
  - rewrite re_search_nil, re_match_tag. reflexivity.
  - change (contains (lit "<") (c :: s))
      with (startswith (c :: s) (lit "<") || contains (lit "<") s) in H.
    apply orb_false_elim in H as [Hc Hs].
    apply re_search_none_cons. split; [|now apply IH].
    rewrite re_match_tag.
    assert (E : char_eqb c (ch "<") = false).
    { unfold startswith in Hc. change (lit "<") with [ch "<"] in Hc.
      cbn [strip_prefix] in Hc. unfold char_eqb in *. rewrite N.eqb_sym.
      now destruct (N.eqb (ch "<") c). }
    destruct s as [|d s]; [reflexivity|]. cbn [tag_end]. now rewrite E.
Qed.

(** What [re.sub] leaves of a text holds no tag. *)
Lemma re_delete_from_tagless : forall fuel s,
  length s < fuel ->
  re_search tag_re (re_delete_from fuel tag_re s) = None.
Proof.
  induction fuel as [|fuel IH]; intros s Hl; [lia|].
  destruct s as [|c s].
  - cbn [re_delete_from]. rewrite re_search_nil, re_match_tag. reflexivity.
  - rewrite re_delete_tag_step.
    destruct (tag_end (c :: s)) as [r|] eqn:Et.
    + apply IH. apply tag_end_shorter in Et. cbn [length] in *. lia.
    + cbn [length] in Hl.
      apply re_search_none_cons. split; [|apply IH; lia].
      rewrite re_match_tag.
      destruct s as [|d s].
      { destruct fuel; reflexivity. }
      destruct fuel as [|fuel]; [cbn [length] in Hl; lia|].
      cbn [tag_end] in Et.
      destruct (char_eqb c (ch "<")) eqn:Ec; cbn [andb] in Et.
      * destruct (isnot ">" d) eqn:Ed.
        -- destruct (drop_while (isnot ">") s) as [|e r] eqn:Ew;
             [|discriminate].
           apply drop_while_nil in Ew.
           rewrite re_delete_from_absent.
           ++ cbn [tag_end]. rewrite Ec, Ed. cbn [andb].
              now rewrite (drop_while_all _ _ Ew).
           ++ apply re_search_tag_open. cbn [forallb]. now rewrite Ed, Ew.
        -- rewrite re_delete_tag_step.
           assert (Et' : tag_end (d :: s) = None).
           { apply isnot_false in Ed. subst d.
             destruct s as [|e s]; reflexivity. }
           rewrite Et'. cbn [tag_end]. rewrite Ec, Ed. reflexivity.
      * destruct (re_delete_from (S fuel) tag_re (d :: s)) as [|e out];
          [reflexivity|].
        cbn [tag_end]. now rewrite Ec.
Qed.

Lemma re_delete_tagless s : re_search tag_re (re_delete tag_re s) = None.
Proof. apply re_delete_from_tagless. lia. Qed.

(** ** [sanitize] *)

Ltac fields :=
  cbn [set_value value allow_links allow_html placeholder negb andb] in *.

Lemma no_prefix_of_empty : existsb (startswith []) link_prefixes = false.
Proof. reflexivity. Qed.

Lemma contains_empty p c : contains (c :: p) [] = false.
Proof. reflexivity. Qed.

Lemma strip_tags_again v :
  re_delete tag_re (re_delete tag_re v) = re_delete tag_re v.
Proof. apply re_delete_absent, re_delete_tagless. Qed.

Lemma sanitize_flags self :
  placeholder (sanitize self) = placeholder self
  /\ allow_html (sanitize self) = allow_html self
  /\ allow_links (sanitize self) = allow_links self.
Proof.
  unfold sanitize.
  destruct (negb (allow_html self) && contains (lit "<") (value self));
    fields;
    destruct (negb (allow_links self) && _);
    fields; auto.
Qed.

Lemma sanitize_twice self : sanitize (sanitize self) = sanitize self.
Proof.
  destruct self as [v ph ah al]. unfold sanitize. fields.
  destruct ah, al; fields.
  - reflexivity.
  - destruct (existsb (startswith v) link_prefixes) eqn:E; fields.
    + reflexivity.
    + now rewrite E.
  - destruct (contains (lit "<") v) eqn:C; fields.
    + destruct (contains (lit "<") (re_delete tag_re v)); fields;
        now rewrite ?strip_tags_again.
    + now rewrite C.
  - destruct (contains (lit "<") v) eqn:C; fields.
    + destruct (existsb (startswith (re_delete tag_re v)) link_prefixes) eqn:E;
        fields; [reflexivity|].
      destruct (contains (lit "<") (re_delete tag_re v)); fields;
        rewrite ?strip_tags_again, E; reflexivity.
    + destruct (existsb (startswith v) link_prefixes) eqn:E; fields.
      * reflexivity.
      * rewrite C. fields. now rewrite E.
Qed.

Lemma re_delete_from_tag_length : forall fuel s,
  length (re_delete_from fuel tag_re s) <= length s.
Proof.
  induction fuel as [|fuel IH]; intros s; [reflexivity|].
  destruct s as [|c s]; [reflexivity|].
  rewrite re_delete_tag_step.
  destruct (tag_end (c :: s)) as [r|] eqn:E.
  - apply tag_end_shorter in E. specialize (IH r). lia.
  - cbn [length]. specialize (IH s). lia.
Qed.

Lemma sanitize_length self :
  length (value (sanitize self)) <= length (value self).
Proof.
  unfold sanitize.
  pose proof (re_delete_from_tag_length (S (length (value self))) (value self))
    as L.
  unfold re_delete.
  destruct (negb (allow_html self) && contains (lit "<") (value self)); fields;
    destruct (negb (allow_links self) && _); fields; cbn [length]; lia.
Qed.

(** X1: [sanitize] is idempotent: called again on the object it left, as
    [validate] and the [render] methods do, it changes nothing; and it
    only ever touches the value, which it shortens or keeps. *)
Theorem sanitize_idempotent self :
  sanitize (sanitize self) = sanitize self
  /\ placeholder (sanitize self) = placeholder self
  /\ allow_html (sanitize self) = allow_html self
  /\ allow_links (sanitize self) = allow_links self
  /\ length (value (sanitize self)) <= length (value self).
Proof.
  split; [apply sanitize_twice|].
  destruct (sanitize_flags self) as (P & H & L).
  repeat split; try assumption.
  apply sanitize_length.
Qed.

(** X2: what [sanitize] leaves holds no tag when the object does not allow
    HTML ([re.search] of the tag pattern finds nothing in it), and starts
    with none of [http], [ipfs], [magnet], [base64] when the object does
    not allow links. *)
Theorem sanitize_leaves_no_tag_and_no_link self :
  (allow_html self = false ->
   re_search tag_re (value (sanitize self)) = None)
  /\ (allow_links self = false ->
      existsb (startswith (value (sanitize self))) link_prefixes = false).
Proof.
  destruct self as [v ph ah al]. unfold sanitize.
  fields. split.
  - intros ->. fields.
    assert (T : re_search tag_re
                  (if contains (lit "<") v then re_delete tag_re v else v)
                = None).
    { destruct (contains (lit "<") v) eqn:C.
      - apply re_delete_tagless.
      - now apply re_search_tag_closed. }
    destruct (contains (lit "<") v);
      fields;
      destruct (negb al && _);
      fields;
      try exact T; now apply re_search_tag_closed.
  - intros ->. fields.
    destruct (negb ah && contains (lit "<") v); fields;
      match goal with
      | |- context [if existsb (startswith ?x) link_prefixes then _ else _] =>
          destruct (existsb (startswith x) link_prefixes) eqn:E
      end; fields; (reflexivity || exact E).
Qed.

(** ** Reading a pattern's matches *)

Lemma matches_cat r1 r2 s g s' g' :
  matches (Cat r1 r2) s g s' g' ->
  exists s1 g1, matches r1 s g s1 g1 /\ matches r2 s1 g1 s' g'.
Proof. inversion 1; subst; eauto. Qed.

Lemma matches_str l s g s' g' :
  matches (Str l) s g s' g' -> s = l ++ s' /\ g' = g.
Proof. inversion 1; subst; auto. Qed.

Lemma matches_cls p s g s' g' :
  matches (Cls p) s g s' g' -> exists c, s = c :: s' /\ p c = true /\ g' = g.
Proof. inversion 1; subst; eauto. Qed.

Lemma matches_star p s g s' g' :
  matches (Star p) s g s' g' ->
  exists w, s = w ++ s' /\ forallb p w = true /\ g' = g.
Proof. inversion 1; subst; eauto. Qed.

Lemma matches_opt r s g s' g' :
  matches (Opt r) s g s' g' -> matches r s g s' g' \/ (s = s' /\ g' = g).
Proof. inversion 1; subst; auto. Qed.

Lemma matches_alt r1 r2 s g s' g' :
  matches (Alt r1 r2) s g s' g' -> matches r1 s g s' g' \/ matches r2 s g s' g'.
Proof. inversion 1; subst; auto. Qed.

Lemma matches_grp n r s g s' g' :
  matches (Grp n r) s g s' g' ->
  exists g0, matches r s g s' g0
             /\ g' = set_capture n (firstn (length s - length s') s) g0.
Proof. inversion 1; subst; eauto. Qed.

Lemma matches_eos s g s' g' :
  matches Eos s g s' g' -> s' = s /\ g' = g /\ (s = [] \/ s = nl).
Proof. inversion 1; subst; auto. Qed.

Lemma eos_matches tail g :
  tail = [] \/ tail = nl -> matches Eos tail g tail g.
Proof. intros [->| ->]; constructor. Qed.

Lemma matches_times_cls n p : forall s g s' g',
  matches (times n (Cls p)) s g s' g' ->
  exists w, s = w ++ s' /\ length w = n /\ forallb p w = true /\ g' = g.
Proof.
  induction n as [|n IH]; intros s g s' g' H; cbn [times] in H.
  - inversion H; subst. exists []. auto.
  - apply matches_cat in H as (s1 & g1 & Hc & Hr).
    apply matches_cls in Hc as (c & -> & Hc & ->).
    apply IH in Hr as (w & -> & <- & Hw & ->).
    exists (c :: w). cbn [forallb length app]. rewrite Hc, Hw. auto.
Qed.

Lemma times_cls_matches p w s g :
  forallb p w = true -> matches (times (length w) (Cls p)) (w ++ s) g s g.
Proof.
  induction w as [|c w IH]; cbn [length times forallb app]; intros H.
  - constructor.
  - apply andb_prop in H as [Hc Hw].
    eapply m_cat; [now constructor|now apply IH].
Qed.

(** ** The link pattern *)

(** A scheme and the rest of its line. *)
Lemma matches_scheme scheme s g s' g' :
  matches (Cat (Str scheme) (Star dot)) s g s' g' ->
  exists line, s = scheme ++ line ++ s' /\ forallb dot line = true.
Proof.
  intros H. apply matches_cat in H as (s1 & g1 & Hs & Hl).
  apply matches_str in Hs as [-> ->].
  apply matches_star in Hl as (w & -> & Hw & _). eauto.
Qed.

Lemma link_pattern_sound s m :
  re_match link_pattern s = Some m -> link_shaped s.
Proof.
  intros H. apply re_match_sound in H. unfold link_pattern in H.
  apply matches_cat in H as (tail & g1 & Hg & He).
  apply matches_eos in He as (_ & _ & Hend).
  apply matches_grp in Hg as (g0 & Ha & _).
  assert (shape : forall scheme line,
    In scheme link_schemes -> forallb dot line = true ->
    s = scheme ++ line ++ tail -> link_shaped s).
  { intros scheme line Hin Hline ->. exists (scheme ++ line), tail.
    rewrite <- app_assoc. split; [reflexivity|]. split; [exact Hend|].
    left. exists scheme, line. auto. }
  apply matches_alt in Ha as [Ha|Ha];
    [|apply matches_alt in Ha as [Ha|Ha];
      [|apply matches_alt in Ha as [Ha|Ha];
        [|apply matches_alt in Ha as [Ha|Ha]]]].
  - apply matches_cat in Ha as (s1 & g2 & H1 & Ha).
    apply matches_str in H1 as [-> ->].
    apply matches_cat in Ha as (s2 & g3 & H2 & Ha).
    apply matches_scheme in Ha as (line & -> & Hl).
    apply matches_opt in H2 as [H2|[-> _]].
    + apply matches_str in H2 as [-> _].
      apply (shape (lit "https://") line); [|assumption|reflexivity].
      right. left. reflexivity.
    + apply (shape (lit "http://") line); [|assumption|reflexivity].
      left. reflexivity.
  - apply matches_scheme in Ha as (line & -> & Hl).
    apply (shape (lit "ipfs://") line); [|assumption|reflexivity].
    do 2 right. left. reflexivity.
  - apply matches_scheme in Ha as (line & -> & Hl).
    apply (shape (lit "ipns://") line); [|assumption|reflexivity].
    do 3 right. left. reflexivity.
  - apply matches_scheme in Ha as (line & -> & Hl).
    apply (shape (lit "magnet:") line); [|assumption|reflexivity].
    do 4 right. left. reflexivity.
  - apply matches_cat in Ha as (s1 & g2 & H1 & Ha).
    apply matches_times_cls in H1 as (w0 & -> & L & Hw0 & ->).
    apply matches_star in Ha as (w & -> & Hw & _).
    exists (w0 ++ w), tail. rewrite <- app_assoc.
    split; [reflexivity|]. split; [exact Hend|].
    right. rewrite length_app, forallb_app, Hw0, Hw. split; [lia|reflexivity].
Qed.

Lemma link_pattern_complete s :
  link_shaped s -> exists m, re_match link_pattern s = Some m.
Proof.
  intros (body & tail & -> & Hend & Hbody).
  assert (line_matches : forall scheme line g,
    forallb dot line = true ->
    matches (Cat (Str scheme) (Star dot)) (scheme ++ line ++ tail) g tail g).
  { intros scheme line g Hl.
    eapply m_cat; [constructor|now constructor]. }
  assert (enough_alt :
    matches
      (Alt (Cat (Str (lit "http"))
              (Cat (Opt (Str (lit "s"))) (Cat (Str (lit "://")) (Star dot))))
      (Alt (Cat (Str (lit "ipfs://")) (Star dot))
      (Alt (Cat (Str (lit "ipns://")) (Star dot))
      (Alt (Cat (Str (lit "magnet:")) (Star dot))
           (Cat (times 44 (Cls b64_class)) (Star b64_class))))))
      (body ++ tail) no_captures tail no_captures ->
    exists m, re_match link_pattern (body ++ tail) = Some m).
  { intros Ha. eapply re_match_complete. unfold link_pattern.
    eapply m_cat; [apply m_grp, Ha|now apply eos_matches]. }
  apply enough_alt.
  destruct Hbody as [(scheme & line & Hin & -> & Hl)|[Hlen Hb]].
  - rewrite <- app_assoc.
    destruct Hin as [<-|[<-|[<-|[<-|[<-|[]]]]]].
    + apply m_alt_l.
      change (lit "http://" ++ line ++ tail)
        with (lit "http" ++ lit "://" ++ line ++ tail).
      eapply m_cat; [constructor|].
      eapply m_cat; [apply m_opt_none|]. now apply line_matches.
    + apply m_alt_l.
      change (lit "https://" ++ line ++ tail)
        with (lit "http" ++ lit "s" ++ lit "://" ++ line ++ tail).
      eapply m_cat; [constructor|].
      eapply m_cat; [apply m_opt_some; constructor|]. now apply line_matches.
    + apply m_alt_r, m_alt_l. now apply line_matches.
    + apply m_alt_r, m_alt_r, m_alt_l. now apply line_matches.
    + apply m_alt_r, m_alt_r, m_alt_r, m_alt_l. now apply line_matches.
  - do 4 apply m_alt_r.
    rewrite <- (firstn_skipn 44 body) in *.
    rewrite forallb_app in Hb. apply andb_prop in Hb as [Hb1 Hb2].
    assert (L : length (firstn 44 body) = 44).
    { rewrite length_app in Hlen. rewrite length_firstn.
      rewrite length_firstn in Hlen. rewrite length_skipn in Hlen. lia. }
    rewrite <- app_assoc.
    eapply m_cat.
    + rewrite <- L at 1. now apply times_cls_matches.
    + now constructor.
Qed.

(** X3: the link pattern of line 46 matches exactly the texts of one of
    two shapes, [http://], [https://], [ipfs://], [ipns://] or [magnet:]
    followed by the rest of one line, or at least 44 characters of the
    base64 alphabet, each running to the end of the text or to one last
    newline. *)
Theorem link_pattern_shapes s :
  re_match link_pattern s <> None <-> link_shaped s.
Proof.
  split.
  - destruct (re_match link_pattern s) as [m|] eqn:E; [|congruence].
    intros _. now apply link_pattern_sound in E.
  - intros H. apply link_pattern_complete in H as (m & ->). discriminate.
Qed.

(** ** [validate] and the [render] methods *)

(** [validate] is a check of the sanitized object. *)
Lemma validate_run self :
  validate self
  = if truthy (value (sanitize self)) && allow_links (sanitize self) then
      match re_match link_pattern (value (sanitize self)) with
      | Some _ => Val (sanitize self)
      | None => Exc invalid_link
      end
    else Val (sanitize self).
Proof. reflexivity. Qed.

Lemma truthy_false s : truthy s = false <-> s = [].
Proof. destruct s; cbn; split; congruence. Qed.

Lemma validate_returns_sanitized self s :
  validate self = Val s -> s = sanitize self.
Proof.
  rewrite validate_run.
  destruct (truthy _ && _); [destruct (re_match _ _)|]; congruence.
Qed.

(** X4: [validate] returns the sanitized object or raises
    [ValueError("Invalid link format.")], and it raises exactly when the
    object allows links and its sanitized value is neither empty nor of
    one of the two shapes of the link pattern; a title or a body is never
    refused. *)
Theorem validate_outcome self :
  (validate self = Val (sanitize self) \/ validate self = Exc invalid_link)
  /\ (validate self = Exc invalid_link
      <-> allow_links self = true
          /\ value (sanitize self) <> []
          /\ ~ link_shaped (value (sanitize self))).
Proof.
  rewrite validate_run.
  destruct (sanitize_flags self) as (_ & _ & ->).
  pose proof (truthy_false (value (sanitize self))) as T.
  destruct (truthy (value (sanitize self))), (allow_links self);
    cbn [andb];
    try (split; [now left|]; split;
         [discriminate
         |intros (A & B & _); try discriminate A; now destruct B, (proj1 T)]).
  destruct (re_match link_pattern (value (sanitize self))) as [m|] eqn:E.
  - split; [now left|]. split; [discriminate|].
    intros (_ & _ & N). destruct N. now apply link_pattern_sound in E.
  - split; [now right|]. split; [|reflexivity].
    intros _. split; [reflexivity|]. split.
    + intros F. apply T in F. discriminate F.
    + intros L. apply link_pattern_complete in L as (m & L). congruence.
Qed.

Lemma validated_stable self s :
  validate self = Val s ->
  sanitize s = s
  /\ validate s = Val s
  /\ title_render s = (fst (title_render s), s)
  /\ body_render s = (fst (body_render s), s)
  /\ exists html, link_render s = Val (html, s).
Proof.
  intros H. pose proof (validate_returns_sanitized _ _ H) as E.
  assert (F : sanitize s = s) by (subst s; apply sanitize_twice).
  assert (V : validate s = Val s).
  { rewrite validate_run, F. rewrite validate_run, <- E in H. exact H. }
  split; [exact F|]. split; [exact V|]. repeat split.
  - unfold title_render. destruct (truthy (value s)); rewrite ?F; reflexivity.
  - unfold body_render, count_stats. rewrite !F. reflexivity.
  - unfold link_render. rewrite V.
    destruct (truthy (value s)); rewrite ?F; eexists; reflexivity.
Qed.

(** X5: an object that [validate] returned is a fixed point of the
    methods called on it afterwards: [sanitize] and a second [validate]
    return it unchanged, and so does each [render], none of which can then
    raise. *)
Theorem validated_object_is_stable self s :
  validate self = Val s ->
  sanitize s = s
  /\ validate s = Val s
  /\ snd (title_render s) = s
  /\ snd (body_render s) = s
  /\ exists html, link_render s = Val (html, s).
Proof.
  intros H.
  destruct (validated_stable self s H) as (F & V & T & B & L).
  rewrite T, B. auto.
Qed.

Lemma validated_object_is_stable_witness :
  sanitize sample_link = sample_link
  /\ validate sample_link = Val sample_link
  /\ snd (title_render sample_link) = sample_link
  /\ snd (body_render sample_link) = sample_link
  /\ exists html, link_render sample_link = Val (html, sample_link).
Proof.
  apply (validated_object_is_stable sample_link sample_link).
  vm_compute. reflexivity.
Defined.

(** * The composer *)

(** ** When [generate_hashlink] returns *)

Lemma utf8_encode_app a b :
  utf8_encode (a ++ b)
  = match utf8_encode a, utf8_encode b with
    | Some x, Some y => Some (x ++ y)
    | _, _ => None
    end.
Proof.
  induction a as [|c a IH]; cbn [app utf8_encode].
  - now destruct (utf8_encode b).
  - rewrite IH. destruct (utf8_encode_char c) as [bs|]; [|reflexivity].
    destruct (utf8_encode a), (utf8_encode b); try reflexivity.
    now rewrite app_assoc.
Qed.

(** The text of a well-encoded text's parts is well encoded. *)
Lemma utf8_encode_part s x :
  (forall c, In c x -> In c s) ->
  utf8_encode s <> None -> utf8_encode x <> None.
Proof.
  intros Hin Hs. induction x as [|c x IH]; [discriminate|].
  cbn [utf8_encode].
  assert (Hc : utf8_encode_char c <> None).
  { specialize (Hin c (or_introl eq_refl)).
    apply in_split in Hin as (a & b & ->).
    rewrite utf8_encode_app in Hs. cbn [utf8_encode] in Hs.
    destruct (utf8_encode_char c); [discriminate|].
    now destruct (utf8_encode a). }
  destruct (utf8_encode_char c); [|congruence].
  destruct (utf8_encode x) eqn:E; [discriminate|].
  exfalso. apply IH; [|reflexivity]. intros d Hd. apply Hin. now right.
Qed.

Lemma html_content_run t b l btc :
  html_content t b l btc
  = match validate t with
    | Exc e => Exc e
    | Val t1 =>
        match validate b with
        | Exc e => Exc e
        | Val b1 =>
            match validate l with
            | Exc e => Exc e
            | Val l1 =>
                Val (pvtppr_template (value t1)
                       (lit "<h1>" ++ title_text t1 ++ lit "</h1>")
                       (fst (body_render b1))
                       (if truthy (value l1)
                        then lit "<img src=" ++ [dq] ++ value l1 ++ [dq]
                             ++ lit " alt=" ++ [dq] ++ lit "Embedded Link"
                             ++ [dq] ++ lit " />"
                        else [])
                       btc, t1)
            end
        end
    end.
Proof.
  unfold html_content.
  destruct (validate t) as [t1|e] eqn:Vt; cbn [and_then]; [|reflexivity].
  destruct (validate b) as [b1|e] eqn:Vb; cbn [and_then]; [|reflexivity].
  destruct (validate l) as [l1|e] eqn:Vl; cbn [and_then]; [|reflexivity].
  destruct (validated_stable _ _ Vt) as (Ft & _).
  destruct (validated_stable _ _ Vb) as (_ & _ & _ & Bb & _).
  destruct (validated_stable _ _ Vl) as (Fl & Vl' & _).
  rewrite Bb. unfold title_render, link_render, title_text. rewrite Vl'.
  destruct (truthy (value t1)), (truthy (value l1));
    rewrite ?Ft, ?Fl; reflexivity.
Qed.

Lemma title_text_in_page t1 bh lh btc c :
  In c (title_text t1) ->
  In c (pvtppr_template (value t1)
          (lit "<h1>" ++ title_text t1 ++ lit "</h1>") bh lh btc).
Proof.
  intros H. unfold pvtppr_template. rewrite !in_app_iff. tauto.
Qed.

Lemma generate_hashlink_run io t b l btc :
  generate_hashlink io t b l btc
  = match html_content t b l btc with
    | Exc e => Exc e
    | Val (page, t1) =>
        match utf8_encode page, utf8_encode (title_text t1) with
        | Some data, Some title_bytes =>
            Val (site ++ lit "#" ++ quote_from_bytes title_bytes ++ lit "/?"
                 ++ b64encode (lzma_compress io data))
        | Some _, None =>
            Exc (Exn UnicodeEncodeError (encode_error_text io (title_text t1)))
        | None, _ => Exc (Exn UnicodeEncodeError (encode_error_text io page))
        end
    end.
Proof.
  unfold generate_hashlink, quote, encode_utf8, title_text.
  destruct (html_content t b l btc) as [[page t1]|e]; cbn [and_then];
    [|reflexivity].
  destruct (utf8_encode page); cbn [and_then]; [|reflexivity].
  now destruct (utf8_encode _).
Qed.

(** What the composer does with validated objects. *)
Lemma generate_hashlink_validated io t b l btc t1 b1 l1 :
  validate t = Val t1 -> validate b = Val b1 -> validate l = Val l1 ->
  exists page,
    html_content t b l btc = Val (page, t1)
    /\ match utf8_encode page with
       | Some data =>
           exists title_bytes,
             utf8_encode (title_text t1) = Some title_bytes
             /\ generate_hashlink io t b l btc
                = Val (site ++ lit "#" ++ quote_from_bytes title_bytes
                       ++ lit "/?" ++ b64encode (lzma_compress io data))
       | None =>
           generate_hashlink io t b l btc
           = Exc (Exn UnicodeEncodeError (encode_error_text io page))
       end.
Proof.
  intros Vt Vb Vl. rewrite generate_hashlink_run, html_content_run.
  rewrite Vt, Vb, Vl. eexists. split; [reflexivity|].
  match goal with |- context [utf8_encode ?p] =>
    destruct (utf8_encode p) as [data|] eqn:E end; [|reflexivity].
  destruct (utf8_encode (title_text t1)) as [tb|] eqn:Et.
  - eexists. split; reflexivity.
  - exfalso. revert Et. eapply utf8_encode_part.
    + intros c. apply title_text_in_page.
    + rewrite E. discriminate.
Qed.

(** X6: [generate_hashlink] raises [ValueError("Invalid link format.")]
    when one of the three [validate] calls does; when none does, it
    renders the page, raises [UnicodeEncodeError] if the page has no UTF-8
    form (a lone surrogate in it), and otherwise returns the site address,
    [#], the quoted title, [/?] and the base64 text of the compressed
    page. *)
Theorem generate_hashlink_outcome io t b l btc :
  (validate t = Exc invalid_link \/ validate b = Exc invalid_link
   \/ validate l = Exc invalid_link ->
   generate_hashlink io t b l btc = Exc invalid_link)
  /\ (forall t1 b1 l1,
        validate t = Val t1 -> validate b = Val b1 -> validate l = Val l1 ->
        exists page,
          html_content t b l btc = Val (page, t1)
          /\ match utf8_encode page with
             | Some data =>
                 exists title_bytes,
                   utf8_encode (title_text t1) = Some title_bytes
                   /\ generate_hashlink io t b l btc
                      = Val (site ++ lit "#" ++ quote_from_bytes title_bytes
                             ++ lit "/?"
                             ++ b64encode (lzma_compress io data))
             | None =>
                 generate_hashlink io t b l btc
                 = Exc (Exn UnicodeEncodeError (encode_error_text io page))
             end).
Proof.
  split; [|apply generate_hashlink_validated].
  intros H. rewrite generate_hashlink_run, html_content_run.
  assert (V : forall x, validate x = Val (sanitize x)
                        \/ validate x = Exc invalid_link).
  { intros x. rewrite validate_run.
    destruct (truthy _ && _); [destruct (re_match _ _)|]; auto. }
  destruct (V t) as [Et|Et], (V b) as [Eb|Eb], (V l) as [El|El];
    rewrite ?Et, ?Eb, ?El in *; try reflexivity.
  destruct H as [H|[H|H]]; discriminate H.
Qed.

(** ** The shape of what it returns *)

Lemma standard_match_generated_groups q b64 :
  forallb no_slash q = true -> forallb no_break b64 = true ->
  exists m,
    standard_match (site ++ lit "#" ++ q ++ lit "/?" ++ b64) = Some m
    /\ group m 1 = q /\ group m 2 = b64.
Proof.
  intros Hq Hb.
  assert (Hqd : forallb dot q = true).
  { eapply forallb_weaken; [|exact Hq].
    intros c Hc. now apply no_break_dot, no_slash_no_break. }
  assert (Hbd : forallb dot b64 = true).
  { eapply forallb_weaken; [|exact Hb]. apply no_break_dot. }
  unfold standard_match, re_match, standard_re.
  rewrite app_assoc. rewrite rx_cat. cbn [rx].
  rewrite strip_prefix_app.
  rewrite star_lazy_skip; [|exact Hqd|].
  - eexists. split.
    + apply star_lazy_here. rewrite strip_prefix_app.
      rewrite star_greedy_total by discriminate.
      rewrite drop_while_all by exact Hbd. reflexivity.
    + unfold group, groups, set_capture. cbn [Nat.eqb length].
      rewrite Nat.sub_0_r, firstn_all, firstn_length_app. auto.
  - intros c s Hc.
    rewrite forallb_forall in Hq. apply Hq, no_slash_slash in Hc.
    unfold isnot in Hc. apply negb_true_iff in Hc.
    change (lit "/?") with [ch "/"; ch "?"].
    rewrite strip_prefix_other; [reflexivity|].
    unfold char_eqb in *. now rewrite N.eqb_sym.
Qed.

Lemma generate_hashlink_returns io t b l btc h :
  generate_hashlink io t b l btc = Val h ->
  exists page t1 data title_bytes,
    html_content t b l btc = Val (page, t1)
    /\ utf8_encode page = Some data
    /\ utf8_encode (title_text t1) = Some title_bytes
    /\ h = site ++ lit "#" ++ quote_from_bytes title_bytes ++ lit "/?"
           ++ b64encode (lzma_compress io data).
Proof.
  rewrite generate_hashlink_run.
  destruct (html_content t b l btc) as [[page t1]|e]; [|discriminate].
  destruct (utf8_encode page) as [data|] eqn:Ed; [|discriminate].
  destruct (utf8_encode (title_text t1)) as [tb|] eqn:Et; [|discriminate].
  intros [= <-]. exists page, t1, data, tb. auto.
Qed.

(** X7: a hashlink that [generate_hashlink] returns is read by the
    decoder's two patterns as it was written: the reroute pattern does not
    match it, the standard pattern does, with the quoted title as group 1
    and the base64 text as group 2, the two joined by the only [/?] that
    counts; and base64 decodes group 2 to the compressed page. *)
Theorem generated_hashlink_is_standard io t b l btc h :
  generate_hashlink io t b l btc = Val h ->
  reroute_match h = None
  /\ exists m page t1 data,
       standard_match h = Some m
       /\ h = site ++ lit "#" ++ group m 1 ++ lit "/?" ++ group m 2
       /\ html_content t b l btc = Val (page, t1)
       /\ quote io (title_text t1) = Val (group m 1)
       /\ utf8_encode page = Some data
       /\ b64decode (group m 2) = Val (lzma_compress io data).
Proof.
  intros H.
  apply generate_hashlink_returns in H
    as (page & t1 & data & tb & Hp & Hd & Ht & ->).
  split.
  - apply reroute_match_generated;
      [apply quote_no_slash|apply b64encode_no_break].
  - destruct (standard_match_generated_groups (quote_from_bytes tb)
                (b64encode (lzma_compress io data))
                (quote_no_slash _) (b64encode_no_break _))
      as (m & Hm & G1 & G2).
    exists m, page, t1, data. rewrite G1, G2.
    repeat split; try assumption.
    + unfold quote, encode_utf8. now rewrite Ht.
    + apply b64decode_b64encode.
Qed.

Lemma generated_hashlink_is_standard_witness :
  reroute_match sample_hashlink = None
  /\ exists m page t1 data,
       standard_match sample_hashlink = Some m
       /\ sample_hashlink
          = site ++ lit "#" ++ group m 1 ++ lit "/?" ++ group m 2
       /\ html_content sample_title sample_body sample_link []
          = Val (page, t1)
       /\ quote press (title_text t1) = Val (group m 1)
       /\ utf8_encode page = Some data
       /\ b64decode (group m 2) = Val (lzma_compress press data).
Proof.
  apply (generated_hashlink_is_standard press sample_title sample_body
           sample_link []).
  vm_compute. reflexivity.
Defined.

Lemma quote_printable data : forallb printable (quote_from_bytes data) = true.
Proof.
  unfold quote_from_bytes.
  induction data as [|b data IH]; [reflexivity|].
  cbn [flat_map]. rewrite forallb_app, IH, andb_true_r.
  revert b. apply (for_bytes (fun b => forallb printable (quote_byte b))).
  vm_compute. reflexivity.
Qed.

Lemma b64encode_printable data : forallb printable (b64encode data) = true.
Proof.
  apply b64encode_alphabet; [|reflexivity].
  apply (for_sextets (fun v => printable (b64char v))).
  vm_compute. reflexivity.
Qed.

(** X8: whatever the title, the body and the link hold, a hashlink that
    [generate_hashlink] returns is made of visible ASCII characters only:
    no space, no control character, nothing above 126. *)
Theorem generated_hashlink_is_printable io t b l btc h :
  generate_hashlink io t b l btc = Val h -> forallb printable h = true.
Proof.
  intros H.
  apply generate_hashlink_returns in H as (page & t1 & data & tb & _ & _ & _ & ->).
  rewrite !forallb_app, quote_printable, b64encode_printable.
  reflexivity.
Qed.

Lemma generated_hashlink_is_printable_witness :
  forallb printable sample_hashlink = true.
Proof.
  apply (generated_hashlink_is_printable press sample_title sample_body
           sample_link []).
  vm_compute. reflexivity.
Defined.

Lemma html_content_title t b l btc page t1 :
  html_content t b l btc = Val (page, t1) -> t1 = sanitize t.
Proof.
  rewrite html_content_run.
  destruct (validate t) as [t'|] eqn:Vt; [|discriminate].
  destruct (validate b); [|discriminate].
  destruct (validate l); [|discriminate].
  intros [= _ <-]. now apply validate_returns_sanitized.
Qed.

(** X9: a title that is empty, or that [sanitize] clears because it
    starts with [http], [ipfs], [magnet] or [base64], leaves the
    placeholder in the hashlink: its fragment starts with
    [Title%20Goes%20Here]. *)
Theorem cleared_title_gives_placeholder io title b l btc h :
  title = [] \/ existsb (startswith title) link_prefixes = true ->
  generate_hashlink io (set_value TitleTextInput title) b l btc = Val h ->
  exists b64,
    h = lit "https://itty.bitty.site/#Title%20Goes%20Here/?" ++ b64.
Proof.
  intros Ht H.
  apply generate_hashlink_returns in H
    as (page & t1 & data & tb & Hp & _ & Hb & ->).
  apply html_content_title in Hp.
  assert (E : t1 = set_value TitleTextInput []).
  { subst t1. unfold sanitize, TitleTextInput. fields.
    destruct Ht as [->|Ht]; [reflexivity|]. now rewrite Ht. }
  clear Hp. subst t1.
  change (title_text (set_value TitleTextInput []))
    with (lit "Title Goes Here") in Hb.
  vm_compute in Hb. injection Hb as <-.
  eexists. reflexivity.
Qed.

Lemma cleared_title_gives_placeholder_witness :
  exists h,
    generate_hashlink offline
      (set_value TitleTextInput (lit "https://example.com/")) sample_body
      sample_link []
    = Val h
    /\ exists b64,
         h = lit "https://itty.bitty.site/#Title%20Goes%20Here/?" ++ b64.
Proof.
  eexists. split; [vm_compute; reflexivity|].
  apply (cleared_title_gives_placeholder offline
           (lit "https://example.com/") sample_body sample_link []).
  - right. reflexivity.
  - vm_compute. reflexivity.
Defined.

(** ** The statistics of the body *)

Lemma count_words_bound text :
  2 * count_words false text <= length text + 1
  /\ 2 * count_words true text <= length text.
Proof.
  induction text as [|c text [IH1 IH2]]; cbn [count_words length].
  - split; lia.
  - destruct (isspace c); split; lia.
Qed.

Lemma reading_time_bound n :
  200 * reading_time n <= n + 100 /\ n <= 200 * reading_time n + 100.
Proof.
  unfold reading_time.
  pose proof (Nat.div_mod_eq n 200) as D.
  pose proof (Nat.mod_upper_bound n 200 ltac:(discriminate)) as B.
  destruct (n mod 200 <? 100) eqn:E1.
  - apply Nat.ltb_lt in E1. lia.
  - apply Nat.ltb_ge in E1. destruct (100 <? n mod 200) eqn:E2.
    + lia.
    + apply Nat.ltb_ge in E2. destruct (Nat.even (n / 200)); lia.
Qed.

Lemma reading_time_half n :
  n mod 200 = 100 -> Nat.even (reading_time n) = true.
Proof.
  intros H. unfold reading_time. rewrite H. cbn [Nat.ltb Nat.leb].
  change (100 <? 100) with false. change (100 <? 100) with false. cbv iota.
  destruct (Nat.even (n / 200)) eqn:E; [exact E|].
  rewrite Nat.add_1_r, Nat.even_succ. unfold Nat.odd. now rewrite E.
Qed.

(** X10: the statistics [count_stats] shows are those of the sanitized
    body without its tags: the character count is at most the length of
    the value, the words are at most half the characters, rounded up, and
    the reading time is within half a minute of a two-hundredth of the
    characters, an exact half going to the even minute; and [count_stats]
    leaves the object sanitized. *)
Theorem count_stats_bounds self :
  let st := fst (count_stats self) in
  snd (count_stats self) = sanitize self
  /\ chars st = length (re_delete tag_re (value (sanitize self)))
  /\ chars st <= length (value self)
  /\ 2 * words st <= chars st + 1
  /\ 200 * reading st <= chars st + 100
  /\ chars st <= 200 * reading st + 100
  /\ (chars st mod 200 = 100 -> Nat.even (reading st) = true).
Proof.
  cbv zeta. unfold count_stats. cbn [fst snd chars words reading].
  split; [reflexivity|]. split; [reflexivity|].
  split; [|split; [|split; [|split]]].
  - pose proof (sanitize_length self).
    pose proof (re_delete_from_tag_length
                  (S (length (value (sanitize self)))) (value (sanitize self))).
    unfold re_delete. lia.
  - apply count_words_bound.
  - apply reading_time_bound.
  - apply reading_time_bound.
  - apply reading_time_half.
Qed.

(** * The cascade *)

(** ** The label of the result *)

Ltac labelled_leaf :=
  first [ absurd_branch
        | unfold labelled, label; cbn [res ver as_tuple snd In]; tauto ].

Lemma for_each_labelled {X} xs (body : X -> M (option result)) v :
  (forall x v', ver (body x v') = v' /\ labelled [v'] (body x v')) ->
  labelled [v] (for_each xs body v).
Proof.
  intros H. induction xs as [|x xs IH]; [exact I|].
  rewrite for_each_cons. destruct (H x v) as [Hv Hl].
  destruct (body x v) as [[[y|]|e] v' t]; cbn [ver] in Hv; subst v';
    [exact Hl| |exact Hl].
  unfold labelled, after in *. cbn [res ver]. exact IH.
Qed.

Lemma skip_attempt_labelled io c s v : labelled [v] (skip_attempt io c s v).
Proof.
  rewrite skip_attempt_run.
  destruct (lzma_decompress io (skipn s c)) as [d|e];
    [destruct (utf8_decode d)|destruct (is_a LZMAError e)]; labelled_leaf.
Qed.

Lemma skip_loop_labelled io c v : labelled [v] (skip_loop io c v).
Proof.
  apply for_each_labelled. intros s v'.
  split; [apply skip_attempt_ver|apply skip_attempt_labelled].
Qed.

Lemma padding_attempt_labelled io part p v :
  labelled [v] (padding_attempt io part p v).
Proof.
  rewrite padding_attempt_run.
  destruct (b64decode (part ++ repeat pad p)) as [c|e].
  - pose proof (skip_loop_labelled io c v) as L.
    pose proof (skip_loop_ver io c v) as V.
    destruct (skip_loop io c v) as [[[x|]|e] v' t]; cbn [ver] in V; subst v';
      unfold labelled, after in *; cbn [res ver] in *; try assumption.
    destruct (is_a BinasciiError e); cbn [res ver]; tauto.
  - unfold after. destruct (is_a BinasciiError e); labelled_leaf.
Qed.

Lemma padding_loop_labelled io part v : labelled [v] (padding_loop io part v).
Proof.
  apply for_each_labelled. intros p v'.
  split; [apply padding_attempt_ver|apply padding_attempt_labelled].
Qed.

Lemma standard_strategy_labelled io h v :
  labelled [v_standard] (standard_strategy io h v).
Proof.
  unfold standard_strategy.
  destruct (standard_match h) as [m|]; [|exact I].
  pose proof (padding_loop_labelled io (group m 2) v_standard) as L.
  exec_monad.
  destruct (padding_loop io (group m 2) v_standard) as [o v' t]. exact L.
Qed.

Lemma reroute_strategy_labelled io h v :
  labelled [v_reroute] (reroute_strategy io h v).
Proof.
  unfold reroute_strategy.
  destruct (reroute_match h) as [m|]; exec_monad; [|exact I].
  repeat case_step; labelled_leaf.
Qed.

Lemma js_strategy_labelled io h v : labelled [v_js] (js_strategy io h v).
Proof.
  unfold js_strategy. exec_monad. repeat case_step; labelled_leaf.
Qed.

Lemma fetch_strategy_labelled io h v :
  labelled [v_fetch; v_fetch ++ via_v1_retry] (fetch_strategy io h v).
Proof.
  exec. repeat case_step; labelled_leaf.
Qed.

Lemma or_else_labelled l1 l2 (m n : M (option result)) v :
  labelled l1 (m v) -> (forall v', labelled l2 (n v')) ->
  labelled (l1 ++ l2) (or_else m n v).
Proof.
  intros Hm Hn. rewrite or_else_run.
  destruct (m v) as [[[x|]|e] v' t]; unfold labelled in *; cbn [res ver] in *.
  - apply in_or_app. now left.
  - specialize (Hn v'). unfold after. cbn [res ver].
    destruct (res (n v')) as [[y|]|e]; try exact I; apply in_or_app; now right.
  - apply in_or_app. now left.
Qed.

(** Nothing comes after the fetch. *)
Lemma or_else_fetch io h (k : M (option result)) v :
  or_else (fetch_strategy io h) k v = fetch_strategy io h v.
Proof.
  rewrite or_else_run. destruct (fetch_strategy_returns io h v) as (x & Hx).
  destruct (fetch_strategy io h v) as [o v' t]. now injection Hx as -> _.
Qed.

Lemma from_standard_labelled io h v :
  labelled [v_standard; v_js; v_fetch; v_fetch ++ via_v1_retry]
    (from_standard io h v).
Proof.
  unfold from_standard.
  apply (or_else_labelled [v_standard] [v_js; v_fetch; v_fetch ++ via_v1_retry]);
    [apply standard_strategy_labelled|]. intros v2.
  apply (or_else_labelled [v_js] [v_fetch; v_fetch ++ via_v1_retry]);
    [apply js_strategy_labelled|]. intros v3.
  rewrite or_else_fetch. apply fetch_strategy_labelled.
Qed.

Lemma from_js_labelled io h k v :
  labelled [v_js; v_fetch; v_fetch ++ via_v1_retry]
    (or_else (js_strategy io h) (or_else (fetch_strategy io h) k) v).
Proof.
  apply (or_else_labelled [v_js] [v_fetch; v_fetch ++ via_v1_retry]);
    [apply js_strategy_labelled|]. intros v3.
  rewrite or_else_fetch. apply fetch_strategy_labelled.
Qed.

(** The caller's pair has one of the labels of the body. *)
Lemma decode_hashlink_label io h labels :
  labelled labels (cascade io h v_unknown) ->
  exists x,
    res (decode_hashlink io h) = Val (Some x) /\ In (label x) labels.
Proof.
  intros L. destruct (cascade_orderly io h v_unknown) as [_ N].
  unfold decode_hashlink. exec_monad. unfold labelled in L.
  destruct (cascade io h v_unknown) as [[[x|]|e] v' t]; cbn [res ver] in *.
  - eauto.
  - congruence.
  - eexists. split; [reflexivity|]. exact L.
Qed.

Lemma after_labelled labels t r :
  labelled labels r -> labelled labels (after t r).
Proof. intros H. exact H. Qed.

Ltac distinct_labels :=
  match goal with
  | H : ?a = label ?x, H' : label ?x = ?c |- _ =>
      rewrite <- H in H'; vm_compute in H'; discriminate H'
  end.

(** X11: the pair [decode_hashlink] returns carries one of five labels,
    never the initial "Unknown": the reroute label exactly when the
    reroute pattern matches the hashlink, and the standard label only when
    the standard pattern does. *)
Theorem result_label io h :
  exists x,
    res (decode_hashlink io h) = Val (Some x)
    /\ In (label x)
         [v_reroute; v_standard; v_js; v_fetch; v_fetch ++ via_v1_retry]
    /\ (label x = v_reroute <-> reroute_match h <> None)
    /\ (label x = v_standard -> standard_match h <> None).
Proof.
  destruct (reroute_match h) as [m|] eqn:Hm.
  - destruct (decode_hashlink_label io h [v_reroute]) as (x & Hx & [L|[]]).
    { rewrite cascade_run. apply after_labelled.
      rewrite or_else_run.
      pose proof (reroute_strategy_labelled io h v_unknown) as L.
      destruct (reroute_strategy_commits io h v_unknown m Hm) as (x & Hx).
      destruct (reroute_strategy io h v_unknown) as [o v' t].
      cbn [res] in Hx. subst o. exact L. }
    exists x. split; [exact Hx|]. split; [now left|]. split.
    + split; [discriminate|auto].
    + intros E. distinct_labels.
  - assert (R : reroute_strategy io h v_unknown = Run (Val None) v_unknown [])
      by (unfold reroute_strategy; now rewrite Hm).
    destruct (standard_match h) as [sm|] eqn:Hs.
    + destruct (decode_hashlink_label io h
                  [v_standard; v_js; v_fetch; v_fetch ++ via_v1_retry])
        as (x & Hx & L).
      { rewrite cascade_run. apply after_labelled.
        rewrite or_else_run, R. apply after_labelled.
        apply from_standard_labelled. }
      exists x. split; [exact Hx|]. split; [now right|]. split.
      * split; [|congruence]. intros E.
        destruct L as [L|[L|[L|[L|[]]]]]; distinct_labels.
      * discriminate.
    + destruct (decode_hashlink_label io h
                  [v_js; v_fetch; v_fetch ++ via_v1_retry])
        as (x & Hx & L).
      { rewrite cascade_run. apply after_labelled.
        rewrite or_else_run, R. apply after_labelled.
        unfold from_standard. rewrite or_else_run.
        unfold standard_strategy. rewrite Hs. apply after_labelled.
        apply from_js_labelled. }
      exists x. split; [exact Hx|]. split; [now do 2 right|]. split.
      * split; [|congruence]. intros E.
        destruct L as [L|[L|[L|[]]]]; distinct_labels.
      * intros E.
        destruct L as [L|[L|[L|[]]]]; distinct_labels.
Qed.

(** ** The last statement *)

Lemma or_else_ext {R} (m n n' : M (option R)) v :
  (forall v', n v' = n' v') -> or_else m n v = or_else m n' v.
Proof.
  intros H. rewrite !or_else_run.
  destruct (m v) as [[[y|]|e] v' t]; [reflexivity| |reflexivity].
  now rewrite H.
Qed.

(** X12: the [return] of line 256, "Unknown format", is never reached:
    the fetch before it always returns, so the body of the [try] runs the
    same with any other statement in that place. *)
Theorem unknown_format_is_unreachable io last h v :
  cascade_with io last h v = cascade io h v.
Proof.
  unfold cascade_with, cascade.
  change (bind (log (Starting (short h))) ?k v)
    with (match k tt v with Run o v'' t' =>
            Run o v'' ([Log (Starting (short h))] ++ t') end).
  cbv beta.
  rewrite (or_else_ext (reroute_strategy io h) _
             (or_else (standard_strategy io h)
                (or_else (js_strategy io h)
                   (or_else (fetch_strategy io h) unknown_format))));
    [reflexivity|].
  intros v1. apply or_else_ext. intros v2. apply or_else_ext. intros v3.
  now rewrite !or_else_fetch.
Qed.

(** ** A reroute that decodes *)

Lemma utf8_encode_nonempty text data :
  utf8_encode text = Some data -> text <> [] -> data <> [].
Proof.
  destruct text as [|c text]; [congruence|]. intros H _.
  change (utf8_encode (c :: text))
    with (match utf8_encode_char c, utf8_encode text with
          | Some bs, Some rest => Some (map byte_of_N bs ++ rest)
          | _, _ => None
          end) in H.
  destruct (utf8_encode_char c) as [bs|] eqn:E; [|discriminate].
  destruct (utf8_encode text); [|discriminate].
  injection H as <-. unfold utf8_encode_char in E.
  repeat match type of E with
         | (if ?b then _ else _) = _ => destruct b
         end; try discriminate E; injection E as <-; discriminate.
Qed.

Lemma b64encode_nonempty data :
  data <> [] -> exists c s0, b64encode data = c :: s0.
Proof.
  destruct data as [|a [|b [|c rest]]]; [congruence|..]; intros _;
    cbn [b64encode]; eauto.
Qed.

(** What group 1 holds when the marker is followed by one line. *)
Lemma reroute_group pre X o1 o2 c s0 :
  forallb (isnot "#") pre = true -> forallb (isnot "/") X = true ->
  (o1 = [] \/ o1 = lit "/") -> (o2 = [] \/ o2 = lit "#" \/ o2 = lit "/") ->
  forallb dot (c :: s0) = true ->
  exists m,
    reroute_match (site ++ pre ++ lit "#" ++ X ++ o1 ++ o2 ++ marker ++ c :: s0)
    = Some m
    /\ group m 1 = c :: s0.
Proof.
  intros Hp HX Ho1 Ho2 Hd. cbn [forallb] in Hd.
  apply andb_prop in Hd as [Hc Hs0].
  destruct (reroute_matches pre X o1 o2 c s0 Hp HX Ho1 Ho2 Hc) as (m & Hm).
  exists m. split; [exact Hm|].
  destruct (reroute_match_inv _ _ Hm)
    as (pre' & X' & o1' & o2' & c' & s0' & E & Hp' & HX' & Ho1' & Ho2' & Hc' & G).
  rewrite G. apply reroute_tail_unique in E; try assumption.
  injection E as <- <-. now rewrite take_while_all.
Qed.

(** X13: the reroute round trip.  A hashlink of the reroute shape whose
    payload is the base64 text of a non-empty text's UTF-8 bytes decodes
    to that text under the reroute label, with one base64 call and
    nothing else: no LZMA, no JS, no GET. *)
Theorem reroute_round_trip io pre X o1 o2 text data :
  forallb (isnot "#") pre = true ->
  forallb (isnot "/") X = true ->
  o1 = [] \/ o1 = lit "/" ->
  o2 = [] \/ o2 = lit "#" \/ o2 = lit "/" ->
  text <> [] ->
  utf8_encode text = Some data ->
  let h := site ++ pre ++ lit "#" ++ X ++ o1 ++ o2 ++ marker
           ++ b64encode data in
  decode_hashlink io h
  = Run (Val (Some (Decoded text v_reroute))) v_reroute
      [Log (Starting (short h)); Log RerouteCheck;
       Call (B64Decode (b64encode data)); Log RerouteSuccess].
Proof.
  intros Hp HX Ho1 Ho2 Hne He h.
  destruct (b64encode_nonempty data (utf8_encode_nonempty _ _ He Hne))
    as (c & s0 & Eb).
  assert (Hd : forallb dot (c :: s0) = true).
  { rewrite <- Eb. eapply forallb_weaken; [|apply b64encode_no_break].
    apply no_break_dot. }
  destruct (reroute_group pre X o1 o2 c s0 Hp HX Ho1 Ho2 Hd) as (m & Hm & G).
  subst h. rewrite Eb. rewrite <- Eb in G.
  set (h := site ++ pre ++ lit "#" ++ X ++ o1 ++ o2 ++ marker ++ c :: s0) in *.
  unfold decode_hashlink, cascade, reroute_strategy. rewrite Hm, G.
  exec_monad. rewrite <- Eb, b64decode_b64encode. exec_monad.
  rewrite (utf8_decode_encode _ _ He). reflexivity.
Qed.

Lemma reroute_round_trip_witness :
  decode_hashlink offline
    (site ++ [] ++ lit "#" ++ lit "t" ++ lit "/" ++ [] ++ marker
     ++ b64encode (bytes_of "hello"))
  = Run (Val (Some (Decoded (lit "hello") v_reroute))) v_reroute
      [Log (Starting
              (short (site ++ [] ++ lit "#" ++ lit "t" ++ lit "/" ++ []
                      ++ marker ++ b64encode (bytes_of "hello"))));
       Log RerouteCheck;
       Call (B64Decode (b64encode (bytes_of "hello"))); Log RerouteSuccess].
Proof.
  apply (reroute_round_trip offline [] (lit "t") (lit "/") [] (lit "hello")
           (bytes_of "hello")).
  - reflexivity.
  - reflexivity.
  - right. reflexivity.
  - left. reflexivity.
  - discriminate.
  - reflexivity.
Defined.

(** ** Padding repaired from end to end *)

Lemma pads_needed_small t : pads_needed t < 4.
Proof. unfold pads_needed. apply Nat.mod_upper_bound. discriminate. Qed.

(** One padding count that base64 refuses. *)
Lemma padding_attempt_refused io part p v e :
  b64decode (part ++ repeat pad p) = Exc e ->
  is_a BinasciiError e = true ->
  padding_attempt io part p v
  = Run (Val None) v
      [Log (PaddingAttempt p); Call (B64Decode (part ++ repeat pad p));
       Log (PaddingFailed p e)].
Proof.
  intros Hb He. rewrite padding_attempt_run, Hb, He. reflexivity.
Qed.

(** One padding count whose bytes decompress as they are. *)
Lemma padding_attempt_succeeds io part p v compressed data page :
  b64decode (part ++ repeat pad p) = Val compressed ->
  lzma_decompress io compressed = Val data ->
  utf8_decode data = Some page ->
  padding_attempt io part p v
  = Run (Val (Some (Decoded page v))) v
      [Log (PaddingAttempt p); Call (B64Decode (part ++ repeat pad p));
       Call (LzmaDecompress compressed); Log PaddingSuccess].
Proof.
  intros Hb Hl Hu. rewrite padding_attempt_run, Hb.
  unfold skip_loop, header_lengths. rewrite for_each_cons, skip_attempt_run.
  change (skipn 0 compressed) with compressed. rewrite Hl, Hu. reflexivity.
Qed.

Lemma padding_loop_repairs io part compressed data page v :
  b64decode (part ++ repeat pad (pads_needed part)) = Val compressed ->
  (forall j, j < pads_needed part ->
     exists e, b64decode (part ++ repeat pad j) = Exc e
               /\ is_a BinasciiError e = true) ->
  lzma_decompress io compressed = Val data ->
  utf8_decode data = Some page ->
  res (padding_loop io part v) = Val (Some (Decoded page v))
  /\ b64_calls (evs (padding_loop io part v))
     = map (fun p => part ++ repeat pad p) (seq 0 (S (pads_needed part)))
  /\ lzma_calls (evs (padding_loop io part v)) = [compressed].
Proof.
  intros Hb Hj Hl Hu. pose proof (pads_needed_small part) as Hs.
  unfold padding_loop. cbn [seq].
  destruct (pads_needed part) as [|[|[|[|n]]]]; [| | | |lia].
  - rewrite for_each_cons.
    rewrite (padding_attempt_succeeds _ _ _ _ _ _ _ Hb Hl Hu).
    repeat split.
  - destruct (Hj 0 ltac:(lia)) as (e0 & B0 & E0).
    rewrite for_each_cons, (padding_attempt_refused _ _ _ _ _ B0 E0).
    rewrite for_each_cons.
    rewrite (padding_attempt_succeeds _ _ _ _ _ _ _ Hb Hl Hu).
    repeat split.
  - destruct (Hj 0 ltac:(lia)) as (e0 & B0 & E0).
    destruct (Hj 1 ltac:(lia)) as (e1 & B1 & E1).
    rewrite for_each_cons, (padding_attempt_refused _ _ _ _ _ B0 E0).
    rewrite for_each_cons, (padding_attempt_refused _ _ _ _ _ B1 E1).
    rewrite for_each_cons.
    rewrite (padding_attempt_succeeds _ _ _ _ _ _ _ Hb Hl Hu).
    repeat split.
  - destruct (Hj 0 ltac:(lia)) as (e0 & B0 & E0).
    destruct (Hj 1 ltac:(lia)) as (e1 & B1 & E1).
    destruct (Hj 2 ltac:(lia)) as (e2 & B2 & E2).
    rewrite for_each_cons, (padding_attempt_refused _ _ _ _ _ B0 E0).
    rewrite for_each_cons, (padding_attempt_refused _ _ _ _ _ B1 E1).
    rewrite for_each_cons, (padding_attempt_refused _ _ _ _ _ B2 E2).
    rewrite for_each_cons.
    rewrite (padding_attempt_succeeds _ _ _ _ _ _ _ Hb Hl Hu).
    repeat split.
Qed.

(** X14: a hashlink of the standard shape whose base64 text lost its
    trailing [=] still decodes: for the stripped encoding of bytes that
    the LZMA library decompresses to a UTF-8 text, behind a title without
    slash, semicolon or newline, [decode_hashlink] returns that text under
    the standard label; base64 is asked for the text with 0 pads, 1 pad,
    and so on up to the count that completes it, and LZMA once, for the
    original bytes. *)
Theorem stripped_padding_is_repaired io title compressed data page :
  forallb no_slash title = true ->
  lzma_decompress io compressed = Val data ->
  utf8_decode data = Some page ->
  let part := rstrip_char pad (b64encode compressed) in
  let h := site ++ lit "#" ++ title ++ lit "/?" ++ part in
  res (decode_hashlink io h) = Val (Some (Decoded page v_standard))
  /\ b64_calls (evs (decode_hashlink io h))
     = map (fun p => part ++ repeat pad p) (seq 0 (S (pads_needed part)))
  /\ lzma_calls (evs (decode_hashlink io h)) = [compressed].
Proof.
  intros Ht Hl Hu part h.
  assert (Hp : forallb no_break part = true)
    by apply rstrip_forallb, b64encode_no_break.
  destruct (standard_match_generated_groups title part Ht Hp)
    as (m & Hm & _ & G).
  pose proof (decode_standard io h m
                (reroute_match_generated title part Ht Hp) Hm) as D.
  rewrite G in D.
  destruct (b64decode_stripped compressed) as [Hb Hj].
  destruct (padding_loop_repairs io part compressed data page v_standard
              Hb Hj Hl Hu) as (R & B & L).
  destruct (padding_loop io part v_standard) as [o v' t].
  cbn [res evs] in R, B, L. subst o. rewrite D. cbn [res evs].
  repeat split; assumption.
Qed.

Lemma stripped_padding_is_repaired_witness :
  res (decode_hashlink tabulated
         (site ++ lit "#" ++ lit "t" ++ lit "/?"
          ++ rstrip_char pad (b64encode lzma_of_hi)))
  = Val (Some (Decoded (lit "hi") v_standard))
  /\ b64_calls (evs (decode_hashlink tabulated
         (site ++ lit "#" ++ lit "t" ++ lit "/?"
          ++ rstrip_char pad (b64encode lzma_of_hi))))
     = map (fun p => rstrip_char pad (b64encode lzma_of_hi) ++ repeat pad p)
         (seq 0 (S (pads_needed (rstrip_char pad (b64encode lzma_of_hi)))))
  /\ lzma_calls (evs (decode_hashlink tabulated
         (site ++ lit "#" ++ lit "t" ++ lit "/?"
          ++ rstrip_char pad (b64encode lzma_of_hi))))
     = [lzma_of_hi].
Proof.
  apply (stripped_padding_is_repaired tabulated (lit "t") lzma_of_hi
           (bytes_of "hi") (lit "hi")); reflexivity.
Defined.

(** ** The JS worker's other answers *)

Lemma js_strategy_other io h v u data :
  execjs_compile io = Val u ->
  b64decode (pad_to_quad (js_payload h)) = Val data ->
  js_decompress io data = Val JsOther ->
  js_strategy io h v
  = Run (Val None) v_js
      [Log JsAttempt; Call JsCompile;
       Call (B64Decode (pad_to_quad (js_payload h))); Call (JsEval data)].
Proof.
  intros Hc Hb Hj. unfold js_strategy. exec_monad.
  rewrite Hc. exec_monad. rewrite Hb. exec_monad. rewrite Hj. reflexivity.
Qed.

(** X15: when the worker compiles, its input decodes and its answer is
    neither text nor bytes, strategy 3 ends without a word: no success
    record, no failure record, and [decode_hashlink] goes on with the
    fetch, whose result is the function's. *)
Theorem js_other_value_falls_through io h u data :
  reroute_match h = None ->
  standard_match h = None ->
  execjs_compile io = Val u ->
  b64decode (pad_to_quad (js_payload h)) = Val data ->
  js_decompress io data = Val JsOther ->
  decode_hashlink io h
  = after [Log (Starting (short h)); Log JsAttempt; Call JsCompile;
           Call (B64Decode (pad_to_quad (js_payload h)));
           Call (JsEval data)]
      (fetch_strategy io h v_js).
Proof.
  intros Hre Hst Hc Hb Hj.
  pose proof (decode_unrecognised io h Hre Hst) as D.
  rewrite (js_strategy_other io h v_unknown u data Hc Hb Hj) in D.
  exact D.
Qed.

Lemma js_other_value_falls_through_witness :
  decode_hashlink mute_worker (lit "abcd")
  = after [Log (Starting (short (lit "abcd"))); Log JsAttempt;
           Call JsCompile;
           Call (B64Decode (pad_to_quad (js_payload (lit "abcd"))));
           Call (JsEval (map byte_of_N [105; 183; 29]%N))]
      (fetch_strategy mute_worker (lit "abcd") v_js).
Proof.
  apply (js_other_value_falls_through mute_worker (lit "abcd") tt);
    reflexivity.
Defined.

(** X16: when the standard pattern matches and its sixteen combinations
    all fail, the JS strategy is given the same payload, group 2 of the
    match, padded once to a multiple of four characters: after the events
    of the padding loop come the JS attempt record, the compilation of
    the worker and, the worker compiled, the base64 decoding of that
    padded payload. *)
Theorem js_after_standard_takes_group_2 io h m :
  reroute_match h = None ->
  standard_match h = Some m ->
  res (padding_loop io (group m 2) v_standard) = Val None ->
  js_payload h = group m 2
  /\ exists tl,
       evs (decode_hashlink io h)
       = Log (Starting (short h)) :: Log StandardCheck
         :: evs (padding_loop io (group m 2) v_standard)
         ++ Log JsAttempt :: Call JsCompile :: tl
       /\ forall u, execjs_compile io = Val u ->
          exists tl',
            tl = Call (B64Decode (pad_to_quad (group m 2))) :: tl'.
Proof.
  intros Hre Hst Hn.
  assert (Hp : js_payload h = group m 2)
    by (unfold js_payload; now rewrite Hst).
  split; [exact Hp|].
  pose proof (padding_loop_ver io (group m 2) v_standard) as Hv.
  unfold decode_hashlink, cascade, reroute_strategy, standard_strategy.
  rewrite Hre, Hst. exec_monad.
  destruct (padding_loop io (group m 2) v_standard) as [o v' t].
  cbn [res ver] in Hn, Hv. subst o v'. exec_monad.
  unfold js_strategy. exec_monad. rewrite Hp.
  repeat case_step;
    rewrite <- ?app_assoc; cbn [app];
    (eexists; split; [reflexivity|]; intros ? Hu;
     first [ discriminate Hu | eexists; rewrite <- ?app_assoc; reflexivity ]).
Qed.

Lemma js_after_standard_takes_group_2_witness :
  exists m,
    standard_match (lit "https://itty.bitty.site/#t/?AAAA") = Some m
    /\ js_payload (lit "https://itty.bitty.site/#t/?AAAA") = group m 2
    /\ exists tl,
         evs (decode_hashlink mute_worker
                (lit "https://itty.bitty.site/#t/?AAAA"))
         = Log (Starting (short (lit "https://itty.bitty.site/#t/?AAAA")))
           :: Log StandardCheck
           :: evs (padding_loop mute_worker (group m 2) v_standard)
           ++ Log JsAttempt :: Call JsCompile :: tl
         /\ forall u, execjs_compile mute_worker = Val u ->
            exists tl',
              tl = Call (B64Decode (pad_to_quad (group m 2))) :: tl'.
Proof.
  destruct (standard_match (lit "https://itty.bitty.site/#t/?AAAA"))
    as [m|] eqn:Hm; [|vm_compute in Hm; discriminate].
  exists m. split; [reflexivity|].
  apply (js_after_standard_takes_group_2 mute_worker
           (lit "https://itty.bitty.site/#t/?AAAA") m).
  - reflexivity.
  - exact Hm.
  - vm_compute in Hm. injection Hm as <-. vm_compute. reflexivity.
Defined.

(** ** The fetch at its edges *)

(** X17: a first page that asks for the v1 redirect when the hashlink
    has no [#] ends the fetch in a failure: [hashlink.split('#')[1]]
    raises [IndexError], the second GET is never issued, and what the
    first page held is not returned; the caller gets "Official site fetch
    failed - list index out of range". *)
Theorem redirect_without_fragment_fails io h v response :
  requests_get io 0 h 10 = Val response ->
  status_code response = 200%Z ->
  re_search redirect_re (accept_toast (text response)) <> None ->
  contains (lit "#") h = false ->
  res (fetch_strategy io h v)
  = Val (Some (Failed (failed_to_decode
                       ++ lit "Official site fetch failed - "
                       ++ lit "list index out of range") v_fetch))
  /\ filter is_get (evs (fetch_strategy io h v)) = [Call (HttpGet h 10)].
Proof.
  intros Hget Hstatus Hredirect Hno.
  exec. rewrite Hget. exec. rewrite Hstatus, Z.eqb_refl. exec.
  destruct (re_search redirect_re (accept_toast (text response)))
    as [found|]; [|congruence].
  rewrite (split_absent _ _ Hno). cbn [nth_error].
  destruct (contains toast_marker (text response)); exec; split; reflexivity.
Qed.

Lemma redirect_without_fragment_fails_witness :
  res (fetch_strategy
         (serving (lit "<body>page</body>" ++ redirect_marker))
         (lit "https://itty.bitty.site/x") v_unknown)
  = Val (Some (Failed (failed_to_decode
                       ++ lit "Official site fetch failed - "
                       ++ lit "list index out of range") v_fetch))
  /\ filter is_get
       (evs (fetch_strategy
               (serving (lit "<body>page</body>" ++ redirect_marker))
               (lit "https://itty.bitty.site/x") v_unknown))
     = [Call (HttpGet (lit "https://itty.bitty.site/x") 10)].
Proof.
  apply (redirect_without_fragment_fails
           (serving (lit "<body>page</body>" ++ redirect_marker))
           (lit "https://itty.bitty.site/x") v_unknown
           {| status_code := 200;
              text := lit "<body>page</body>" ++ redirect_marker |}).
  - reflexivity.
  - reflexivity.
  - vm_compute. discriminate.
  - vm_compute. reflexivity.
Defined.

(** X18: a first page with status 200 that does not ask for the redirect
    is never retried: the fetch issues its one GET and returns the
    stripped content of that page's body under the plain label, or
    "Unable to extract content from official site response" when the page
    has no body. *)
Theorem page_without_redirect_is_final io h v response :
  requests_get io 0 h 10 = Val response ->
  status_code response = 200%Z ->
  re_search redirect_re (accept_toast (text response)) = None ->
  filter is_get (evs (fetch_strategy io h v)) = [Call (HttpGet h 10)]
  /\ res (fetch_strategy io h v)
     = Val (Some
         match body_content (accept_toast (text response)) with
         | Some content => Decoded content v_fetch
         | None =>
             Failed (failed_to_decode
                     ++ lit "Unable to extract content from official site response")
               v_fetch
         end).
Proof.
  intros Hget Hstatus Hredirect.
  exec. rewrite Hget. exec. rewrite Hstatus, Z.eqb_refl. exec.
  rewrite Hredirect.
  destruct (contains toast_marker (text response)); exec;
    destruct (body_content (accept_toast (text response))); exec;
    split; reflexivity.
Qed.

Lemma page_without_redirect_is_final_witness :
  filter is_get
    (evs (fetch_strategy (serving (lit "<body> page </body>"))
            (lit "https://itty.bitty.site/#x") v_unknown))
  = [Call (HttpGet (lit "https://itty.bitty.site/#x") 10)]
  /\ res (fetch_strategy (serving (lit "<body> page </body>"))
            (lit "https://itty.bitty.site/#x") v_unknown)
     = Val (Some
         match body_content (accept_toast (lit "<body> page </body>")) with
         | Some content => Decoded content v_fetch
         | None =>
             Failed (failed_to_decode
                     ++ lit "Unable to extract content from official site response")
               v_fetch
         end).
Proof.
  apply (page_without_redirect_is_final (serving (lit "<body> page </body>"))
           (lit "https://itty.bitty.site/#x") v_unknown
           {| status_code := 200; text := lit "<body> page </body>" |}).
  - reflexivity.
  - reflexivity.
  - vm_compute. reflexivity.
Defined.

(** ** Extracting the body *)

(** A literal that cannot straddle: matched under IGNORECASE at a place
    of [s ++ d :: t] inside a non-empty [s], it lies within [s] when [d]
    is none of its characters but the first. *)
Lemma strip_prefix_ci_within q d t : forall s r,
  forallb (fun c => negb (char_eqb (lower c) (lower d))) q = true ->
  strip_prefix_ci q (s ++ d :: t) = Some r ->
  strip_prefix_ci q s <> None.
Proof.
  induction q as [|c q IH]; intros s r Hq H; [discriminate|].
  cbn [forallb] in Hq. apply andb_prop in Hq as [Hc Hq].
  destruct s as [|x s]; cbn [app strip_prefix_ci] in *.
  - apply negb_true_iff in Hc. rewrite Hc in H. discriminate.
  - destruct (char_eqb (lower c) (lower x)); [|discriminate].
    now apply (IH s r).
Qed.

Lemma strip_prefix_ci_no_straddle c q d t x s :
  forallb (fun c => negb (char_eqb (lower c) (lower d))) q = true ->
  strip_prefix_ci (c :: q) (x :: s) = None ->
  strip_prefix_ci (c :: q) (x :: s ++ d :: t) = None.
Proof.
  intros Hq H. cbn [strip_prefix_ci] in *.
  destruct (char_eqb (lower c) (lower x)); [|reflexivity].
  destruct (strip_prefix_ci q (s ++ d :: t)) as [r|] eqn:E; [|reflexivity].
  apply strip_prefix_ci_within in E; [congruence|assumption].
Qed.

Lemma contains_ci_cons p c s :
  contains_ci p (c :: s) = false ->
  strip_prefix_ci p (c :: s) = None /\ contains_ci p s = false.
Proof.
  cbn [contains_ci]. destruct (strip_prefix_ci p (c :: s)); [discriminate|].
  auto.
Qed.

(** Nowhere inside [w] does the literal start, whatever follows [w], as
    long as what follows starts with a character that the literal has in
    first place only. *)
Lemma literal_starts_nowhere c q w d t :
  forallb (fun c => negb (char_eqb (lower c) (lower d))) q = true ->
  contains_ci (c :: q) w = false ->
  forall a x b, w = a ++ x :: b ->
  strip_prefix_ci (c :: q) (x :: b ++ d :: t) = None.
Proof.
  intros Hq Hw a. revert w Hw.
  induction a as [|y a IH]; intros w Hw x b ->; cbn [app] in Hw;
    apply contains_ci_cons in Hw as [H1 H2].
  - now apply strip_prefix_ci_no_straddle.
  - now apply (IH _ H2).
Qed.

(** The search steps over a text in which the pattern matches nowhere. *)
Lemma re_search_skip r w rest :
  (forall a x b, w = a ++ x :: b -> re_match r (x :: b ++ rest) = None) ->
  re_search r (w ++ rest)
  = option_map (fun '(pre, m) => (w ++ pre, m)) (re_search r rest).
Proof.
  induction w as [|c w IH]; intros H; cbn [app].
  - now destruct (re_search r rest) as [[pre m]|].
  - rewrite re_search_cons, (H [] c w eq_refl), IH.
    + now destruct (re_search r rest) as [[pre m]|].
    + intros a x b ->. now apply (H (c :: a)).
Qed.

Lemma star_lazy_steps A p w rest (k : str -> option A) :
  forallb p w = true ->
  (forall a x b, w = a ++ x :: b -> k (x :: b ++ rest) = None) ->
  star_lazy p (w ++ rest) k = star_lazy p rest k.
Proof.
  induction w as [|c w IH]; intros Hp Hk; [reflexivity|].
  cbn [forallb] in Hp. apply andb_prop in Hp as [Hc Hp].
  cbn [app star_lazy]. rewrite (Hk [] c w eq_refl), Hc.
  apply IH; [assumption|]. intros a x b ->. now apply (Hk (c :: a)).
Qed.

Lemma body_re_needs_open s :
  strip_prefix_ci (lit "<body") s = None -> re_match body_re s = None.
Proof.
  intros H. unfold re_match, body_re. cbn [rx]. now rewrite H.
Qed.

Lemma forallb_anychar w : forallb anychar w = true.
Proof. induction w; cbn; auto. Qed.

(** The match at an opening tag. *)
Lemma body_re_at_open open attrs inner close post :
  ci_eq (lit "<body") open = true ->
  forallb (isnot ">") attrs = true ->
  contains_ci (lit "</body>") inner = false ->
  ci_eq (lit "</body>") close = true ->
  exists m,
    re_match body_re (open ++ attrs ++ lit ">" ++ inner ++ close ++ post)
    = Some m
    /\ group m 1 = inner.
Proof.
  intros Ho Ha Hi Hc.
  unfold re_match, body_re. cbn [rx].
  rewrite (strip_prefix_ci_app _ _ _ Ho).
  rewrite star_greedy_stops.
  2:{ intros c s' Hcls. change (lit ">") with [ch ">"].
      cbn [strip_prefix]. unfold isnot in Hcls.
      apply negb_true_iff in Hcls. unfold char_eqb in *.
      now rewrite N.eqb_sym, Hcls. }
  rewrite (drop_while_app _ attrs _ Ha).
  change (lit ">" ++ inner ++ close ++ post)
    with (ch ">" :: inner ++ close ++ post).
  cbn [drop_while]. change (isnot ">" (ch ">")) with false. cbv iota.
  change (ch ">" :: inner ++ close ++ post)
    with (lit ">" ++ inner ++ close ++ post).
  rewrite strip_prefix_app.
  rewrite star_lazy_steps; [|apply forallb_anychar|].
  - eexists. split.
    + apply star_lazy_here. rewrite (strip_prefix_ci_app _ _ _ Hc).
      reflexivity.
    + unfold group, groups, set_capture. cbn [Nat.eqb].
      now rewrite firstn_length_app.
  - intros a x b E.
    destruct close as [|d close']; [discriminate Hc|].
    assert (Hq : forallb (fun c => negb (char_eqb (lower c) (lower d)))
                   (lit "/body>") = true).
    { change (lit "</body>") with (ch "<" :: lit "/body>") in Hc.
      cbn [ci_eq] in Hc. apply andb_prop in Hc as [Hd _].
      unfold char_eqb in Hd. apply N.eqb_eq in Hd. rewrite <- Hd.
      reflexivity. }
    pose proof (literal_starts_nowhere (ch "<") (lit "/body>") inner d
                  (close' ++ post) Hq Hi a x b E) as N.
    change (ch "<" :: lit "/body>") with (lit "</body>") in N.
    cbn [app]. now rewrite N.
Qed.

(** X19: [body_content] finds the first body element: of a page made of
    a text in which no [<body] starts (in any letter case), an opening
    tag [<body ...>], a content in which no [</body>] starts, a closing
    tag and anything after it, it returns the content, stripped of the
    whitespace around it. *)
Theorem body_content_is_first_body pre open attrs inner close post :
  contains_ci (lit "<body") pre = false ->
  ci_eq (lit "<body") open = true ->
  forallb (isnot ">") attrs = true ->
  contains_ci (lit "</body>") inner = false ->
  ci_eq (lit "</body>") close = true ->
  body_content (pre ++ open ++ attrs ++ lit ">" ++ inner ++ close ++ post)
  = Some (strip inner).
Proof.
  intros Hp Ho Ha Hi Hc.
  destruct (body_re_at_open open attrs inner close post Ho Ha Hi Hc)
    as (m & Hm & G).
  unfold body_content. rewrite re_search_skip.
  - destruct open as [|d open']; [discriminate Ho|]. cbn [app] in *.
    rewrite re_search_cons, Hm. cbn [option_map]. now rewrite G.
  - intros a x b E. apply body_re_needs_open.
    destruct open as [|d open']; [discriminate Ho|]. cbn [app].
    assert (Hq : forallb (fun c => negb (char_eqb (lower c) (lower d)))
                   (lit "body") = true).
    { change (lit "<body") with (ch "<" :: lit "body") in Ho.
      cbn [ci_eq] in Ho. apply andb_prop in Ho as [Hd _].
      unfold char_eqb in Hd. apply N.eqb_eq in Hd. rewrite <- Hd.
      reflexivity. }
    exact (literal_starts_nowhere (ch "<") (lit "body") pre d _ Hq Hp
             a x b E).
Qed.

Lemma body_content_is_first_body_witness :
  body_content
    (lit "<html><head></head>" ++ lit "<BODY" ++ lit " class=x" ++ lit ">"
     ++ lit " <p>one</p> " ++ lit "</Body>"
     ++ lit "<body>two</body></html>")
  = Some (strip (lit " <p>one</p> ")).
Proof.
  apply (body_content_is_first_body (lit "<html><head></head>")
           (lit "<BODY") (lit " class=x") (lit " <p>one</p> ")
           (lit "</Body>") (lit "<body>two</body></html>"));
    reflexivity.
Defined.

(** ** The standard shape *)

Lemma contains_cons p c s :
  contains p (c :: s) = false ->
  strip_prefix p (c :: s) = None /\ contains p s = false.
Proof.
  change (contains p (c :: s))
    with (startswith (c :: s) p || contains p s).
  intros H. apply orb_false_elim in H as [H1 H2]. split; [|exact H2].
  unfold startswith in H1. now destruct (strip_prefix p (c :: s)).
Qed.

(** Inside a title that holds no [/?], the separator starts nowhere, not
    even astride the title's end. *)
Lemma separator_starts_nowhere t tail :
  contains (lit "/?") t = false ->
  forall a x b, t = a ++ x :: b ->
  strip_prefix (lit "/?") (x :: b ++ lit "/?" ++ tail) = None.
Proof.
  intros Ht a. revert t Ht.
  induction a as [|y a IH]; intros t Ht x b ->; cbn [app] in Ht;
    apply contains_cons in Ht as [H1 H2].
  - change (lit "/?") with [ch "/"; ch "?"] in *.
    cbn [strip_prefix app] in *.
    destruct (char_eqb (ch "/") x); [|reflexivity].
    destruct b as [|z b]; [reflexivity|]. cbn [app].
    now destruct (char_eqb (ch "?") z).
  - now apply (IH _ H2).
Qed.

Lemma drop_while_line p rest :
  forallb dot p = true -> rest = [] \/ (exists r, rest = 10%N :: r) ->
  drop_while dot (p ++ rest) = rest.
Proof.
  intros Hp Hr. rewrite (drop_while_app _ p _ Hp).
  destruct Hr as [->|(r & ->)]; reflexivity.
Qed.

(** X20: the standard pattern reads [https://itty.bitty.site/#], a title
    of one line that holds no [/?], the separator [/?] and a payload
    running to the end of its line as that title (group 1) and that
    payload (group 2): the first [/?] separates, and what follows a
    newline is left out. *)
Theorem standard_recognition title payload rest :
  forallb dot title = true ->
  contains (lit "/?") title = false ->
  forallb dot payload = true ->
  rest = [] \/ (exists r, rest = 10%N :: r) ->
  exists m,
    standard_match (site ++ lit "#" ++ title ++ lit "/?" ++ payload ++ rest)
    = Some m
    /\ group m 1 = title /\ group m 2 = payload.
Proof.
  intros Ht Hc Hp Hr.
  unfold standard_match, re_match, standard_re.
  rewrite app_assoc. rewrite rx_cat. cbn [rx].
  rewrite strip_prefix_app.
  rewrite star_lazy_steps; [|exact Ht|].
  - eexists. split.
    + apply star_lazy_here. rewrite strip_prefix_app.
      rewrite star_greedy_total by discriminate.
      rewrite (drop_while_line _ _ Hp Hr). reflexivity.
    + unfold group, groups, set_capture. cbn [Nat.eqb].
      rewrite !firstn_length_app. auto.
  - intros a x b E.
    now rewrite (separator_starts_nowhere title (payload ++ rest) Hc a x b E).
Qed.

Lemma standard_recognition_witness :
  exists m,
    standard_match
      (site ++ lit "#" ++ lit "a/b?c" ++ lit "/?" ++ lit "AAAA/?BBBB"
       ++ 10%N :: lit "more")
    = Some m
    /\ group m 1 = lit "a/b?c" /\ group m 2 = lit "AAAA/?BBBB".
Proof.
  apply (standard_recognition (lit "a/b?c") (lit "AAAA/?BBBB")
           (10%N :: lit "more")).
  - reflexivity.
  - reflexivity.
  - reflexivity.
  - right. eexists. reflexivity.
Defined.

(** ** The JS worker's text *)

(** X21: for a hashlink of neither shape, when the worker compiles and
    its input decodes, a text the worker answers is returned as it is
    under the JS label, and bytes it answers are returned read as UTF-8;
    the success record is the last event, and the fetch is not
    attempted. *)
Theorem js_answer_is_returned io h u data :
  reroute_match h = None ->
  standard_match h = None ->
  execjs_compile io = Val u ->
  b64decode (pad_to_quad (js_payload h)) = Val data ->
  let before :=
    [Log (Starting (short h)); Log JsAttempt; Call JsCompile;
     Call (B64Decode (pad_to_quad (js_payload h))); Call (JsEval data);
     Log JsSuccess] in
  (forall s,
     js_decompress io data = Val (JsStr s) ->
     decode_hashlink io h = Run (Val (Some (Decoded s v_js))) v_js before)
  /\ (forall b document,
        js_decompress io data = Val (JsBytes b) ->
        utf8_decode b = Some document ->
        decode_hashlink io h
        = Run (Val (Some (Decoded document v_js))) v_js before).
Proof.
  intros Hre Hst Hc Hb before.
  pose proof (decode_unrecognised io h Hre Hst) as D.
  unfold js_strategy in D. exec_monad. rewrite Hc in D. exec_monad.
  rewrite Hb in D. exec_monad.
  split.
  - intros s Hj. rewrite Hj in D. exact D.
  - intros b document Hj Hu. rewrite Hj in D. exec_monad.
    rewrite Hu in D. exact D.
Qed.

Lemma js_answer_is_returned_witness :
  decode_hashlink (worker (JsStr (lit "<p>old</p>"))) (lit "abcd")
  = Run (Val (Some (Decoded (lit "<p>old</p>") v_js))) v_js
      [Log (Starting (short (lit "abcd"))); Log JsAttempt; Call JsCompile;
       Call (B64Decode (pad_to_quad (js_payload (lit "abcd"))));
       Call (JsEval (map byte_of_N [105; 183; 29]%N));
       Log JsSuccess].
Proof.
  apply (js_answer_is_returned (worker (JsStr (lit "<p>old</p>")))
           (lit "abcd") tt (map byte_of_N [105; 183; 29]%N));
    reflexivity.
Defined.

(** ** A reroute needs no machine *)

(** X22: what [decode_hashlink] returns for a hashlink of the reroute
    shape does not depend on the machine: no LZMA library, JavaScript
    runtime or network is consulted, so two machines give the same
    pair. *)
Theorem reroute_needs_no_machine io io' h :
  reroute_match h <> None ->
  res (decode_hashlink io h) = res (decode_hashlink io' h)
  /\ Forall (fun ev => is_call ev = true -> exists s, ev = Call (B64Decode s))
       (evs (decode_hashlink io h)).
Proof.
  intros Hm. destruct (reroute_match h) as [m|] eqn:E; [|congruence].
  unfold decode_hashlink, cascade, reroute_strategy. rewrite E.
  exec_monad.
  destruct (b64decode (group m 1)) as [data|e]; exec_monad.
  - destruct (utf8_decode data); exec_monad;
      (split; [reflexivity|]);
      repeat (apply Forall_cons;
              [cbn [is_call]; intros H; first [discriminate H | eauto]|]);
      apply Forall_nil.
  - split; [reflexivity|].
    repeat (apply Forall_cons;
            [cbn [is_call]; intros H; first [discriminate H | eauto]|]);
    apply Forall_nil.
Qed.

Lemma reroute_needs_no_machine_witness :
  res (decode_hashlink offline
         (lit "https://itty.bitty.site/#t/data:text/html;charset=utf-8;base64,aGk="))
  = res (decode_hashlink tabulated
           (lit "https://itty.bitty.site/#t/data:text/html;charset=utf-8;base64,aGk="))
  /\ Forall (fun ev => is_call ev = true -> exists s, ev = Call (B64Decode s))
       (evs (decode_hashlink offline
               (lit "https://itty.bitty.site/#t/data:text/html;charset=utf-8;base64,aGk="))).
Proof.
  apply (reroute_needs_no_machine offline tabulated).
  vm_compute. discriminate.
Defined.
